(** * BaseSpatialSlicer (lsst.sims.maf.slicers.baseSpatialSlicer)

    A shallow embedding of the spatial slicer of sims_maf and the proofs of
    its specification.

    Modelling conventions.
    - numpy float64 values are read as the real numbers [R] of the
      Standard Library; [np.cos], [np.sin], [np.sqrt], [np.abs] are [cos],
      [sin], [sqrt] and [Rabs]. This is the exact reading of the
      arithmetic. The two transforms are also given in double precision,
      in the module [Float64], for the statements that rounding decides.
    - Python exceptions are the constructors of [exn]; a method that can
      raise returns a [result].
    - the slicer instance ([self]) is the record [slicer]; a method that
      mutates [self] returns the updated record.
    - [scipy.spatial.cKDTree], the LSST camera mapper and
      [_chipNameFromRaDec] are libraries outside the repository: they are
      the fields of the class [Externals].
    - the registry and the query methods of [lsst.sims.maf.db.database]
      are the module [Database], with the exceptions and the monad of its
      own. *)

From Stdlib Require Import Floats.PrimFloat.
From Stdlib Require Import Reals Lra Lia ZArith Sorting.Sorted.
From stdpp Require Import base option list sorting strings gmap.

#[global] Set Warnings "-clear-no-such-hyp".
(* A decimal literal of type [float] is the nearest double, as in Python. *)
#[global] Set Warnings "-inexact-float".

(** ** Exceptions *)

Inductive exn : Type :=
| IndexError
| KeyError
| TypeError
| AttributeError
| ValueError (msg : string).

Inductive result (A : Type) : Type :=
| Ok (a : A)
| Raise (e : exn).
Arguments Ok {A} a.
Arguments Raise {A} e.

#[global] Instance result_ret : MRet result := λ A a, Ok a.
#[global] Instance result_bind : MBind result := λ A B f m,
  match m with
  | Ok a => f a
  | Raise e => Raise e
  end.

(** The spec's [InvalidInputError] is the code's [ValueError]. *)
Definition InvalidInputError {A} (r : result A) : Prop :=
  ∃ msg, r = Raise (ValueError msg).

(** [for x in xs: st = body(st, x)], stopping at the first exception. *)
Fixpoint for_each {S A} (body : S → A → result S) (st : S) (xs : list A)
  : result S :=
  match xs with
  | [] => Ok st
  | x :: xs' => st' ← body st x; for_each body st' xs'
  end.

(** Reading an attribute of [self] that has not been assigned yet. *)
Definition attr {A} (o : option A) : result A :=
  match o with
  | Some a => Ok a
  | None => Raise AttributeError
  end.

(** ** Python and numpy containers *)

(** [seq[i]] for a Python list or the leading axis of a numpy array: a
    negative index counts from the end, anything outside
    [-len, len) raises [IndexError]. *)
Definition py_index {A} (l : list A) (i : Z) : result A :=
  let n := Z.of_nat (length l) in
  let j := if bool_decide (i < 0)%Z then (i + n)%Z else i in
  if bool_decide (0 ≤ j < n)%Z then
    match l !! Z.to_nat j with
    | Some a => Ok a
    | None => Raise IndexError
    end
  else Raise IndexError.

(** [arr[idx]] for an integer index array [idx] (numpy fancy indexing). *)
Definition np_take {A} (arr : list A) (idx : list nat) : result (list A) :=
  mapM (λ i, match arr !! i with
             | Some a => Ok a
             | None => Raise IndexError
             end) idx.

(** [np.where(mask)[0]]: the positions of the true entries, ascending. *)
Fixpoint where_from (k : nat) (mask : list bool) : list nat :=
  match mask with
  | [] => []
  | b :: mask' => (if b then [k] else []) ++ where_from (S k) mask'
  end.
Definition np_where (mask : list bool) : list nat := where_from 0 mask.

(** [tbl[i].append(x)] on a list of lists. *)
Definition append_at {A} (tbl : list (list A)) (i : nat) (x : A)
  : result (list (list A)) :=
  match tbl !! i with
  | Some _ => Ok (alter (λ entry, entry ++ [x]) i tbl)
  | None => Raise IndexError
  end.

(** The values held by the slice-point metadata store. *)
#[warnings="-register-all"]
Inductive pyval : Type :=
| PNone
| PFloat (x : R)
| PInt (n : Z)
| PStr (s : string)
| PArr (elts : list pyval).

(** [np.shape(v)]; everything that is not an array has shape [()]. *)
Fixpoint np_shape (v : pyval) : list nat :=
  match v with
  | PArr elts =>
      length elts :: match elts with
                     | e :: _ => np_shape e
                     | [] => []
                     end
  | _ => []
  end.

(** [v[i]]. [None] and Python numbers are not subscriptable; a string
    yields the one-character string at [i]. *)
Definition py_getitem (v : pyval) (i : Z) : result pyval :=
  match v with
  | PArr elts => py_index elts i
  | PStr s =>
      c ← py_index (String.list_ascii_of_string s) i; Ok (PStr (String c EmptyString))
  | PNone | PFloat _ | PInt _ => Raise TypeError
  end.

(** A value used as a float by numpy. *)
Definition as_float (v : pyval) : result R :=
  match v with
  | PFloat x => Ok x
  | PInt n => Ok (IZR n)
  | _ => Raise TypeError
  end.

(** A value used as a 1-D float array by numpy; the slicer's coordinate
    columns are such arrays, any other value is reported as [TypeError]. *)
Definition as_floats (v : pyval) : result (list R) :=
  match v with
  | PArr elts => mapM as_float elts
  | _ => Raise TypeError
  end.

(** [d[key]] on a Python dict. *)
Definition dict_get (d : gmap string pyval) (key : string) : result pyval :=
  match d !! key with
  | Some v => Ok v
  | None => Raise KeyError
  end.

(** ** Coordinate transforms: [_treexyz] and [_setRad] *)

#[global] Instance Rgt_decision (x y : R) : Decision (x > y)%R := Rgt_dec x y.
#[global] Instance Rle_decision (x y : R) : Decision (x <= y)%R := Rle_dec x y.

Local Open Scope R_scope.

Definition point : Type := R * R * R.

(** [np.radians] and [np.degrees]. *)
Definition radians (deg : R) : R := deg * (PI / 180).
Definition degrees (rad : R) : R := rad * (180 / PI).

(** [_treexyz(ra, dec)] on scalars. *)
Definition _treexyz (ra dec : R) : point :=
  let x := cos dec * cos ra in
  let y := cos dec * sin ra in
  let z := sin dec in
  (x, y, z).

(** [a * b] on 1-D arrays with numpy broadcasting. *)
Definition np_mul (xs ys : list R) : result (list R) :=
  if decide (length xs = length ys) then Ok (zip_with Rmult xs ys)
  else match xs, ys with
       | [x], _ => Ok ((λ y, x * y) <$> ys)
       | _, [y] => Ok ((λ x, x * y) <$> xs)
       | _, _ => Raise (ValueError "operands could not be broadcast together")
       end.

(** [_treexyz(ra, dec)] on 1-D arrays. *)
Definition _treexyz_arr (ra dec : list R) : result (list R * list R * list R) :=
  x ← np_mul (cos <$> dec) (cos <$> ra);
  y ← np_mul (cos <$> dec) (sin <$> ra);
  let z := sin <$> dec in
  Ok (x, y, z).

(** What [list(zip(x, y, z))] holds after [_treexyz] on two arrays of
    equal length: the projection of each (ra, dec) pair. *)
Definition sky_points (ra dec : list R) : list point :=
  (λ rd, _treexyz rd.1 rd.2) <$> zip ra dec.

(** The value [_setRad(radius)] stores in [self.rad]. *)
Definition _setRad (radius : R) : R :=
  let '(x0, y0, z0) := (1, 0, 0) in
  let '(x1, y1, z1) := _treexyz (radians radius) 0 in
  sqrt ((x1 - x0) ^ 2 + (y1 - y0) ^ 2 + (z1 - z0) ^ 2).

(** [np.any(np.abs(a) > np.pi*2.0)]. *)
Definition any_abs_gt_2pi (a : list R) : bool :=
  existsb (λ v, bool_decide (Rabs v > PI * 2)) a.

Local Close Scope R_scope.

(** ** Libraries outside the repository *)

(** [ObservationMetaData(pointingRA=, pointingDec=, rotSkyPos=, mjd=)]. *)
Record ObservationMetaData : Type := {
  pointingRA : R;
  pointingDec : R;
  md_rotSkyPos : R;
  md_mjd : R;
}.

(** A detector name as [_chipNameFromRaDec] returns it: [None] is the
    "no detector" sentinel. *)
Definition chipName : Type := option string.

Class Externals : Type := {
  (** [LsstSimMapper().camera] *)
  Camera : Type;
  LsstSimMapper_camera : Camera;
  (** [scipy.spatial.cKDTree(data, leafsize=...)] and its
      [query_ball_point(center, r)] *)
  KDTree : Type;
  kdtree : list point → nat → KDTree;
  query_ball_point : KDTree → point → R → list nat;
  (** [_chipNameFromRaDec(ra, dec, epoch=, camera=, obs_metadata=)] *)
  _chipNameFromRaDec :
    list R → list R → R → Camera → ObservationMetaData → list chipName;
}.

(** ** The slicer *)

(** One record of [simData]; the column names ([lonCol], [latCol],
    [rotSkyPosColName], [mjdColName]) select these fields. *)
Record observation : Type := {
  fieldRA : R;
  fieldDec : R;
  rotSkyPos : R;
  observationStartMJD : R;
}.

(** The [chipNames] argument of the constructor, "array-like": ['all'],
    a Python list (or tuple) of names, or a numpy array of two or more
    names. A numpy array of one name passes the test
    [self.chipsToUse != 'all'] as the list of that name does, and is
    [Chips] of it; what the test makes of an empty array depends on the
    version of numpy, and the empty array is outside this type. *)
Inductive chip_filter : Type :=
| AllChips
| Chips (names : list string)
| ChipArray (first second : string) (rest : list string).

Record slicer `{Externals} : Type := {
  (* configuration, fixed by [__init__] *)
  latLonDeg : bool;
  useCamera : bool;
  radius : R;
  leafsize : nat;
  chipsToUse : chip_filter;
  cacheSize : nat;
  (* slice points, fixed by the concrete slicer class *)
  slicePoints : gmap string pyval;
  nslice : nat;
  (* assigned by [setupSlicer] *)
  rad : option R;
  opsimtree : option KDTree;
  camera : option Camera;
  epoch : option R;
  sliceLookup : list (list nat);
  chipNames : list (list chipName);
  (* the messages passed to [warnings.warn] *)
  warned : list string;
}.

Section SlicerMethods.
Context `{Externals}.

Definition set_slicePoints (s : slicer) (sp : gmap string pyval) : slicer :=
  {| latLonDeg := latLonDeg s; useCamera := useCamera s; radius := radius s;
     leafsize := leafsize s; chipsToUse := chipsToUse s;
     cacheSize := cacheSize s; slicePoints := sp; nslice := nslice s;
     rad := rad s; opsimtree := opsimtree s; camera := camera s;
     epoch := epoch s; sliceLookup := sliceLookup s;
     chipNames := chipNames s; warned := warned s |}.

Definition set_rad (s : slicer) (r : R) : slicer :=
  {| latLonDeg := latLonDeg s; useCamera := useCamera s; radius := radius s;
     leafsize := leafsize s; chipsToUse := chipsToUse s;
     cacheSize := cacheSize s; slicePoints := slicePoints s;
     nslice := nslice s; rad := Some r; opsimtree := opsimtree s;
     camera := camera s; epoch := epoch s; sliceLookup := sliceLookup s;
     chipNames := chipNames s; warned := warned s |}.

Definition set_opsimtree (s : slicer) (t : KDTree) : slicer :=
  {| latLonDeg := latLonDeg s; useCamera := useCamera s; radius := radius s;
     leafsize := leafsize s; chipsToUse := chipsToUse s;
     cacheSize := cacheSize s; slicePoints := slicePoints s;
     nslice := nslice s; rad := rad s; opsimtree := Some t;
     camera := camera s; epoch := epoch s; sliceLookup := sliceLookup s;
     chipNames := chipNames s; warned := warned s |}.

Definition set_camera (s : slicer) (c : Camera) (e : R) : slicer :=
  {| latLonDeg := latLonDeg s; useCamera := useCamera s; radius := radius s;
     leafsize := leafsize s; chipsToUse := chipsToUse s;
     cacheSize := cacheSize s; slicePoints := slicePoints s;
     nslice := nslice s; rad := rad s; opsimtree := opsimtree s;
     camera := Some c; epoch := Some e; sliceLookup := sliceLookup s;
     chipNames := chipNames s; warned := warned s |}.

Definition set_lookup (s : slicer)
    (tables : list (list nat) * list (list chipName)) : slicer :=
  {| latLonDeg := latLonDeg s; useCamera := useCamera s; radius := radius s;
     leafsize := leafsize s; chipsToUse := chipsToUse s;
     cacheSize := cacheSize s; slicePoints := slicePoints s;
     nslice := nslice s; rad := rad s; opsimtree := opsimtree s;
     camera := camera s; epoch := epoch s; sliceLookup := tables.1;
     chipNames := tables.2; warned := warned s |}.

Definition warn (s : slicer) (msg : string) : slicer :=
  {| latLonDeg := latLonDeg s; useCamera := useCamera s; radius := radius s;
     leafsize := leafsize s; chipsToUse := chipsToUse s;
     cacheSize := cacheSize s; slicePoints := slicePoints s;
     nslice := nslice s; rad := rad s; opsimtree := opsimtree s;
     camera := camera s; epoch := epoch s; sliceLookup := sliceLookup s;
     chipNames := chipNames s; warned := warned s ++ [msg] |}.

(** [_setupLSSTCamera] *)
Definition _setupLSSTCamera (s : slicer) : slicer :=
  set_camera s LsstSimMapper_camera 2000%R.

(** [_buildTree(simDataRa, simDataDec, leafsize)]: the tree it assigns to
    [self.opsimtree]. The [except TypeError] branch builds the same tree
    through the older scipy signature. *)
Definition _buildTree (simDataRa simDataDec : list R) (leafsize : nat)
  : result KDTree :=
  if any_abs_gt_2pi simDataRa || any_abs_gt_2pi simDataDec then
    Raise (ValueError "Expecting RA and Dec values to be in radians.")
  else
    '(x, y, z) ← _treexyz_arr simDataRa simDataDec;
    let data := zip_with (λ x yz, (x, yz.1, yz.2)) x (zip y z) in
    (* np.size of a list of 3-tuples *)
    if bool_decide (0 < 3 * length data) then Ok (kdtree data leafsize)
    else Raise (ValueError
                  "SimDataRA and Dec should have length greater than 0.").

(** numpy's message for [if] on an array of two or more booleans. *)
Definition ambiguous_truth_value : string :=
  "The truth value of an array with more than one element is ambiguous. " +:+
  "Use a.any() or a.all()".

(** One turn of the loop over the pointings in [_presliceFootprint], up
    to the pairs [zip(hpOnChip, chipNames[good])] of its inner loop. *)
Definition pointing_hits (s : slicer) (slice_ra slice_dec : list R)
    (ra dec rot mjd : R) : result (list (nat * chipName)) :=
  let '(dx, dy, dz) := _treexyz ra dec in
  tree ← attr (opsimtree s);
  r ← attr (rad s);
  let hpIndices := query_ball_point tree (dx, dy, dz) r in
  if bool_decide (0 < length hpIndices) then
    let obs_metadata :=
      {| pointingRA := degrees ra; pointingDec := degrees dec;
         md_rotSkyPos := degrees rot; md_mjd := mjd |} in
    cand_ra ← np_take slice_ra hpIndices;
    cand_dec ← np_take slice_dec hpIndices;
    e ← attr (epoch s);
    cam ← attr (camera s);
    let chipNames := _chipNameFromRaDec cand_ra cand_dec e cam obs_metadata in
    '(chipNames, hpIndices) ←
      match chipsToUse s with
      | AllChips => Ok (chipNames, hpIndices)
      | Chips allowed =>
          let checkedChipNames :=
            (λ c : chipName, match c with
                             | Some name => bool_decide (name ∈ allowed)
                             | None => false
                             end) <$> chipNames in
          let good := np_where checkedChipNames in
          chipNames' ← np_take chipNames good;
          hpIndices' ← np_take hpIndices good;
          Ok (chipNames', hpIndices')
      | ChipArray _ _ _ =>
          (* [array != 'all'] is an array of booleans, which [if] refuses *)
          Raise (ValueError ambiguous_truth_value)
      end;
    let good := np_where ((λ c : chipName, bool_decide (c ≠ None)) <$> chipNames) in
    hpOnChip ← np_take hpIndices good;
    onChipNames ← np_take chipNames good;
    Ok (zip hpOnChip onChipNames)
  else Ok [].

(** The inner loop: [sliceLookup[i].append(ind)] and
    [chipNames[i].append(chipName)] for every pair. *)
Definition record_hits (ind : nat)
    (tables : list (list nat) * list (list chipName))
    (hits : list (nat * chipName))
  : result (list (list nat) * list (list chipName)) :=
  for_each (λ tables hit,
              lookup ← append_at tables.1 hit.1 ind;
              names ← append_at tables.2 hit.1 hit.2;
              Ok (lookup, names)) tables hits.

(** [_presliceFootprint(simData)] *)
Definition _presliceFootprint (s : slicer) (simData : list observation)
  : result slicer :=
  let tables := (replicate (nslice s) [], replicate (nslice s) []) in
  ra_v ← dict_get (slicePoints s) "ra";
  dec_v ← dict_get (slicePoints s) "dec";
  slice_ra ← as_floats ra_v;
  slice_dec ← as_floats dec_v;
  tree ← _buildTree slice_ra slice_dec (leafsize s);
  let s := set_opsimtree s tree in
  let angle := if latLonDeg s then radians else id in
  tables ← for_each
    (λ tables (row : nat * observation),
       let '(ind, o) := row in
       hits ← pointing_hits s slice_ra slice_dec
                (angle (fieldRA o)) (angle (fieldDec o))
                (rotSkyPos o) (observationStartMJD o);
       record_hits ind tables hits)
    tables (zip (seq 0 (length simData)) simData);
  Ok (set_lookup s tables).

(** Modelled from the spec: [_runMaps], a method of the base class
    [BaseSlicer] (module [baseSlicer]), whose source is not part of this
    development. It "runs each map generator in order over the slice
    points"; a generator rewrites the slice-point metadata. *)
Definition _runMaps (s : slicer)
    (maps : list (gmap string pyval → gmap string pyval)) : slicer :=
  set_slicePoints s (foldl (λ sp run, run sp) (slicePoints s) maps).

(** [setupSlicer(simData, maps)]: the slicer whose [_sliceSimData] is
    bound to the closure defined below. *)
Definition setupSlicer (s : slicer) (simData : list observation)
    (maps : option (list (gmap string pyval → gmap string pyval)))
  : result slicer :=
  let s :=
    match maps with
    | Some maps =>
        let s :=
          if bool_decide (cacheSize s ≠ 0) && bool_decide (0 < length maps)
          then warn s ("Warning:  Loading maps but cache on." +:+
                       "Should probably set useCache=False in slicer.")
          else s in
        _runMaps s maps
    | None => s
    end in
  let s := set_rad s (_setRad (radius s)) in
  if useCamera s then
    let s := _setupLSSTCamera s in
    _presliceFootprint s simData
  else
    let angle := if latLonDeg s then radians else id in
    tree ← _buildTree (angle ∘ fieldRA <$> simData)
                      (angle ∘ fieldDec <$> simData) (leafsize s);
    Ok (set_opsimtree s tree).

(** What [_sliceSimData(islice)] returns. *)
Record sliced : Type := {
  idxs : list nat;
  slicePoint : gmap string pyval;
}.

(** The body of the loop over [self.slicePoints]: the value bound to one
    key. *)
Definition slicePoint_entry (nslice : nat) (islice : Z) (v : pyval)
  : result pyval :=
  let keyShape :=
    if bool_decide (length (np_shape v) = 0) then 0
    else default 0 (np_shape v !! 0) in
  if bool_decide (keyShape = nslice) then py_getitem v islice else Ok v.

Definition chipName_value (c : chipName) : pyval :=
  match c with
  | Some name => PStr name
  | None => PNone
  end.

(** The closure [_sliceSimData(islice)] bound by [setupSlicer]; it reads
    the slicer it was created on. The loop over the keys of the metadata
    store visits them in the order of [map_to_list]. *)
Definition _sliceSimData (s : slicer) (islice : Z) : result sliced :=
  '(indices, slicePoint) ←
    (if useCamera s then
       indices ← py_index (sliceLookup s) islice;
       names ← py_index (chipNames s) islice;
       Ok (indices, {[ "chipNames" := PArr (chipName_value <$> names) ]})
     else
       ra_v ← dict_get (slicePoints s) "ra";
       ra_i ← py_getitem ra_v islice;
       dec_v ← dict_get (slicePoints s) "dec";
       dec_i ← py_getitem dec_v islice;
       dec ← as_float dec_i;
       ra ← as_float ra_i;
       let '(sx, sy, sz) := _treexyz ra dec in
       tree ← attr (opsimtree s);
       r ← attr (rad s);
       Ok (query_ball_point tree (sx, sy, sz) r, ∅));
  slicePoint ← for_each
    (λ slicePoint (item : string * pyval),
       v ← slicePoint_entry (nslice s) islice item.2;
       Ok (<[item.1 := v]> slicePoint))
    slicePoint (map_to_list (slicePoints s));
  Ok {| idxs := indices; slicePoint := slicePoint |}.

End SlicerMethods.

(** ** A reference instance of the external libraries

    A brute-force ball query over the indexed points and a one-chip camera
    whose detector covers the southern half of the field. It instantiates
    the theorems of this file on concrete slicers. *)

Definition dist (p q : point) : R :=
  sqrt ((p.1.1 - q.1.1) ^ 2 + (p.1.2 - q.1.2) ^ 2 + (p.2 - q.2) ^ 2)%R.

Definition ball_query (data : list point) (center : point) (r : R) : list nat :=
  np_where ((λ p, bool_decide (dist p center <= r)%R) <$> data).

Definition half_field_chip (ra dec : list R) (e : R) (cam : unit)
    (md : ObservationMetaData) : list chipName :=
  (λ d, if bool_decide (d > 0)%R then None else Some "R:2,2 S:1,1") <$> dec.

Definition reference : Externals :=
  {| Camera := unit;
     LsstSimMapper_camera := ();
     KDTree := list point;
     kdtree := λ data _, data;
     query_ball_point := ball_query;
     _chipNameFromRaDec := half_field_chip |}.

(** One slice point at the origin of the sky. *)
Definition demo_points : gmap string pyval :=
  <["sid" := PArr [PInt 0]]>
    (<["ra" := PArr [PFloat 0]]> {[ "dec" := PArr [PFloat 0] ]}).

Definition demo_slicer (footprint : bool) : @slicer reference :=
  {| latLonDeg := false; useCamera := footprint; radius := 1.75%R;
     leafsize := 100; chipsToUse := Chips ["R:2,2 S:1,1"; "R:2,2 S:1,2"];
     cacheSize := 0; slicePoints := demo_points; nslice := 1;
     rad := None; opsimtree := None; camera := None; epoch := None;
     sliceLookup := []; chipNames := []; warned := [] |}.

(** One pointing at the origin of the sky, observed twice. *)
Definition demo_obs : observation :=
  {| fieldRA := 0; fieldDec := 0; rotSkyPos := 0;
     observationStartMJD := 59580 |}.
Definition demo_data : list observation := [demo_obs; demo_obs].

Definition demo_chip : chipName := Some "R:2,2 S:1,1".

(** The footprint slicer as [setupSlicer] hands it to [_presliceFootprint],
    and as [_presliceFootprint] returns it on [demo_data]. *)
Definition demo_prepared : @slicer reference :=
  _setupLSSTCamera (set_rad (demo_slicer true) (_setRad 1.75)).

(** The slicer [setupSlicer] returns on [demo_data] without the camera
    footprint. *)
Definition demo_tree_ready : @slicer reference :=
  {| latLonDeg := false; useCamera := false; radius := 1.75%R;
     leafsize := 100; chipsToUse := Chips ["R:2,2 S:1,1"; "R:2,2 S:1,2"];
     cacheSize := 0; slicePoints := demo_points; nslice := 1;
     rad := Some (_setRad 1.75);
     opsimtree := Some (@kdtree reference
                          (sky_points [0%R; 0%R] [0%R; 0%R]) 100);
     camera := None; epoch := None;
     sliceLookup := []; chipNames := []; warned := [] |}.

Definition demo_footprint_ready : @slicer reference :=
  {| latLonDeg := false; useCamera := true; radius := 1.75%R;
     leafsize := 100; chipsToUse := Chips ["R:2,2 S:1,1"; "R:2,2 S:1,2"];
     cacheSize := 0; slicePoints := demo_points; nslice := 1;
     rad := Some (_setRad 1.75);
     opsimtree := Some (@kdtree reference (sky_points [0%R] [0%R]) 100);
     camera := Some (@LsstSimMapper_camera reference); epoch := Some 2000%R;
     sliceLookup := [[0; 1]]; chipNames := [[demo_chip; demo_chip]];
     warned := [] |}.

(** ** Predicates of the specification *)

(** The names of an allow-list, [None] for ['all']. *)
Definition allowed_names (filter : chip_filter) : option (list string) :=
  match filter with
  | AllChips => None
  | Chips names => Some names
  | ChipArray first second rest => Some (first :: second :: rest)
  end.

(** A stored chip name is a detector, and one of the allow-list when the
    slicer has one. *)
Definition chip_accepted (filter : chip_filter) (c : chipName) : Prop :=
  c ≠ None ∧
  ∀ allowed, allowed_names filter = Some allowed →
             ∃ name, c = Some name ∧ name ∈ allowed.

(** The allow-list is ['all'] or a Python list, not a numpy array. *)
Definition all_or_list (filter : chip_filter) : Prop :=
  match filter with
  | AllChips | Chips _ => True
  | ChipArray _ _ _ => False
  end.

(** The metadata store once [setupSlicer] has run the map generators. *)
Definition points_after_maps `{Externals} (s : slicer)
    (maps : option (list (gmap string pyval → gmap string pyval)))
  : gmap string pyval :=
  match maps with
  | Some maps => slicePoints (_runMaps s maps)
  | None => slicePoints s
  end.

(** The leading dimension of a metadata value, 0 for a scalar. *)
Definition leading_dimension (v : pyval) : nat :=
  match np_shape v with
  | [] => 0
  | d :: _ => d
  end.

Definition numeric (v : pyval) : Prop :=
  match v with
  | PFloat _ | PInt _ => True
  | _ => False
  end.

(** What every concrete spatial slicer establishes: [slicePoints['ra']] and
    [slicePoints['dec']] are numeric arrays with one value per slice
    point. *)
Definition spatial_points `{Externals} (s : slicer) : Prop :=
  ∃ ras decs,
    slicePoints s !! "ra" = Some (PArr ras) ∧
    slicePoints s !! "dec" = Some (PArr decs) ∧
    length ras = nslice s ∧ length decs = nslice s ∧
    Forall numeric ras ∧ Forall numeric decs.

(** The state of one lookup entry once the pointings before [k] are done:
    [order] is [le] or [lt]. *)
Definition entry_ok (order : relation nat) (filter : chip_filter) (k : nat)
    (entry : list nat) (names : list chipName) : Prop :=
  length entry = length names ∧
  StronglySorted order entry ∧
  Forall (λ ind, ind < k) entry ∧
  Forall (chip_accepted filter) names.

Definition tables_ok (order : relation nat) (filter : chip_filter) (n k : nat)
    (tables : list (list nat) * list (list chipName)) : Prop :=
  length tables.1 = n ∧ length tables.2 = n ∧
  ∀ i entry names,
    tables.1 !! i = Some entry → tables.2 !! i = Some names →
    entry_ok order filter k entry names.

(** ** Great-circle separation *)


(** The position of slice point [i], as the query closure reads it from
    the metadata store. *)
Definition slice_coordinates `{Externals} (s : slicer) (i : nat)
  : option (R * R) :=
  match slicePoints s !! "ra", slicePoints s !! "dec" with
  | Some (PArr ras), Some (PArr decs) =>
      match ras !! i, decs !! i with
      | Some ra_i, Some dec_i =>
          match as_float ra_i, as_float dec_i with
          | Ok ra, Ok dec => Some (ra, dec)
          | _, _ => None
          end
      | _, _ => None
      end
  | _, _ => None
  end.

(** The position of an observation in radians, as [setupSlicer] hands it
    to the index ([np.radians] when [latLonDeg] is set). *)
Definition pointing `{Externals} (s : slicer) (o : observation) : R * R :=
  let angle := if latLonDeg s then radians else id in
  (angle (fieldRA o), angle (fieldDec o)).

(** The slice points the ball query of [_presliceFootprint] returns for
    the pointing [o], on the tree over the slice points. *)
Definition candidates `{Externals} (s : slicer) (slice_ra slice_dec : list R)
    (o : observation) : list nat :=
  query_ball_point (kdtree (sky_points slice_ra slice_dec) (leafsize s))
    (_treexyz (pointing s o).1 (pointing s o).2) (_setRad (radius s)).

(** Slice point [i] falls on detector [c] of the pointing [o]: [i] is a
    candidate of the ball query around the pointing, and for that candidate
    the camera names [c], a detector the slicer accepts. *)
Definition on_chip `{Externals} (s : slicer) (slice_ra slice_dec : list R)
    (o : observation) (i : nat) (c : chipName) : Prop :=
  ∃ tree r e cam cand_ra cand_dec (p : nat),
    opsimtree s = Some tree ∧ rad s = Some r ∧
    epoch s = Some e ∧ camera s = Some cam ∧
    let hpIndices :=
      query_ball_point tree (_treexyz (pointing s o).1 (pointing s o).2) r in
    np_take slice_ra hpIndices = Ok cand_ra ∧
    np_take slice_dec hpIndices = Ok cand_dec ∧
    hpIndices !! p = Some i ∧
    _chipNameFromRaDec cand_ra cand_dec e cam
      {| pointingRA := degrees (pointing s o).1;
         pointingDec := degrees (pointing s o).2;
         md_rotSkyPos := degrees (rotSkyPos o);
         md_mjd := observationStartMJD o |} !! p = Some c ∧
    chip_accepted (chipsToUse s) c.

(** The invariant of the footprint build on the pairs (observation index,
    chip name) of the entries, once the pointings before [upto] are done. *)
Definition pairs_ok `{Externals} (s : slicer) (slice_ra slice_dec : list R)
    (simData : list observation) (upto : nat)
    (tables : list (list nat) * list (list chipName)) : Prop :=
  ∀ i entry names,
    tables.1 !! i = Some entry → tables.2 !! i = Some names →
    length entry = length names ∧
    ∀ k c, (k, c) ∈ zip entry names ↔
           k < upto ∧
           ∃ o, simData !! k = Some o ∧ on_chip s slice_ra slice_dec o i c.

(** The message of the warning of [setupSlicer], and when it is issued. *)
Definition cache_warning : string :=
  "Warning:  Loading maps but cache on." +:+
  "Should probably set useCache=False in slicer.".

Definition warns `{Externals} (s : slicer)
    (maps : option (list (gmap string pyval → gmap string pyval))) : bool :=
  match maps with
  | Some maps => bool_decide (cacheSize s ≠ 0) && bool_decide (0 < length maps)
  | None => false
  end.

(** A pointing far outside the radian range. *)
Definition stray_obs : observation :=
  {| fieldRA := 9; fieldDec := 0; rotSkyPos := 0;
     observationStartMJD := 59580 |}.

(** The demo slicer without footprint, reading its columns in degrees. *)
(** The footprint slicer with its allow-list given as a numpy array. *)
Definition demo_array_slicer : @slicer reference :=
  {| latLonDeg := false; useCamera := true; radius := 1.75%R;
     leafsize := 100;
     chipsToUse := ChipArray "R:2,2 S:1,1" "R:2,2 S:1,2" [];
     cacheSize := 0; slicePoints := demo_points; nslice := 1;
     rad := None; opsimtree := None; camera := None; epoch := None;
     sliceLookup := []; chipNames := []; warned := [] |}.



Definition demo_degrees_slicer : @slicer reference :=
  {| latLonDeg := true; useCamera := false; radius := 1.75%R;
     leafsize := 100; chipsToUse := AllChips; cacheSize := 0;
     slicePoints := demo_points; nslice := 1;
     rad := None; opsimtree := None; camera := None; epoch := None;
     sliceLookup := []; chipNames := []; warned := [] |}.

(** * The transforms in double precision

    numpy's float64 is IEEE 754 binary64, the primitive [float] with its
    correctly rounded [+], [-], [*], [/] and [sqrt]. [np.cos] and [np.sin]
    call the C library, which is outside the repository: they are the
    fields of the class [Libm]. *)

Module Float64.
Local Open Scope float_scope.

Class Libm : Type := {
  np_cos : float → float;
  np_sin : float → float;
}.

(** [np.pi] *)
Definition pi : float := 3.141592653589793.

(** [np.radians(x)]: numpy multiplies by the constant [pi / 180.0]. *)
Definition radians (deg : float) : float := deg * (pi / 180).

(** [x ** 2] on a float64: the square, rounded once. *)
Definition square (x : float) : float := x * x.

(** [_treexyz(ra, dec)] on scalars. *)
Definition _treexyz `{Libm} (ra dec : float) : float * float * float :=
  let x := np_cos dec * np_cos ra in
  let y := np_cos dec * np_sin ra in
  let z := np_sin dec in
  (x, y, z).

(** The value [_setRad(radius)] stores in [self.rad]. *)
Definition _setRad `{Libm} (radius : float) : float :=
  let '(x0, y0, z0) := (1, 0, 0) in
  let '(x1, y1, z1) := _treexyz (radians radius) 0 in
  PrimFloat.sqrt (square (x1 - x0) + square (y1 - y0) + square (z1 - z0)).


(** The cosine and the sine the C library returns at the arguments of the
    examples: 0, 0.1, 0.2 and the radians of 179.99999999 and of
    179.999999995 degrees. *)
Definition libm_values : list (float * (float * float)) :=
  [(0, (1, 0));
   (0.1, (0.9950041652780258, 0.09983341664682815));
   (0.2, (0.9800665778412416, 0.19866933079506122));
   (3.1415926534152603, (-1, 1.7453295509548257e-10));
   (3.1415926535025265, (-1, 8.726676082468618e-11))].

Fixpoint tabulated (table : list (float * (float * float))) (x : float)
  : float * float :=
  match table with
  | [] => (nan, nan)
  | (a, v) :: table => if a =? x then v else tabulated table x
  end.

(** The C library on the arguments of [libm_values]; any other argument
    gives [nan]. *)
Definition libm : Libm :=
  {| np_cos := λ x, (tabulated libm_values x).1;
     np_sin := λ x, (tabulated libm_values x).2 |}.

End Float64.

(** * Database (lsst.sims.maf.db.database)

    The registry metaclass and the query methods of the base database
    class. [DBObject], sqlalchemy and the file system are outside the
    repository: the connected database is the record [engine], a
    sqlalchemy query is the term of the calls that built it, and a session
    is the class [Session]. *)

Module Database.
Import Stdlib.Strings.Ascii.

(* The default [chunksize], 1000000, stays the application of
   [Nat.of_num_uint] it is parsed to. *)
#[local] Set Warnings "-abstract-large-number".

(** The formatted arguments of the [ValueError] messages of this module,
    and numpy's [ValueError] for a dtype that names a field twice and for
    a row that does not fit the dtype. *)
Inductive value_error : Type :=
| TableNotRecognized (tableName : option string)
| TableNotAvailable (tablename : string)
| ColumnNotAvailable (col tablename : string)
| GroupByNotAvailable (groupBy tablename : string)
| FieldOccursTwice
| RecordMismatch.

Inductive exn : Type :=
| ValueError (why : value_error)
| IOError (database : string)
| KeyError (key : string)
| TypeError
| UnboundLocalError
| Exception (databasename : string)
| SQLAlchemyError.

Inductive outcome (A : Type) : Type :=
| Return (a : A)
| Raises (e : exn).
Arguments Return {A} a.
Arguments Raises {A} e.

#[global] Instance outcome_ret : MRet outcome := λ A a, Return a.
#[global] Instance outcome_bind : MBind outcome := λ A B f m,
  match m with
  | Return a => f a
  | Raises e => Raises e
  end.

(** [for x in xs: st = body(st, x)], stopping at the first exception. *)
Fixpoint each {S A} (body : S → A → outcome S) (st : S) (xs : list A)
  : outcome S :=
  match xs with
  | [] => Return st
  | x :: xs' => st' ← body st x; each body st' xs'
  end.

(** [d[key]] on a dict with string keys. *)
Definition getitem {A} (d : gmap string A) (key : string) : outcome A :=
  match d !! key with
  | Some a => Return a
  | None => Raises (KeyError key)
  end.

(** ** [DatabaseRegistry] *)

(** [s.split('.')]: the pieces between the dots, at least one. *)
Fixpoint split_dot (s : string) : list string :=
  match s with
  | EmptyString => [EmptyString]
  | String c s' =>
      if Ascii.eqb c "."%char then EmptyString :: split_dot s'
      else match split_dot s' with
           | piece :: pieces => String c piece :: pieces
           | [] => [String c EmptyString]
           end
  end.

(** ['.'.join(pieces)]. *)
Fixpoint join_dot (pieces : list string) : string :=
  match pieces with
  | [] => EmptyString
  | [piece] => piece
  | piece :: pieces' => piece +:+ "." +:+ join_dot pieces'
  end.

(** The key [DatabaseRegistry.__init__] computes for the class [name] of
    the module [module] ([inspect.getmodule(cls).__name__]). *)
Definition databasename (module name : string) : string :=
  let modname := module +:+ "." in
  let modname :=
    if String.prefix "lsst.sims.maf.db" modname then EmptyString
    else if bool_decide (1 < length (split_dot modname))
         then join_dot (removelast (split_dot modname)) +:+ "."
         else modname +:+ "." in
  modname +:+ name.

(** [DatabaseRegistry.__init__(cls, name, bases, dict)] on the registry
    shared by the classes of the metaclass; [None] before the first class
    ([hasattr(cls, 'registry')] is false). *)
Definition registry_init {C} (registry : option (gmap string C))
    (module name : string) (cls : C) : outcome (gmap string C) :=
  let registry := default ∅ registry in
  let databasename := databasename module name in
  if bool_decide (is_Some (registry !! databasename)) then
    Raises (Exception databasename)
  else if bool_decide (databasename ∉ ["BaseDatabase"]) then
    Return (<[databasename := cls]> registry)
  else Return registry.

(** [DatabaseRegistry.getClass(cls, databasename)] *)
Definition getClass {C} (registry : gmap string C) (databasename : string)
  : outcome C :=
  getitem registry databasename.

(** ** [Database] *)

(** The second component of an entry of [dbTypeMap]: a Python type and,
    for strings, a width. *)
Inductive np_type : Type :=
| NpInt
| NpBool
| NpFloat
| NpStr (width : nat).

(** A sqlalchemy [Table]: the [__visit_name__] of the type of each of its
    columns. *)
Definition Table : Type := gmap string string.

(** What the reflection of the connected database returns. *)
Record engine : Type := {
  get_table_names : list string;
  get_view_names : list string;
  get_columns : string → list string;
  autoload : string → Table;
}.

Record Database : Type := {
  dbTypeMap : gmap string np_type;
  tableNames : list string;
  columnNames : gmap string (list string);
  tables : gmap string Table;
  defaultTable : option string;
}.

Definition shortstrings : gmap string np_type :=
  list_to_map
    [("BIGINT", NpInt); ("BOOLEAN", NpBool); ("FLOAT", NpFloat);
     ("INTEGER", NpInt); ("NUMERIC", NpFloat); ("SMALLINT", NpInt);
     ("TINYINT", NpInt); ("VARCHAR", NpStr 256); ("TEXT", NpStr 256);
     ("CLOB", NpStr 256); ("NVARCHAR", NpStr 256); ("NCLOB", NpStr 256);
     ("NTEXT", NpStr 256); ("CHAR", NpStr 1); ("INT", NpInt);
     ("REAL", NpFloat); ("DOUBLE", NpFloat); ("STRING", NpStr 256);
     ("DOUBLE_PRECISION", NpFloat); ("DECIMAL", NpFloat);
     ("DATETIME", NpStr 50)].

Definition typeOverRide : gmap string np_type :=
  list_to_map
    [("VARCHAR", NpStr 1024); ("NVARCHAR", NpStr 1024); ("TEXT", NpStr 1024);
     ("CLOB", NpStr 1024); ("STRING", NpStr 1024)].

(** [Database.__init__(database, driver, ..., defaultTable, longstrings)]
    on a database whose file exists or not ([os.path.isfile(database)])
    and whose connection reflects as [db]. *)
Definition __init__ (isfile : bool) (db : engine) (database driver : string)
    (defaultTable : option string) (longstrings : bool) : outcome Database :=
  if bool_decide (driver = "sqlite") && negb isfile then
    Raises (IOError database)
  else
    let dbTypeMap :=
      if longstrings then typeOverRide ∪ shortstrings else shortstrings in
    let tableNames := get_table_names db ++ get_view_names db in
    let columnNames :=
      foldl (λ names t, <[t := get_columns db t]> names) ∅ tableNames in
    let tables :=
      foldl (λ tables t, <[t := autoload db t]> tables) ∅ tableNames in
    let defaultTable :=
      match defaultTable, tableNames with
      | None, [t] => Some t
      | _, _ => defaultTable
      end in
    Return {| dbTypeMap := dbTypeMap; tableNames := tableNames;
              columnNames := columnNames; tables := tables;
              defaultTable := defaultTable |}.

(** A sqlalchemy query, as the calls that built it. *)
Inductive query : Type :=
| Query (col : string)
| AddColumns (q : query) (col : string)
| SelectFrom (q : query) (table : Table)
| Filter (q : query) (text : string)
| GroupBy (q : query) (col : string)
| Limit (q : query) (numLimit : nat).

(** The columns a query selects, in order. *)
Fixpoint selected (q : query) : list string :=
  match q with
  | Query col => [col]
  | AddColumns q col => selected q ++ [col]
  | SelectFrom q _ | Filter q _ | GroupBy q _ | Limit q _ => selected q
  end.

(** [_build_query(tablename, colnames, sqlconstraint, groupBy, numLimit)] *)
Definition _build_query (self : Database) (tablename : string)
    (colnames : option (list string)) (sqlconstraint groupBy : option string)
    (numLimit : option nat) : outcome query :=
  if bool_decide (tables self !! tablename = None) then
    Raises (ValueError (TableNotAvailable tablename))
  else
    colnames ←
      match colnames with
      | None => getitem (columnNames self) tablename
      | Some colnames =>
          each (λ _ col,
                  available ← getitem (columnNames self) tablename;
                  if bool_decide (col ∈ available) then Return ()
                  else Raises (ValueError (ColumnNotAvailable col tablename)))
               () colnames;;
          match groupBy with
          | Some groupBy =>
              available ← getitem (columnNames self) tablename;
              if bool_decide (groupBy ∈ available) then Return ()
              else Raises (ValueError (GroupByNotAvailable groupBy tablename))
          | None => Return ()
          end;;
          Return colnames
      end;
    (* [query] is unbound until the first turn of the loop *)
    query ← each (λ (query : option query) col,
                    if bool_decide (Some col = head colnames) then
                      Return (Some (Query col))
                    else
                      match query with
                      | Some query => Return (Some (AddColumns query col))
                      | None => Raises UnboundLocalError
                      end) None colnames;
    query ← match query with
            | Some query => Return query
            | None => Raises UnboundLocalError
            end;
    table ← getitem (tables self) tablename;
    let query := SelectFrom query table in
    let query :=
      match sqlconstraint with
      | Some sqlconstraint =>
          if bool_decide (0 < String.length sqlconstraint)
          then Filter query sqlconstraint else query
      | None => query
      end in
    let query :=
      match groupBy with
      | Some groupBy => GroupBy query groupBy
      | None => query
      end in
    let query :=
      match numLimit with
      | Some numLimit => Limit query numLimit
      | None => query
      end in
    Return query.

(** The session of the connection and numpy's conversion of a row, both
    outside the repository. [execute] yields the rows of a query, or raises
    when the database rejects it (an exception of sqlalchemy, all of them
    [SQLAlchemyError] here); [fromrecord] is the conversion of one row by
    [np.rec.fromrecords], which raises on a value that does not fit the
    dtype. *)
Class Session : Type := {
  row : Type;
  record : Type;
  execute : query → outcome (list row);
  fromrecord : list (string * np_type) → row → outcome record;
}.

(** A numpy recarray: its dtype and its records. *)
Record recarray `{Session} : Type := {
  dtype : list (string * np_type);
  records : list record;
}.

(** [np.dtype(dtype)], which [np.recarray] and [np.rec.fromrecords] call
    first: a field name that occurs twice is a [ValueError]. *)
Definition np_dtype (dtype : list (string * np_type))
  : outcome (list (string * np_type)) :=
  if bool_decide (NoDup dtype.*1) then Return dtype
  else Raises (ValueError FieldOccursTwice).

(** [_convert_results(results, dtype)] *)
Definition _convert_results `{Session} (results : list row)
    (dtype : list (string * np_type)) : outcome recarray :=
  if bool_decide (length results = 0) then
    dtype ← np_dtype dtype;
    Return {| dtype := dtype; records := [] |}
  else
    dtype ← np_dtype dtype;
    records ← mapM (fromrecord dtype) results;
    Return {| dtype := dtype; records := records |}.

(** [np.hstack(chunks)] on a non-empty list of recarrays of one dtype. *)
Definition hstack `{Session} (first : recarray) (chunks : list recarray)
  : recarray :=
  {| dtype := dtype first;
     records := records first ++ mjoin (records <$> chunks) |}.

(** The [while len(results) > 0] loop of [query_columns]; [cursor] holds
    the rows not fetched yet. Every turn fetches at least one row, so
    [fuel] = the number of rows of the query is never used up. *)
Fixpoint fetch_loop `{Session} (fuel chunksize : nat) (results cursor : list row)
    (dtype : list (string * np_type)) (chunks : list recarray)
  : outcome (list recarray) :=
  match results, fuel with
  | [], _ | _, 0 => Return chunks
  | _, S fuel =>
      chunk ← _convert_results results dtype;
      fetch_loop fuel chunksize (take chunksize cursor) (drop chunksize cursor)
        dtype (chunks ++ [chunk])
  end.

(** [query_columns(tablename, colnames, sqlconstraint, groupBy, numLimit,
    chunksize)]; a negative [chunksize] is outside the model. *)
Definition query_columns `{Session} (self : Database) (tablename : string)
    (colnames : option (list string)) (sqlconstraint groupBy : option string)
    (numLimit chunksize : option nat) : outcome recarray :=
  query ← _build_query self tablename colnames sqlconstraint groupBy numLimit;
  colnames ← match colnames with
             | Some colnames => Return colnames
             | None => Raises TypeError
             end;
  dtype ← each (λ dtype col,
                  table ← getitem (tables self) tablename;
                  visit_name ← getitem table col;
                  dt ← getitem (dbTypeMap self) visit_name;
                  Return (dtype ++ [(col, dt)])) [] colnames;
  exec_query ← execute query;
  if bool_decide (chunksize = None ∨ chunksize = Some 0) then
    _convert_results exec_query dtype
  else
    let chunksize := default 0 chunksize in
    chunks ← fetch_loop (length exec_query) chunksize
               (take chunksize exec_query) (drop chunksize exec_query)
               dtype [];
    match chunks with
    | [] =>
        dtype ← np_dtype dtype;
        Return {| dtype := dtype; records := [] |}
    | first :: chunks => Return (hstack first chunks)
    end.

(** [fetchMetricData(colnames, sqlconstraint, groupBy, tableName)] *)
Definition fetchMetricData `{Session} (self : Database)
    (colnames : option (list string)) (sqlconstraint groupBy : option string)
    (tableName : option string) : outcome recarray :=
  let tableName :=
    match tableName with
    | None => defaultTable self
    | Some _ => tableName
    end in
  let groupBy := if bool_decide (groupBy = Some "default") then None
                 else groupBy in
  match tableName with
  | Some name =>
      if bool_decide (name ∈ tableNames self) then
        query_columns self name colnames sqlconstraint groupBy None
          (Some 1000000)
      else Raises (ValueError (TableNotRecognized tableName))
  | None => Raises (ValueError (TableNotRecognized tableName))
  end.

(** ** Vocabulary of the properties *)

(** A root class and the classes that derive from it, in the order their
    [class] statements run: the module, the name and the class object of
    each. The root has no attribute [registry] when it is created; every
    class that derives from it finds the root's by inheritance, and the
    dict is shared. A class that derives from no class of the metaclass is
    the root of a hierarchy and a registry of its own. *)
Definition define_hierarchy {C} (root : string * string * C)
    (subclasses : list (string * string * C)) : outcome (gmap string C) :=
  registry ← registry_init None root.1.1 root.1.2 root.2;
  each (λ registry '(module, name, cls),
          registry_init (Some registry) module name cls) registry subclasses.

(** The numpy type [query_columns] looks up for a column. *)
Definition column_type (self : Database) (tablename col : string)
  : option np_type :=
  table ← tables self !! tablename;
  visit_name ← table !! col;
  dbTypeMap self !! visit_name.

(** ** A small database *)

Definition demo_engine : engine :=
  {| get_table_names := ["Summary"];
     get_view_names := [];
     get_columns := λ t,
       if bool_decide (t = "Summary") then ["obsHistID"; "night"; "filter"]
       else [];
     autoload := λ t,
       if bool_decide (t = "Summary")
       then list_to_map [("obsHistID", "INTEGER"); ("night", "INTEGER");
                         ("filter", "VARCHAR")]
       else ∅ |}.

Definition demo_rows : list (gmap string Z) :=
  list_to_map <$>
    [[("obsHistID", 1%Z); ("night", 1%Z); ("filter", 0%Z)];
     [("obsHistID", 2%Z); ("night", 1%Z); ("filter", 1%Z)];
     [("obsHistID", 3%Z); ("night", 2%Z); ("filter", 0%Z)]].

(** The rows of [demo_rows] a query asks for, for the queries of the
    examples: no constraint or the constraint [night = 1], with or without
    a limit. Every other query is rejected. *)
Fixpoint demo_answer (q : query) : outcome (list (gmap string Z)) :=
  match q with
  | Query _ | AddColumns _ _ => Return demo_rows
  | SelectFrom q _ => demo_answer q
  | Filter q text =>
      rows ← demo_answer q;
      if bool_decide (text = "night = 1")
      then Return (filter (λ r, r !! "night" = Some 1%Z) rows)
      else Raises SQLAlchemyError
  | GroupBy _ _ => Raises SQLAlchemyError
  | Limit q numLimit => rows ← demo_answer q; Return (take numLimit rows)
  end.

(** A stand-in for the session of the small database and for numpy: the
    rows are projected on the selected columns, and a row converts when
    it has one value for each field. *)
Definition demo_session : Session :=
  {| row := list Z;
     record := list (string * Z);
     execute := λ q,
       rows ← demo_answer q;
       match mapM (λ r, mapM (λ col, r !! col) (selected q)) rows with
       | Some rows => Return rows
       | None => Raises SQLAlchemyError
       end;
     fromrecord := λ dtype r,
       if bool_decide (length r = length dtype) then Return (zip dtype.*1 r)
       else Raises (ValueError RecordMismatch) |}.

Definition demo_database : Database :=
  {| dbTypeMap := shortstrings;
     tableNames := ["Summary"];
     columnNames :=
       {["Summary" := ["obsHistID"; "night"; "filter"]]};
     tables := {["Summary" := autoload demo_engine "Summary"]};
     defaultTable := Some "Summary" |}.

Definition demo_long_database : Database :=
  {| dbTypeMap := typeOverRide ∪ shortstrings;
     tableNames := tableNames demo_database;
     columnNames := columnNames demo_database;
     tables := tables demo_database;
     defaultTable := defaultTable demo_database |}.

(** The class of this module and classes that derive from it: a base
    class, a second class of that name and a class of the root's name in a
    user's module. *)
Definition demo_root : string * string * nat :=
  ("lsst.sims.maf.db.database", "Database", 0).

Definition demo_subclasses : list (string * string * nat) :=
  [("lsst.sims.maf.db.opsimDatabase", "BaseDatabase", 1);
   ("lsst.sims.maf.db.opsimDatabase", "OpsimDatabase", 2);
   ("lsst.sims.maf.db.resultsDb", "BaseDatabase", 3);
   ("myproject.db", "Database", 4)].

(** What [_build_query] returns for the columns [night], [filter], [night],
    [obsHistID] of the table [Summary]. *)
Definition demo_built_query : query :=
  SelectFrom (AddColumns (Query "night") "obsHistID")
    (autoload demo_engine "Summary").

End Database.

(** ** The result monad *)

Lemma bind_Ok {A B} (m : result A) (f : A → result B) (b : B) :
  m ≫= f = Ok b → ∃ a, m = Ok a ∧ f a = Ok b.
Proof. destruct m as [a|e]; simpl; [eauto | discriminate]. Qed.

(** Break a successful monadic computation into its successful steps. *)
Ltac inv_ok :=
  repeat match goal with
    | H : Ok _ = Ok _ |- _ => injection H as H; try subst
    | H : Raise _ = Ok _ |- _ => discriminate H
    | H : mret ?x = Ok _ |- _ => change (mret x) with (Ok x) in H
    | H : _ ≫= _ = Ok _ |- _ =>
        let a := fresh "a" in
        let Ha := fresh "Ha" in
        apply bind_Ok in H as (a & Ha & H)
    end.

Tactic Notation "inv_bind" hyp(H) "as" ident(x) ident(Hx) :=
  apply bind_Ok in H as (x & Hx & H).

(** ** Coordinate transforms *)

Section Transforms.
Context {clib : Float64.Libm}.
Local Open Scope R_scope.

Lemma _setRad_chord (radius : R) :
  _setRad radius = sqrt (2 - 2 * cos (radians radius)).
Proof.
  unfold _setRad, _treexyz. rewrite cos_0, sin_0. f_equal.
  pose proof (sin2_cos2 (radians radius)) as H. unfold Rsqr in H. nra.
Qed.

Lemma radians_range (r : R) : 0 < r → r < 180 → 0 < radians r < PI.
Proof.
  intros H0 H1. unfold radians. pose proof PI_RGT_0 as Hpi. split.
  - apply Rmult_lt_0_compat; lra.
  - replace PI with (180 * (PI / 180)) at 2 by lra.
    apply Rmult_lt_compat_r; lra.
Qed.

Lemma radians_lt (r1 r2 : R) : r1 < r2 → radians r1 < radians r2.
Proof.
  intros Hlt. unfold radians. pose proof PI_RGT_0.
  apply Rmult_lt_compat_r; lra.
Qed.

Lemma _setRad_nonneg (radius : R) : 0 <= _setRad radius.
Proof. rewrite _setRad_chord. apply sqrt_pos. Qed.

Lemma dist_self (p : point) : dist p p = 0.
Proof.
  unfold dist. rewrite <- sqrt_0 at 1. f_equal. ring.
Qed.


Lemma setRad_exact (r1 r2 : R) :
  0 < r1 → r1 < r2 → r2 < 180 → _setRad r1 < _setRad r2.
Proof.
  intros H0 H12 H180. rewrite !_setRad_chord.
  destruct (radians_range r1) as [Ha1 Hb1]; [lra..|].
  destruct (radians_range r2) as [Ha2 Hb2]; [lra..|].
  pose proof (radians_lt r1 r2 H12) as Hlt.
  assert (cos (radians r2) < cos (radians r1)) as Hcos
    by (apply cos_decreasing_1; lra).
  pose proof (COS_bound (radians r1)) as [_ Hc1].
  apply sqrt_lt_1; lra.
Qed.

(** C7: the chord radius of 0 degrees is 0, in double precision (where
    the library's cosine and sine of 0 are 1 and 0) and in exact
    arithmetic; in exact arithmetic the chord radius is strictly
    increasing in the angular radius over (0, 180) degrees. *)
Theorem setRad_zero_and_increasing :
  (Float64.np_cos 0 = 1%float → Float64.np_sin 0 = 0%float →
   Float64._setRad 0 = 0%float) ∧
  _setRad 0 = 0 ∧
  ∀ r1 r2 : R, 0 < r1 → r1 < r2 → r2 < 180 → _setRad r1 < _setRad r2.
Proof.
  split; [|split].
  - intros Hcos Hsin. unfold Float64._setRad, Float64._treexyz.
    change (Float64.radians 0) with 0%float. by rewrite Hcos, Hsin.
  - rewrite _setRad_chord. unfold radians. rewrite Rmult_0_l, cos_0.
    replace (2 - 2 * 1) with 0 by ring. apply sqrt_0.
  - apply setRad_exact.
Qed.

End Transforms.

(** ** The transforms on the values of the C library *)

(** At 0 degrees the chord radius is 0.0, and the exact chord radius of 1
    degree is below that of 2 degrees. *)
Lemma setRad_increasing_witness :
  @Float64._setRad Float64.libm 0 = 0%float ∧ (_setRad 1 < _setRad 2)%R.
Proof.
  destruct (@setRad_zero_and_increasing Float64.libm) as (Hzero & _ & Hinc).
  split; [by apply Hzero|]. apply Hinc; lra.
Defined.

(** In double precision the chord radius is not strictly increasing:
    179.99999999 and 179.999999995 degrees both give 2.0. *)
Lemma setRad_saturates_counterexample :
  (0 <? 179.99999999)%float = true ∧
  (179.99999999 <? 179.999999995)%float = true ∧
  (179.999999995 <? 180)%float = true ∧
  @Float64._setRad Float64.libm 179.99999999 = 2%float ∧
  @Float64._setRad Float64.libm 179.999999995 = 2%float ∧
  (@Float64._setRad Float64.libm 179.99999999
   <? @Float64._setRad Float64.libm 179.999999995)%float = false.
Proof. repeat split; reflexivity. Qed.


(** ** Index construction: [_buildTree] *)

Section BuildTree.
Context `{Externals}.
Local Open Scope R_scope.

Lemma any_abs_gt_2pi_true (a : list R) :
  any_abs_gt_2pi a = true ↔ ∃ v, v ∈ a ∧ Rabs v > 2 * PI.
Proof.
  unfold any_abs_gt_2pi. rewrite existsb_exists. split.
  - intros (v & Hin & Hv). exists v. rewrite list_elem_of_In.
    apply bool_decide_eq_true in Hv. split; [done | lra].
  - intros (v & Hin & Hv). exists v. rewrite <- list_elem_of_In.
    split; [done|]. apply bool_decide_eq_true. lra.
Qed.

Lemma Rabs_le_iff (v b : R) : Rabs v <= b ↔ - b <= v <= b.
Proof. unfold Rabs. destruct (Rcase_abs v); lra. Qed.

Lemma any_abs_gt_2pi_false (a : list R) :
  any_abs_gt_2pi a = false ↔ ∀ v, v ∈ a → - (2 * PI) <= v <= 2 * PI.
Proof.
  rewrite <- not_true_iff_false, any_abs_gt_2pi_true. split.
  - intros Hno v Hin. apply Rabs_le_iff.
    destruct (Rle_dec (Rabs v) (2 * PI)) as [|Hgt]; [done|].
    exfalso. apply Hno. exists v. split; [done | lra].
  - intros Hall (v & Hin & Hv). apply Hall, Rabs_le_iff in Hin. lra.
Qed.

Lemma np_mul_same_length (xs ys : list R) :
  length xs = length ys → np_mul xs ys = Ok (zip_with Rmult xs ys).
Proof. intros Hlen. unfold np_mul. by rewrite decide_True. Qed.

Lemma zip_xyz (ra dec : list R) :
  zip_with (λ x yz, (x, yz.1, yz.2))
    (zip_with Rmult (cos <$> dec) (cos <$> ra))
    (zip (zip_with Rmult (cos <$> dec) (sin <$> ra)) (sin <$> dec))
  = sky_points ra dec.
Proof.
  unfold sky_points. revert dec.
  induction ra as [|r ra IH]; intros [|d dec]; simpl; try done.
  by rewrite IH.
Qed.

Lemma _buildTree_in_range (ra dec : list R) (leaf : nat) :
  any_abs_gt_2pi ra = false → any_abs_gt_2pi dec = false →
  length ra = length dec → ra ≠ [] →
  _buildTree ra dec leaf = Ok (kdtree (sky_points ra dec) leaf).
Proof.
  intros Hra Hdec Hlen Hne. unfold _buildTree, _treexyz_arr.
  rewrite Hra, Hdec. simpl.
  rewrite !np_mul_same_length by (by rewrite !length_fmap). simpl.
  rewrite zip_xyz. rewrite bool_decide_true; [done|].
  unfold sky_points. rewrite length_fmap, length_zip, <- Hlen.
  destruct ra; [done | simpl; lia].
Qed.

Lemma _buildTree_empty (leaf : nat) :
  _buildTree [] [] leaf
  = Raise (ValueError "SimDataRA and Dec should have length greater than 0.").
Proof. reflexivity. Qed.

(** C8: index construction fails with the radians error as soon as one
    longitude or latitude has absolute value above 2 pi, and the range
    check rejects no point set whose values all lie in [-2 pi, 2 pi]: it
    does not raise the radians error, and builds the tree when the two
    columns are non-empty and of equal length. *)
Theorem buildTree_range_check (ra dec : list R) (leaf : nat) :
  ((∃ v, (v ∈ ra ∨ v ∈ dec) ∧ Rabs v > 2 * PI) →
   _buildTree ra dec leaf
   = Raise (ValueError "Expecting RA and Dec values to be in radians.")) ∧
  ((∀ v, v ∈ ra ∨ v ∈ dec → - (2 * PI) <= v <= 2 * PI) →
   _buildTree ra dec leaf
   ≠ Raise (ValueError "Expecting RA and Dec values to be in radians.") ∧
   (length ra = length dec → ra ≠ [] →
    ∃ tree, _buildTree ra dec leaf = Ok tree)).
Proof.
  split.
  - intros (v & [Hin|Hin] & Hv); unfold _buildTree.
    + assert (any_abs_gt_2pi ra = true) as ->
        by (apply any_abs_gt_2pi_true; eauto).
      done.
    + assert (any_abs_gt_2pi dec = true) as ->
        by (apply any_abs_gt_2pi_true; eauto).
      by rewrite orb_true_r.
  - intros Hall.
    assert (any_abs_gt_2pi ra = false) as Hra
      by (apply any_abs_gt_2pi_false; auto).
    assert (any_abs_gt_2pi dec = false) as Hdec
      by (apply any_abs_gt_2pi_false; auto).
    split.
    + unfold _buildTree. rewrite Hra, Hdec. simpl.
      destruct (_treexyz_arr ra dec) as [[[x y] z]|e] eqn:Hxyz; simpl.
      * case_bool_decide; discriminate.
      * unfold _treexyz_arr in Hxyz.
        destruct (np_mul (cos <$> dec) (cos <$> ra)) as [?|e1] eqn:H1;
          simpl in Hxyz.
        -- destruct (np_mul (cos <$> dec) (sin <$> ra)) as [?|e2] eqn:H2;
             simpl in Hxyz; [discriminate|].
           unfold np_mul in H2.
           repeat (case_match; try discriminate); congruence.
        -- unfold np_mul in H1.
           repeat (case_match; try discriminate); congruence.
    + intros Hlen Hne. eexists. by apply _buildTree_in_range.
Qed.

End BuildTree.

(** ** Loops and numpy indexing *)

Section Containers.
Context {A : Type}.
Implicit Types (arr : list A) (idx : list nat) (tbl : list (list A)).

(** A loop invariant indexed by the number of turns done. *)
Lemma for_each_invariant {S B} (body : S → B → result S)
    (P : nat → S → Prop) (xs : list B) (st st' : S) :
  P 0 st →
  (∀ k x st1 st2,
     xs !! k = Some x → P k st1 → body st1 x = Ok st2 → P (Datatypes.S k) st2) →
  for_each body st xs = Ok st' →
  P (length xs) st'.
Proof.
  revert P st. induction xs as [|x xs IH]; intros P st H0 Hstep Hrun.
  - simpl in Hrun. by inv_ok.
  - simpl in Hrun. inv_ok.
    apply (IH (λ k, P (Datatypes.S k)) a); [|intros k y ????|done].
    + by apply (Hstep 0 x st a).
    + by apply (Hstep (Datatypes.S k) y st1 st2).
Qed.

Lemma where_from_elem (k : nat) (mask : list bool) (i : nat) :
  i ∈ where_from k mask ↔ k ≤ i ∧ mask !! (i - k) = Some true.
Proof.
  revert k. induction mask as [|b mask IH]; intros k; simpl.
  - rewrite elem_of_nil. naive_solver.
  - rewrite elem_of_app, IH. destruct (decide (i = k)) as [->|Hne].
    + replace (k - k) with 0 by lia. simpl. destruct b.
      * rewrite list_elem_of_singleton. naive_solver lia.
      * rewrite elem_of_nil. naive_solver lia.
    + split.
      * intros [Hin|[Hle Hi]].
        -- destruct b; [apply list_elem_of_singleton in Hin; lia|].
           by apply elem_of_nil in Hin.
        -- split; [lia|].
           replace (i - k) with (Datatypes.S (i - Datatypes.S k)) by lia.
           done.
      * intros [Hle Hi]. right. split; [lia|].
        replace (i - k) with (Datatypes.S (i - Datatypes.S k)) in Hi by lia.
        done.
Qed.

Lemma where_from_sorted (k : nat) (mask : list bool) :
  StronglySorted lt (where_from k mask).
Proof.
  revert k. induction mask as [|b mask IH]; intros k; simpl.
  - constructor.
  - apply StronglySorted_app_2; [| |apply IH].
    + intros x1 x2 Hx1 Hx2. apply where_from_elem in Hx2 as [Hle _].
      destruct b; [apply list_elem_of_singleton in Hx1; lia|].
      by apply elem_of_nil in Hx1.
    + destruct b; repeat constructor.
Qed.

Lemma StronglySorted_lt_NoDup (l : list nat) :
  StronglySorted lt l → NoDup l.
Proof.
  induction 1 as [|x l Hs IH Hall]; constructor; [|done].
  intros Hin. rewrite Forall_forall in Hall. apply Hall in Hin. lia.
Qed.

Lemma np_where_NoDup (mask : list bool) : NoDup (np_where mask).
Proof. apply StronglySorted_lt_NoDup, where_from_sorted. Qed.

Lemma np_where_elem (mask : list bool) (i : nat) :
  i ∈ np_where mask ↔ mask !! i = Some true.
Proof.
  unfold np_where. rewrite where_from_elem.
  replace (i - 0) with i by lia. naive_solver lia.
Qed.

Lemma np_take_Forall2 arr idx (out : list A) :
  np_take arr idx = Ok out → Forall2 (λ i x, arr !! i = Some x) idx out.
Proof.
  unfold np_take. revert out.
  induction idx as [|i idx IH]; intros out Htake; simpl in Htake.
  - inv_ok. constructor.
  - inv_ok. destruct (arr !! i) as [x|] eqn:Hi; [|discriminate].
    inv_ok. constructor; [done | by apply IH].
Qed.

Lemma np_take_in_bounds arr idx :
  Forall (λ i, i < length arr) idx → ∃ out, np_take arr idx = Ok out.
Proof.
  unfold np_take. induction 1 as [|i idx Hi _ [out IH]]; simpl.
  - by eexists.
  - apply lookup_lt_is_Some_2 in Hi as [x ->]. simpl.
    rewrite IH. simpl. by eexists.
Qed.

Lemma np_take_length arr idx (out : list A) :
  np_take arr idx = Ok out → length out = length idx.
Proof. intros Htake. symmetry. by eapply Forall2_length, np_take_Forall2. Qed.

(** Selecting distinct positions of a duplicate-free array gives a
    duplicate-free array. *)
Lemma np_take_NoDup arr idx (out : list A) :
  np_take arr idx = Ok out → NoDup arr → NoDup idx → NoDup out.
Proof.
  intros Htake Harr Hidx. apply np_take_Forall2 in Htake.
  induction Htake as [|i x idx out Hi Hrest IH]; [constructor|].
  apply NoDup_cons in Hidx as [Hni Hidx]. constructor; [|by apply IH].
  intros Hin. apply list_elem_of_lookup in Hin as [j Hj].
  destruct (Forall2_lookup_r _ _ _ _ _ Hrest Hj) as (i' & Hi' & Hx).
  assert (i = i') as -> by (by apply (NoDup_lookup arr i i' x)).
  apply Hni. by eapply list_elem_of_lookup_2.
Qed.

Lemma np_take_elem arr idx (out : list A) (x : A) :
  np_take arr idx = Ok out → x ∈ out → ∃ i, i ∈ idx ∧ arr !! i = Some x.
Proof.
  intros Htake Hin. apply np_take_Forall2 in Htake.
  apply list_elem_of_lookup in Hin as [j Hj].
  destruct (Forall2_lookup_r _ _ _ _ _ Htake Hj) as (i & Hi & Hx).
  exists i. split; [by eapply list_elem_of_lookup_2 | done].
Qed.

Lemma append_at_lookup tbl (i : nat) (x : A) tbl' (j : nat) :
  append_at tbl i x = Ok tbl' →
  tbl' !! j = (λ entry, if decide (i = j) then entry ++ [x] else entry)
                <$> tbl !! j.
Proof.
  unfold append_at. destruct (tbl !! i) eqn:Hi; [|discriminate].
  intros [= <-]. destruct (decide (i = j)) as [->|Hne].
  - by rewrite list_lookup_alter_eq.
  - rewrite list_lookup_alter_ne by done. by destruct (tbl !! j).
Qed.

Lemma append_at_length tbl (i : nat) (x : A) tbl' :
  append_at tbl i x = Ok tbl' → length tbl' = length tbl ∧ i < length tbl.
Proof.
  unfold append_at. destruct (tbl !! i) eqn:Hi; [|discriminate].
  intros [= <-]. rewrite length_alter. split; [done|].
  by eapply lookup_lt_Some.
Qed.

Lemma append_at_in_bounds tbl (i : nat) (x : A) :
  i < length tbl → ∃ tbl', append_at tbl i x = Ok tbl'.
Proof.
  intros Hi. unfold append_at.
  apply lookup_lt_is_Some_2 in Hi as [e ->]. by eexists.
Qed.

Lemma np_where_in_bounds (mask : list bool) :
  Forall (λ i, i < length mask) (np_where mask).
Proof.
  apply Forall_forall. intros i Hi%np_where_elem. by eapply lookup_lt_Some.
Qed.

(** A loop whose body cannot raise while [P] holds runs to its end. *)
Lemma for_each_total {S B} (body : S → B → result S) (P : S → Prop)
    (xs : list B) (st : S) :
  P st →
  (∀ st x, P st → x ∈ xs → ∃ st', body st x = Ok st' ∧ P st') →
  ∃ st', for_each body st xs = Ok st' ∧ P st'.
Proof.
  revert st. induction xs as [|x xs IH]; intros st Hst Hbody; simpl.
  - by exists st.
  - destruct (Hbody st x Hst) as (st1 & -> & Hst1); [left|]. simpl.
    apply IH; [done|]. intros st2 y Hst2 Hy. apply Hbody; [done | by right].
Qed.

End Containers.

(** ** The footprint lookup table: [_presliceFootprint] *)

Section Footprint.
Context `{Externals}.
Implicit Types (s : slicer) (hits : list (nat * chipName))
  (tables : list (list nat) * list (list chipName)).

Lemma np_take_where_mask {B} (P : B → bool) (arr out : list B) (x : B) :
  np_take arr (np_where (P <$> arr)) = Ok out → x ∈ out → P x = true.
Proof.
  intros Htake Hin.
  destruct (np_take_elem _ _ _ _ Htake Hin) as (i & Hi & Hx).
  apply np_where_elem in Hi. rewrite list_lookup_fmap, Hx in Hi.
  by injection Hi.
Qed.

(** The stages of one turn of the loop over the pointings. *)
Lemma pointing_hits_stages s slice_ra slice_dec ra dec rot mjd hits :
  pointing_hits s slice_ra slice_dec ra dec rot mjd = Ok hits →
  hits = [] ∨
  ∃ tree r (names0 names1 onChipNames : list chipName)
    (hpIndices1 hpOnChip : list nat),
    let hpIndices0 := query_ball_point tree (_treexyz ra dec) r in
    match chipsToUse s with
    | AllChips => names1 = names0 ∧ hpIndices1 = hpIndices0
    | Chips allowed =>
        let checked :=
          (λ c : chipName, match c with
                           | Some name => bool_decide (name ∈ allowed)
                           | None => false
                           end) <$> names0 in
        np_take names0 (np_where checked) = Ok names1 ∧
        np_take hpIndices0 (np_where checked) = Ok hpIndices1
    | ChipArray _ _ _ => False
    end ∧
    let good := np_where ((λ c : chipName, bool_decide (c ≠ None)) <$> names1) in
    np_take hpIndices1 good = Ok hpOnChip ∧
    np_take names1 good = Ok onChipNames ∧
    hits = zip hpOnChip onChipNames.
Proof.
  unfold pointing_hits. simpl. intros Hrun.
  inv_bind Hrun as tree Htree. inv_bind Hrun as r Hr.
  case_bool_decide; [|left; by inv_ok]. right.
  inv_bind Hrun as cand_ra Hcra. inv_bind Hrun as cand_dec Hcdec.
  inv_bind Hrun as e He. inv_bind Hrun as cam Hcam.
  inv_bind Hrun as filtered Hfiltered. destruct filtered as [names1 hp1].
  inv_bind Hrun as hpOnChip HhpOnChip. inv_bind Hrun as onChip HonChip.
  injection Hrun as <-.
  eexists tree, r, _, names1, onChip, hp1, hpOnChip. simpl.
  split; [|done].
  destruct (chipsToUse s) as [|allowed|first second rest].
  - injection Hfiltered as <- <-. done.
  - inv_bind Hfiltered as names' Hnames'. inv_bind Hfiltered as hp' Hhp'.
    injection Hfiltered as <- <-. done.
  - done.
Qed.

(** Every pair a pointing contributes names a detector of the allow-list. *)
Lemma pointing_hits_accepted s slice_ra slice_dec ra dec rot mjd hits :
  pointing_hits s slice_ra slice_dec ra dec rot mjd = Ok hits →
  Forall (λ hit, chip_accepted (chipsToUse s) hit.2) hits.
Proof.
  intros [->|Hstages]%pointing_hits_stages; [constructor|].
  destruct Hstages
    as (tree & r & names0 & names1 & onChip & hp1 & hpOnChip & Hfilter
        & HhpOnChip & HonChip & ->).
  apply Forall_forall. intros [i c] Hin. simpl.
  apply elem_of_zip_r in Hin. simpl in Hin.
  pose proof (np_take_where_mask _ _ _ _ HonChip Hin) as Hc.
  apply bool_decide_eq_true in Hc. split; [done|].
  intros allowed Hallowed.
  destruct (chipsToUse s) as [|allowed'|first second rest]; [done| |done].
  injection Hallowed as ->. destruct Hfilter as [Hnames1 _].
  destruct (np_take_elem _ _ _ _ HonChip Hin) as (j & _ & Hj).
  apply list_elem_of_lookup_2 in Hj.
  pose proof (np_take_where_mask _ _ _ _ Hnames1 Hj) as Hcheck.
  destruct c as [name|]; [|done]. exists name. split; [done|].
  by apply bool_decide_eq_true in Hcheck.
Qed.

(** A pointing contributes each slice point at most once when the ball
    query returns each indexed point at most once. *)
Lemma pointing_hits_NoDup s slice_ra slice_dec ra dec rot mjd hits :
  (∀ tree center r, NoDup (query_ball_point tree center r)) →
  pointing_hits s slice_ra slice_dec ra dec rot mjd = Ok hits →
  NoDup hits.*1.
Proof.
  intros Hquery [->|Hstages]%pointing_hits_stages; [constructor|].
  destruct Hstages
    as (tree & r & names0 & names1 & onChip & hp1 & hpOnChip & Hfilter
        & HhpOnChip & HonChip & ->).
  rewrite fst_zip
    by (by rewrite (np_take_length _ _ _ HhpOnChip),
             (np_take_length _ _ _ HonChip)).
  eapply np_take_NoDup; [done| |apply np_where_NoDup].
  destruct (chipsToUse s); [destruct Hfilter as [Hn Hh]..|done].
  - by subst.
  - eapply np_take_NoDup; [done|done|apply np_where_NoDup].
Qed.

(** The effect of the inner loop on every entry of the two tables. *)
Lemma record_hits_lookup (ind : nat) tables hits tables' :
  record_hits ind tables hits = Ok tables' →
  length tables'.1 = length tables.1 ∧
  length tables'.2 = length tables.2 ∧
  ∀ i,
    tables'.1 !! i
    = (λ entry,
         entry ++ replicate (length (filter (λ hit, hit.1 = i) hits)) ind)
        <$> tables.1 !! i ∧
    tables'.2 !! i
    = (λ names, names ++ (filter (λ hit, hit.1 = i) hits).*2)
        <$> tables.2 !! i.
Proof.
  unfold record_hits. revert tables.
  induction hits as [|[j c] hits IH]; intros tables Hrun; simpl in Hrun.
  - injection Hrun as <-. repeat split; try done.
    + destruct (tables.1 !! i); simpl; [|done]. by rewrite app_nil_r.
    + destruct (tables.2 !! i); simpl; [|done]. by rewrite app_nil_r.
  - inv_bind Hrun as tables1 Hstep. simpl in Hstep.
    inv_bind Hstep as lookup1 Hlookup1. inv_bind Hstep as names1 Hnames1.
    injection Hstep as <-.
    destruct (IH _ Hrun) as (Hlen1 & Hlen2 & Hlook). simpl in *.
    destruct (append_at_length _ _ _ _ Hlookup1) as [Hl1 _].
    destruct (append_at_length _ _ _ _ Hnames1) as [Hl2 _].
    repeat split; try congruence.
    + destruct (Hlook i) as [-> _].
      rewrite (append_at_lookup _ _ _ _ i Hlookup1).
      destruct (tables.1 !! i) as [entry|]; simpl; [|done]. f_equal.
      rewrite filter_cons. simpl. destruct (decide (j = i)); simpl; [|done].
      by rewrite <- app_assoc.
    + destruct (Hlook i) as [_ ->].
      rewrite (append_at_lookup _ _ _ _ i Hnames1).
      destruct (tables.2 !! i) as [names|]; simpl; [|done]. f_equal.
      rewrite filter_cons. simpl. destruct (decide (j = i)); simpl; [|done].
      by rewrite <- app_assoc.
Qed.

Lemma filter_fst_absent hits (i : nat) :
  i ∉ hits.*1 → filter (λ hit, hit.1 = i) hits = [].
Proof.
  induction hits as [|[j c] hits IH]; simpl; [done|].
  rewrite not_elem_of_cons. intros [Hne Hnin].
  rewrite filter_cons. simpl. rewrite decide_False by done. by apply IH.
Qed.

Lemma filter_fst_NoDup hits (i : nat) :
  NoDup hits.*1 → length (filter (λ hit, hit.1 = i) hits) ≤ 1.
Proof.
  induction hits as [|[j c] hits IH]; simpl; [lia|].
  rewrite NoDup_cons. intros [Hnin Hnd]. rewrite filter_cons. simpl.
  destruct (decide (j = i)) as [->|Hne]; [|by apply IH].
  rewrite filter_fst_absent by done. simpl. lia.
Qed.

Lemma replicate_sorted_le (m k : nat) : StronglySorted le (replicate m k).
Proof.
  induction m as [|m IH]; simpl; constructor; [done|].
  apply Forall_forall. intros x Hx. apply elem_of_replicate in Hx. lia.
Qed.

Lemma replicate_sorted_lt (m k : nat) :
  m ≤ 1 → StronglySorted lt (replicate m k).
Proof. destruct m as [|[|m]]; [repeat constructor..|lia]. Qed.

Lemma StronglySorted_lookup {B} (order : relation B) (l : list B)
    (j1 j2 : nat) (a b : B) :
  StronglySorted order l → j1 < j2 →
  l !! j1 = Some a → l !! j2 = Some b → order a b.
Proof.
  intros Hs. revert j1 j2.
  induction Hs as [|x l Hs IH Hall]; intros j1 j2 Hlt H1 H2; [done|].
  destruct j2 as [|j2]; [lia|]. simpl in H2. destruct j1 as [|j1].
  - injection H1 as ->. rewrite Forall_forall in Hall.
    apply Hall. by eapply list_elem_of_lookup_2.
  - simpl in H1. apply (IH j1 j2); [lia|done..].
Qed.

Lemma tables_ok_init order filter (n : nat) :
  tables_ok order filter n 0 (replicate n [], replicate n []).
Proof.
  unfold tables_ok. simpl. rewrite !length_replicate.
  split; [done|]. split; [done|]. intros i entry names Hentry Hnames.
  apply lookup_replicate in Hentry as [-> _].
  apply lookup_replicate in Hnames as [-> _].
  repeat split; constructor.
Qed.

(** The inner loop of pointing [k] keeps the tables well formed. *)
Lemma tables_ok_step order filter (n k : nat) tables hits tables' :
  (∀ a b, a < b → order a b) →
  (∀ i, StronglySorted order
          (replicate (length (base.filter (λ hit, hit.1 = i) hits)) k)) →
  Forall (λ hit, chip_accepted filter hit.2) hits →
  tables_ok order filter n k tables →
  record_hits k tables hits = Ok tables' →
  tables_ok order filter n (S k) tables'.
Proof.
  intros Horder Hblock Hchips (Hn1 & Hn2 & Hentries) Hrun.
  destruct (record_hits_lookup _ _ _ _ Hrun) as (Hlen1 & Hlen2 & Hlook).
  split; [congruence|]. split; [congruence|].
  intros i entry' names' Hentry' Hnames'.
  destruct (Hlook i) as [H1 H2]. rewrite H1 in Hentry'. rewrite H2 in Hnames'.
  destruct (tables.1 !! i) as [entry|] eqn:Hentry; [|done].
  destruct (tables.2 !! i) as [names|] eqn:Hnames; [|done].
  simpl in Hentry', Hnames'. injection Hentry' as <-. injection Hnames' as <-.
  destruct (Hentries i entry names Hentry Hnames)
    as (Hlen & Hsorted & Hbound & Haccepted).
  repeat split.
  - rewrite !length_app, length_replicate, length_fmap. lia.
  - apply StronglySorted_app_2; [|done|apply Hblock].
    intros x1 x2 Hx1 Hx2. apply elem_of_replicate in Hx2 as [-> _].
    rewrite Forall_forall in Hbound. apply Horder. by apply Hbound.
  - apply Forall_app. split.
    + eapply Forall_impl; [done|]. simpl. lia.
    + apply Forall_forall. intros x Hx. apply elem_of_replicate in Hx. lia.
  - apply Forall_app. split; [done|].
    apply Forall_fmap, Forall_forall. intros hit Hhit.
    apply list_elem_of_filter in Hhit as [_ Hhit].
    rewrite Forall_forall in Hchips. by apply Hchips.
Qed.

(** The invariant of the loop over the pointings, at its exit. *)
Lemma _presliceFootprint_tables order s (simData : list observation) s' :
  (∀ a b, a < b → order a b) →
  (∀ s0 slice_ra slice_dec ra dec rot mjd hits k i,
     pointing_hits s0 slice_ra slice_dec ra dec rot mjd = Ok hits →
     StronglySorted order
       (replicate (length (base.filter (λ hit, hit.1 = i) hits)) k)) →
  _presliceFootprint s simData = Ok s' →
  nslice s' = nslice s ∧ chipsToUse s' = chipsToUse s ∧
  tables_ok order (chipsToUse s) (nslice s) (length simData)
    (sliceLookup s', chipNames s').
Proof.
  intros Horder Hblock Hrun. unfold _presliceFootprint in Hrun.
  inv_bind Hrun as ra_v Hra_v. inv_bind Hrun as dec_v Hdec_v.
  inv_bind Hrun as slice_ra Hslice_ra. inv_bind Hrun as slice_dec Hslice_dec.
  inv_bind Hrun as tree Htree. inv_bind Hrun as tables Hloop.
  injection Hrun as <-. simpl. split; [done|]. split; [done|].
  apply for_each_invariant
    with (P := tables_ok order (chipsToUse s) (nslice s)) in Hloop.
  - rewrite length_zip, length_seq, Nat.min_id in Hloop.
    by destruct tables.
  - apply tables_ok_init.
  - intros k [ind o] tables1 tables2 Hrow Hinv Hbody.
    apply lookup_zip_Some in Hrow as [Hind _].
    apply lookup_seq in Hind as [-> _]. simpl in Hbody.
    inv_bind Hbody as hits Hhits.
    eapply tables_ok_step; [done| |by apply pointing_hits_accepted in Hhits
                                  |done|done].
    intros i. by eapply Hblock.
Qed.

(** ** The footprint build runs to its end *)

Lemma record_hits_total (ind n : nat) tables hits :
  length tables.1 = n → length tables.2 = n →
  Forall (λ hit, hit.1 < n) hits →
  ∃ tables',
    record_hits ind tables hits = Ok tables' ∧
    length tables'.1 = n ∧ length tables'.2 = n.
Proof.
  intros Hn1 Hn2 Hhits. unfold record_hits.
  apply (for_each_total _ (λ t, length t.1 = n ∧ length t.2 = n)); [done|].
  intros [lookup names] [i c] [Hl1 Hl2] Hin. simpl in *.
  rewrite Forall_forall in Hhits. apply Hhits in Hin. simpl in Hin.
  destruct (append_at_in_bounds lookup i ind) as [lookup' Hlookup']; [lia|].
  destruct (append_at_in_bounds names i c) as [names' Hnames']; [lia|].
  rewrite Hlookup', Hnames'. simpl. eexists. split; [done|]. simpl.
  apply append_at_length in Hlookup' as [-> _].
  by apply append_at_length in Hnames' as [-> _].
Qed.

(** One pointing cannot raise when the ball query returns positions of
    the indexed slice points and the camera names one detector (or none)
    per candidate. *)
Lemma pointing_hits_total s (slice_ra slice_dec : list R) ra dec rot mjd :
  all_or_list (chipsToUse s) →
  is_Some (opsimtree s) → is_Some (rad s) →
  is_Some (epoch s) → is_Some (camera s) →
  (∀ tree center r i,
     opsimtree s = Some tree → i ∈ query_ball_point tree center r →
     i < length slice_ra) →
  length slice_ra = length slice_dec →
  (∀ cand_ra cand_dec e cam md,
     length cand_ra = length cand_dec →
     length (_chipNameFromRaDec cand_ra cand_dec e cam md) = length cand_ra) →
  ∃ hits,
    pointing_hits s slice_ra slice_dec ra dec rot mjd = Ok hits ∧
    Forall (λ hit, hit.1 < length slice_ra) hits.
Proof.
  intros Hlist [tree Htree] [r Hr] [e He] [cam Hcam] Hquery Hlen Hcamera.
  unfold pointing_hits. simpl. rewrite Htree, Hr. simpl.
  set (hpIndices := query_ball_point tree _ r).
  assert (Forall (λ i, i < length slice_ra) hpIndices) as Hbound.
  { apply Forall_forall. intros i Hi. by eapply Hquery. }
  case_bool_decide; [|by exists []].
  destruct (np_take_in_bounds slice_ra hpIndices) as [cand_ra Hcand_ra];
    [done|].
  destruct (np_take_in_bounds slice_dec hpIndices) as [cand_dec Hcand_dec];
    [by rewrite <- Hlen|].
  rewrite Hcand_ra, Hcand_dec, He, Hcam. simpl.
  set (names0 := _chipNameFromRaDec cand_ra cand_dec e cam _).
  assert (length names0 = length hpIndices) as Hnames0.
  { subst names0. rewrite Hcamera; [by rewrite (np_take_length _ _ _ Hcand_ra)|].
    by rewrite (np_take_length _ _ _ Hcand_ra),
         (np_take_length _ _ _ Hcand_dec). }
  set (filtered := match chipsToUse s with
                   | AllChips => _ | Chips _ => _ | ChipArray _ _ _ => _
                   end).
  assert (∃ names1 hp1,
            filtered = Ok (names1, hp1) ∧
            length names1 = length hp1 ∧
            Forall (λ i, i < length slice_ra) hp1)
    as (names1 & hp1 & -> & Hsame & Hbound1).
  { subst filtered.
    destruct (chipsToUse s) as [|allowed|first second rest];
      [by exists names0, hpIndices| |done].
    simpl. set (good := np_where _).
    assert (Forall (λ i, i < length names0) good) as Hgood.
    { subst good. eapply Forall_impl; [apply np_where_in_bounds|].
      simpl. intros i. by rewrite length_fmap. }
    destruct (np_take_in_bounds names0 good) as [names1 Hnames1]; [done|].
    destruct (np_take_in_bounds hpIndices good) as [hp1 Hhp1];
      [by rewrite <- Hnames0|].
    rewrite Hnames1, Hhp1. simpl. exists names1, hp1. split; [done|]. split.
    - by rewrite (np_take_length _ _ _ Hnames1), (np_take_length _ _ _ Hhp1).
    - apply Forall_forall. intros i Hi.
      destruct (np_take_elem _ _ _ _ Hhp1 Hi) as (j & _ & Hj).
      rewrite Forall_forall in Hbound. apply Hbound.
      by eapply list_elem_of_lookup_2. }
  simpl. set (good := np_where _).
  assert (Forall (λ i, i < length names1) good) as Hgood.
  { subst good. eapply Forall_impl; [apply np_where_in_bounds|].
    simpl. intros i. by rewrite length_fmap. }
  destruct (np_take_in_bounds hp1 good) as [hpOnChip HhpOnChip];
    [by rewrite <- Hsame|].
  destruct (np_take_in_bounds names1 good) as [onChip HonChip]; [done|].
  rewrite HhpOnChip, HonChip. simpl. eexists. split; [done|].
  apply Forall_forall. intros [i c] Hin. simpl.
  apply elem_of_zip_l in Hin. simpl in Hin.
  destruct (np_take_elem _ _ _ _ HhpOnChip Hin) as (j & _ & Hj).
  rewrite Forall_forall in Hbound1. apply Hbound1.
  by eapply list_elem_of_lookup_2.
Qed.

Lemma _presliceFootprint_completes s (simData : list observation)
    ra_v dec_v (ras decs : list R) :
  all_or_list (chipsToUse s) →
  (∀ data leaf center r i,
     i ∈ query_ball_point (kdtree data leaf) center r → i < length data) →
  (∀ cand_ra cand_dec e cam md,
     length cand_ra = length cand_dec →
     length (_chipNameFromRaDec cand_ra cand_dec e cam md) = length cand_ra) →
  slicePoints s !! "ra" = Some ra_v → slicePoints s !! "dec" = Some dec_v →
  as_floats ra_v = Ok ras → as_floats dec_v = Ok decs →
  length ras = nslice s → length decs = nslice s → 0 < nslice s →
  (∀ v, v ∈ ras ∨ v ∈ decs → - (2 * PI) <= v <= 2 * PI)%R →
  is_Some (rad s) → is_Some (epoch s) → is_Some (camera s) →
  ∃ s', _presliceFootprint s simData = Ok s'.
Proof.
  intros Hlist Hquery Hcamera Hra Hdec Hras Hdecs Hlra Hldec Hpos Hrange
    Hrad Hepoch Hcam.
  unfold _presliceFootprint, dict_get. rewrite Hra, Hdec. simpl.
  rewrite Hras, Hdecs. simpl.
  rewrite _buildTree_in_range;
    [|apply any_abs_gt_2pi_false; auto..|congruence
     |intros ->; simpl in Hlra; lia].
  simpl.
  destruct (for_each_total
              (λ tables (row : nat * observation),
                 let '(ind, o) := row in
                 hits ← pointing_hits
                          (set_opsimtree s (kdtree (sky_points ras decs)
                                              (leafsize s)))
                          ras decs
                          ((if latLonDeg s then radians else id) (fieldRA o))
                          ((if latLonDeg s then radians else id) (fieldDec o))
                          (rotSkyPos o) (observationStartMJD o);
                 record_hits ind tables hits)
              (λ t, length t.1 = nslice s ∧ length t.2 = nslice s)
              (zip (seq 0 (length simData)) simData)
              (replicate (nslice s) [], replicate (nslice s) []))
    as (tables & Hloop & _).
  - simpl. by rewrite !length_replicate.
  - intros tables [ind o] [Hl1 Hl2] _.
    destruct (pointing_hits_total
                (set_opsimtree s (kdtree (sky_points ras decs) (leafsize s)))
                ras decs
                ((if latLonDeg s then radians else id) (fieldRA o))
                ((if latLonDeg s then radians else id) (fieldDec o))
                (rotSkyPos o) (observationStartMJD o))
      as (hits & -> & Hhits); simpl; try done; [|congruence|].
    + intros tree center r i [= <-] Hi%Hquery.
      unfold sky_points in Hi.
      rewrite length_fmap, length_zip in Hi. lia.
    + rewrite Hlra in Hhits. by apply record_hits_total.
  - simpl in Hloop. rewrite Hloop. simpl. by eexists.
Qed.

End Footprint.

(** ** Properties of the footprint lookup table *)

Section FootprintClaims.
Context `{Externals}.
Implicit Types (s : slicer) (simData : list observation).

Lemma _presliceFootprint_le s simData s' :
  _presliceFootprint s simData = Ok s' →
  nslice s' = nslice s ∧ chipsToUse s' = chipsToUse s ∧
  tables_ok le (chipsToUse s) (nslice s) (length simData)
    (sliceLookup s', chipNames s').
Proof.
  apply _presliceFootprint_tables; [lia|].
  intros. apply replicate_sorted_le.
Qed.

Lemma _presliceFootprint_lt s simData s' :
  (∀ tree center r, NoDup (query_ball_point tree center r)) →
  _presliceFootprint s simData = Ok s' →
  nslice s' = nslice s ∧ chipsToUse s' = chipsToUse s ∧
  tables_ok lt (chipsToUse s) (nslice s) (length simData)
    (sliceLookup s', chipNames s').
Proof.
  intros Hquery. apply _presliceFootprint_tables; [lia|].
  intros ?????????? Hhits. apply replicate_sorted_lt, filter_fst_NoDup.
  by eapply pointing_hits_NoDup.
Qed.

(** C3: after the footprint build, the chip name stored for position [j]
    of slice point [i] is not the no-detector sentinel [None], and it is
    a member of the allow-list when the slicer has one. *)
Theorem footprint_chip_on_detector s simData s' (i j ind : nat)
    (entry : list nat) :
  _presliceFootprint s simData = Ok s' →
  sliceLookup s' !! i = Some entry → entry !! j = Some ind →
  ∃ names name,
    chipNames s' !! i = Some names ∧ names !! j = Some name ∧
    name ≠ None ∧
    ∀ allowed, chipsToUse s' = Chips allowed →
               ∃ chip, name = Some chip ∧ chip ∈ allowed.
Proof.
  intros Hrun Hentry Hj.
  destruct (_presliceFootprint_le _ _ _ Hrun)
    as (_ & Hfilter & Hn1 & Hn2 & Hentries). simpl in *.
  destruct (lookup_lt_is_Some_2 (chipNames s') i) as [names Hnames].
  { rewrite Hn2, <- Hn1. by eapply lookup_lt_Some. }
  destruct (Hentries i entry names Hentry Hnames)
    as (Hlen & _ & _ & Haccepted).
  destruct (lookup_lt_is_Some_2 names j) as [name Hname].
  { rewrite <- Hlen. by eapply lookup_lt_Some. }
  exists names, name. split; [done|]. split; [done|].
  rewrite Forall_forall in Haccepted.
  destruct (Haccepted name) as [Hsome Hallowed].
  { by eapply list_elem_of_lookup_2. }
  split; [done|]. intros allowed Hs'. apply Hallowed.
  by rewrite <- Hfilter, Hs'.
Qed.

(** C4: after the footprint build, the observation indices of every
    lookup entry are in non-decreasing order. *)
Theorem footprint_entry_sorted s simData s' (i j1 j2 a b : nat)
    (entry : list nat) :
  _presliceFootprint s simData = Ok s' →
  sliceLookup s' !! i = Some entry →
  j1 ≤ j2 → entry !! j1 = Some a → entry !! j2 = Some b →
  a ≤ b.
Proof.
  intros Hrun Hentry Hle Ha Hb.
  destruct (_presliceFootprint_le _ _ _ Hrun)
    as (_ & _ & Hn1 & Hn2 & Hentries). simpl in *.
  destruct (lookup_lt_is_Some_2 (chipNames s') i) as [names Hnames].
  { rewrite Hn2, <- Hn1. by eapply lookup_lt_Some. }
  destruct (Hentries i entry names Hentry Hnames) as (_ & Hsorted & _).
  destruct (decide (j1 = j2)) as [->|Hne]; [by simplify_eq|].
  apply (StronglySorted_lookup le entry j1 j2); [done|lia|done..].
Qed.

(** C5: after the footprint build, both tables have one entry per slice
    point, and the index entry and the chip-name entry of a slice point
    have the same length. *)
Theorem footprint_entries_same_length s simData s' (i : nat) :
  _presliceFootprint s simData = Ok s' →
  i < nslice s' →
  ∃ entry names,
    sliceLookup s' !! i = Some entry ∧ chipNames s' !! i = Some names ∧
    length entry = length names.
Proof.
  intros Hrun Hi.
  destruct (_presliceFootprint_le _ _ _ Hrun)
    as (Hn & _ & Hn1 & Hn2 & Hentries). simpl in *.
  destruct (lookup_lt_is_Some_2 (sliceLookup s') i) as [entry Hentry];
    [lia|].
  destruct (lookup_lt_is_Some_2 (chipNames s') i) as [names Hnames];
    [lia|].
  exists entry, names. split; [done|]. split; [done|].
  by destruct (Hentries i entry names Hentry Hnames) as (Hlen & _).
Qed.

(** C10: when the ball query returns each indexed point at most once,
    after the footprint build the observation indices of every lookup
    entry are pairwise distinct and strictly increasing, and each is a
    position of the observation set. *)
Theorem footprint_entry_distinct_in_range s simData s' (i : nat)
    (entry : list nat) :
  (∀ tree center r, NoDup (query_ball_point tree center r)) →
  _presliceFootprint s simData = Ok s' →
  sliceLookup s' !! i = Some entry →
  NoDup entry ∧
  (∀ j1 j2 a b, j1 < j2 → entry !! j1 = Some a → entry !! j2 = Some b →
                a < b) ∧
  ∀ ind, ind ∈ entry → 0 ≤ ind < length simData.
Proof.
  intros Hquery Hrun Hentry.
  destruct (_presliceFootprint_lt _ _ _ Hquery Hrun)
    as (_ & _ & Hn1 & Hn2 & Hentries). simpl in *.
  destruct (lookup_lt_is_Some_2 (chipNames s') i) as [names Hnames].
  { rewrite Hn2, <- Hn1. by eapply lookup_lt_Some. }
  destruct (Hentries i entry names Hentry Hnames)
    as (_ & Hsorted & Hbound & _).
  split; [by apply StronglySorted_lt_NoDup|]. split.
  - intros j1 j2 a b. by apply StronglySorted_lookup.
  - intros ind Hind. rewrite Forall_forall in Hbound.
    apply Hbound in Hind. lia.
Qed.

End FootprintClaims.

(** ** Python indexing *)

Section Indexing.
Context {A : Type}.
Implicit Types (l : list A) (i : Z).

Lemma py_index_in_range l i :
  (0 ≤ i < Z.of_nat (length l))%Z →
  ∃ a, l !! Z.to_nat i = Some a ∧ py_index l i = Ok a.
Proof.
  intros Hi. unfold py_index.
  rewrite (bool_decide_false (i < 0)%Z) by lia.
  rewrite bool_decide_true by lia.
  destruct (lookup_lt_is_Some_2 l (Z.to_nat i)) as [a Ha]; [lia|].
  exists a. by rewrite Ha.
Qed.

Lemma py_index_out_of_range l i :
  (Z.of_nat (length l) ≤ i ∨ i < - Z.of_nat (length l))%Z →
  py_index l i = Raise IndexError.
Proof.
  intros Hi. unfold py_index.
  destruct (bool_decide (i < 0)%Z) eqn:Hneg.
  - apply bool_decide_eq_true in Hneg. by rewrite bool_decide_false by lia.
  - apply bool_decide_eq_false in Hneg. by rewrite bool_decide_false by lia.
Qed.

Lemma py_index_negative l i :
  (- Z.of_nat (length l) ≤ i < 0)%Z →
  py_index l i = py_index l (i + Z.of_nat (length l)).
Proof.
  intros Hi. unfold py_index.
  rewrite (bool_decide_true (i < 0)%Z) by lia.
  rewrite (bool_decide_false (i + Z.of_nat (length l) < 0)%Z) by lia. done.
Qed.

Lemma for_each_ext {S B} (f g : S → B → result S) (st : S) (xs : list B) :
  (∀ st x, x ∈ xs → f st x = g st x) →
  for_each f st xs = for_each g st xs.
Proof.
  revert st. induction xs as [|x xs IH]; intros st Hfg; simpl; [done|].
  rewrite Hfg by left. destruct (g st x) as [st'|e]; simpl; [|done].
  apply IH. intros st1 y Hy. apply Hfg. by right.
Qed.

End Indexing.

(** ** The per-slice-point query: [_sliceSimData] *)

Section Query.
Context `{Externals}.
Implicit Types (s : slicer) (simData : list observation) (islice : Z)
  (v : pyval) (store : gmap string pyval).

Lemma keyShape_leading_dimension v :
  (if bool_decide (length (np_shape v) = 0) then 0
   else default 0 (np_shape v !! 0)) = leading_dimension v.
Proof. unfold leading_dimension. by destruct (np_shape v). Qed.

Lemma leading_dimension_array v (n : nat) :
  leading_dimension v = n → 0 < n → ∃ elts, v = PArr elts ∧ length elts = n.
Proof.
  destruct v as [| | | |elts]; unfold leading_dimension; simpl; try lia.
  intros Hlen _. by exists elts.
Qed.

Lemma slicePoint_entry_per_point (n : nat) islice v :
  (0 ≤ islice < Z.of_nat n)%Z → leading_dimension v = n →
  ∃ elts e, v = PArr elts ∧ elts !! Z.to_nat islice = Some e ∧
            slicePoint_entry n islice v = Ok e.
Proof.
  intros Hi Hdim. unfold slicePoint_entry.
  rewrite keyShape_leading_dimension, bool_decide_true by done.
  destruct (leading_dimension_array v n) as (elts & -> & Hlen); [done|lia|].
  destruct (py_index_in_range elts islice) as (e & He & Hidx); [lia|].
  by exists elts, e.
Qed.

Lemma slicePoint_entry_shared (n : nat) islice v :
  leading_dimension v ≠ n → slicePoint_entry n islice v = Ok v.
Proof.
  intros Hdim. unfold slicePoint_entry.
  by rewrite keyShape_leading_dimension, bool_decide_false.
Qed.

Lemma slicePoint_entry_negative (n : nat) islice v :
  (- Z.of_nat n ≤ islice < 0)%Z →
  slicePoint_entry n islice v = slicePoint_entry n (islice + Z.of_nat n) v.
Proof.
  intros Hi. unfold slicePoint_entry. rewrite keyShape_leading_dimension.
  case_bool_decide as Hdim; [|done].
  destruct (leading_dimension_array v n) as (elts & -> & <-); [done|lia|].
  by apply py_index_negative.
Qed.

(** The loop over the keys of the metadata store. *)
Lemma metadata_loop (n : nat) islice (items : list (string * pyval))
    (base : gmap string pyval) :
  NoDup items.*1 →
  (∀ item, item ∈ items → ∃ v', slicePoint_entry n islice item.2 = Ok v') →
  ∃ slicePoint,
    for_each (λ slicePoint (item : string * pyval),
                v ← slicePoint_entry n islice item.2;
                Ok (<[item.1 := v]> slicePoint)) base items
    = Ok slicePoint ∧
    (∀ key v, (key, v) ∈ items →
              ∃ v', slicePoint_entry n islice v = Ok v' ∧
                    slicePoint !! key = Some v') ∧
    (∀ key, key ∉ items.*1 → slicePoint !! key = base !! key).
Proof.
  revert base. induction items as [|[key0 v0] items IH]; intros base Hnd Hok.
  - exists base. simpl. split; [done|]. split; [|done].
    intros key v Hin. by apply elem_of_nil in Hin.
  - simpl in Hnd. apply NoDup_cons in Hnd as [Hfresh Hnd].
    destruct (Hok (key0, v0)) as [v0' Hv0]; [left|]. simpl in Hv0.
    destruct (IH (<[key0 := v0']> base) Hnd) as (sp & Hrun & Hin & Hout).
    { intros item Hitem. apply Hok. by right. }
    exists sp. simpl. rewrite Hv0. simpl. split; [done|]. split.
    + intros key v [[= -> ->]|Hrest]%elem_of_cons; [|by apply Hin].
      exists v0'. split; [done|].
      rewrite Hout by done. apply lookup_insert_eq.
    + intros key [Hne Hnin]%not_elem_of_cons.
      rewrite Hout by done. by apply lookup_insert_ne.
Qed.

Lemma _presliceFootprint_fields s simData s' :
  _presliceFootprint s simData = Ok s' →
  useCamera s' = useCamera s ∧ slicePoints s' = slicePoints s ∧
  rad s' = rad s ∧ is_Some (opsimtree s').
Proof.
  intros Hrun. unfold _presliceFootprint in Hrun.
  inv_bind Hrun as ra_v Hra_v. inv_bind Hrun as dec_v Hdec_v.
  inv_bind Hrun as slice_ra Hslice_ra. inv_bind Hrun as slice_dec Hslice_dec.
  inv_bind Hrun as tree Htree. inv_bind Hrun as tables Hloop.
  injection Hrun as <-. simpl. by repeat split.
Qed.

(** The slicer prepared by [setupSlicer] before it builds the index. *)
Lemma setupSlicer_unfold s simData maps :
  ∃ s1,
    useCamera s1 = useCamera s ∧ nslice s1 = nslice s ∧
    latLonDeg s1 = latLonDeg s ∧ leafsize s1 = leafsize s ∧
    chipsToUse s1 = chipsToUse s ∧
    slicePoints s1 = points_after_maps s maps ∧
    is_Some (rad s1) ∧
    setupSlicer s simData maps
    = if useCamera s then _presliceFootprint (_setupLSSTCamera s1) simData
      else
        tree ← _buildTree
                 ((if latLonDeg s then radians else id) ∘ fieldRA <$> simData)
                 ((if latLonDeg s then radians else id) ∘ fieldDec <$> simData)
                 (leafsize s);
        Ok (set_opsimtree s1 tree).
Proof.
  unfold setupSlicer. destruct maps as [maps|].
  - destruct (bool_decide (cacheSize s ≠ 0) && bool_decide (0 < length maps)).
    + eexists (set_rad (_runMaps (warn s _) maps) _). by repeat split.
    + eexists (set_rad (_runMaps s maps) _). by repeat split.
  - eexists (set_rad s _). by repeat split.
Qed.

Lemma setupSlicer_slicePoints s0 simData maps s :
  setupSlicer s0 simData maps = Ok s →
  slicePoints s = points_after_maps s0 maps.
Proof.
  destruct (setupSlicer_unfold s0 simData maps)
    as (s1 & _ & _ & _ & _ & _ & <- & _ & ->).
  destruct (useCamera s0).
  - intros Hrun.
    by destruct (_presliceFootprint_fields _ _ _ Hrun) as (_ & -> & _).
  - intros Hrun. inv_bind Hrun as tree Htree. by injection Hrun as <-.
Qed.

(** What [setupSlicer] leaves behind for the query closure. *)
Lemma setupSlicer_configured s0 simData maps s :
  setupSlicer s0 simData maps = Ok s →
  useCamera s = useCamera s0 ∧ nslice s = nslice s0 ∧
  is_Some (rad s) ∧ is_Some (opsimtree s) ∧
  (useCamera s = true →
   length (sliceLookup s) = nslice s ∧ length (chipNames s) = nslice s).
Proof.
  destruct (setupSlicer_unfold s0 simData maps)
    as (s1 & Hcam & Hn & _ & _ & _ & _ & Hrad & ->).
  destruct (useCamera s0) eqn:Hfoot.
  - intros Hrun.
    destruct (_presliceFootprint_fields _ _ _ Hrun) as (Hc & _ & Hr & Ht).
    destruct (_presliceFootprint_le _ _ _ Hrun) as (Hn' & _ & Hl1 & Hl2 & _).
    simpl in *. rewrite Hc, Hn', Hr, Hcam, Hn. repeat split; try done.
    all: congruence.
  - intros Hrun. inv_bind Hrun as tree Htree. injection Hrun as <-. simpl.
    repeat split; try done; congruence.
Qed.

Lemma bind_ext2 {A B} (m m' : result A) (f g : A → result B) :
  m = m' → (∀ a, f a = g a) → m ≫= f = m' ≫= g.
Proof. intros <- Hfg. destruct m; simpl; [apply Hfg | done]. Qed.

(** A query inside [0, nslice) returns, and binds every key of the
    metadata store to what the loop body computes for it. *)
Lemma _sliceSimData_in_range s0 simData maps s islice :
  setupSlicer s0 simData maps = Ok s → spatial_points s →
  (0 ≤ islice < Z.of_nat (nslice s))%Z →
  ∃ res,
    _sliceSimData s islice = Ok res ∧
    ∀ key v, slicePoints s !! key = Some v →
             ∃ v', slicePoint_entry (nslice s) islice v = Ok v' ∧
                   slicePoint res !! key = Some v'.
Proof.
  intros Hsetup (ras & decs & Hra & Hdec & Hlra & Hldec & Hnra & Hndec) Hi.
  destruct (setupSlicer_configured _ _ _ _ Hsetup)
    as (_ & _ & [r Hrad] & [tree Htree] & Htables).
  unfold _sliceSimData.
  set (stage := if useCamera s then _ else _).
  assert (∃ indices base, stage = Ok (indices, base))
    as (indices & base & ->).
  { subst stage. destruct (useCamera s).
    - destruct Htables as [Hl1 Hl2]; [done|].
      destruct (py_index_in_range (sliceLookup s) islice)
        as (entry & _ & ->); [lia|].
      destruct (py_index_in_range (chipNames s) islice)
        as (names & _ & ->); [lia|].
      simpl. by eexists _, _.
    - unfold dict_get. rewrite Hra, Hdec. simpl.
      destruct (py_index_in_range ras islice) as (ra_i & Hra_i & ->); [lia|].
      destruct (py_index_in_range decs islice) as (dec_i & Hdec_i & ->);
        [lia|].
      simpl. rewrite Forall_forall in Hnra, Hndec.
      apply list_elem_of_lookup_2, Hnra in Hra_i.
      apply list_elem_of_lookup_2, Hndec in Hdec_i.
      rewrite Htree, Hrad.
      destruct ra_i, dec_i; try done; simpl; by eexists _, _. }
  simpl.
  destruct (metadata_loop (nslice s) islice (map_to_list (slicePoints s)) base)
    as (sp & -> & Hin & _).
  { apply NoDup_fst_map_to_list. }
  { intros [key v] Hitem%elem_of_map_to_list. simpl.
    destruct (decide (leading_dimension v = nslice s)) as [Hdim|Hdim].
    - destruct (slicePoint_entry_per_point _ islice v Hi Hdim)
        as (elts & e & _ & _ & ->). by eexists.
    - rewrite slicePoint_entry_shared by done. by eexists. }
  simpl. eexists. split; [done|]. simpl.
  intros key v Hkey. apply Hin. by apply elem_of_map_to_list.
Qed.

(** Python's negative indexing: a query at [islice] in [-nslice, 0) is
    the query at [islice + nslice]. *)
Lemma _sliceSimData_negative s0 simData maps s islice :
  setupSlicer s0 simData maps = Ok s → spatial_points s →
  (- Z.of_nat (nslice s) ≤ islice < 0)%Z →
  _sliceSimData s islice = _sliceSimData s (islice + Z.of_nat (nslice s)).
Proof.
  intros Hsetup (ras & decs & Hra & Hdec & Hlra & Hldec & _) Hi.
  destruct (setupSlicer_configured _ _ _ _ Hsetup)
    as (_ & _ & _ & _ & Htables).
  unfold _sliceSimData. apply bind_ext2.
  - destruct (useCamera s).
    + destruct Htables as [Hl1 Hl2]; [done|].
      apply bind_ext2; [|intros indices; apply bind_ext2; [|done]].
      * rewrite <- Hl1. apply py_index_negative. lia.
      * rewrite <- Hl2. apply py_index_negative. lia.
    + unfold dict_get. rewrite Hra, Hdec. simpl.
      apply bind_ext2; [|intros ra_i; apply bind_ext2; [|done]].
      * rewrite <- Hlra. apply py_index_negative. lia.
      * rewrite <- Hldec. apply py_index_negative. lia.
  - intros [indices base]. f_equal. apply for_each_ext.
    intros sp [key v] _. simpl. by rewrite slicePoint_entry_negative.
Qed.

Lemma _sliceSimData_out_of_range s0 simData maps s islice :
  setupSlicer s0 simData maps = Ok s → spatial_points s →
  (Z.of_nat (nslice s) ≤ islice ∨ islice < - Z.of_nat (nslice s))%Z →
  _sliceSimData s islice = Raise IndexError.
Proof.
  intros Hsetup (ras & decs & Hra & Hdec & Hlra & Hldec & _) Hi.
  destruct (setupSlicer_configured _ _ _ _ Hsetup)
    as (_ & _ & _ & _ & Htables).
  unfold _sliceSimData. destruct (useCamera s).
  - destruct Htables as [Hl1 Hl2]; [done|].
    rewrite (py_index_out_of_range (sliceLookup s) islice); [done|lia].
  - unfold dict_get. rewrite Hra. simpl.
    rewrite (py_index_out_of_range ras islice); [done|lia].
Qed.

End Query.

(** ** [setupSlicer] and the query closure *)

Section Setup.
Context `{Externals}.
Implicit Types (s : slicer) (simData : list observation) (islice : Z).

Lemma setupSlicer_tree_no_observations s maps :
  useCamera s = false →
  setupSlicer s [] maps
  = Raise (ValueError "SimDataRA and Dec should have length greater than 0.").
Proof.
  intros Hmode.
  destruct (setupSlicer_unfold s [] maps) as (s1 & _ & _ & _ & _ & _ & _ & _ & ->).
  by rewrite Hmode.
Qed.

Lemma _presliceFootprint_no_observations s ra_v dec_v (ras decs : list R) :
  slicePoints s !! "ra" = Some ra_v → slicePoints s !! "dec" = Some dec_v →
  as_floats ra_v = Ok ras → as_floats dec_v = Ok decs →
  ras ≠ [] → length ras = length decs →
  (∀ v, v ∈ ras ∨ v ∈ decs → - (2 * PI) <= v <= 2 * PI)%R →
  ∃ s',
    _presliceFootprint s [] = Ok s' ∧
    sliceLookup s' = replicate (nslice s) [] ∧
    chipNames s' = replicate (nslice s) [].
Proof.
  intros Hra Hdec Hras Hdecs Hne Hlen Hrange.
  unfold _presliceFootprint, dict_get. rewrite Hra, Hdec. simpl.
  rewrite Hras, Hdecs. simpl.
  rewrite _buildTree_in_range; try done.
  - simpl. by eexists.
  - apply any_abs_gt_2pi_false. auto.
  - apply any_abs_gt_2pi_false. auto.
Qed.

Lemma setupSlicer_footprint_no_observations s maps ra_v dec_v
    (ras decs : list R) :
  useCamera s = true →
  points_after_maps s maps !! "ra" = Some ra_v →
  points_after_maps s maps !! "dec" = Some dec_v →
  as_floats ra_v = Ok ras → as_floats dec_v = Ok decs →
  ras ≠ [] → length ras = length decs →
  (∀ v, v ∈ ras ∨ v ∈ decs → - (2 * PI) <= v <= 2 * PI)%R →
  ∃ s',
    setupSlicer s [] maps = Ok s' ∧
    sliceLookup s' = replicate (nslice s) [] ∧
    chipNames s' = replicate (nslice s) [].
Proof.
  intros Hmode Hra Hdec Hras Hdecs Hne Hlen Hrange.
  destruct (setupSlicer_unfold s [] maps)
    as (s1 & _ & Hn & _ & _ & _ & Hpoints & _ & ->).
  rewrite Hmode, <- Hn.
  destruct (_presliceFootprint_no_observations
              (_setupLSSTCamera s1) ra_v dec_v ras decs)
    as (s' & Hrun & Hlookup & Hnames);
    try done; simpl; rewrite ?Hpoints; try done.
  by exists s'.
Qed.

Lemma setupSlicer_footprint_no_points s simData maps :
  useCamera s = true →
  points_after_maps s maps !! "ra" = Some (PArr []) →
  points_after_maps s maps !! "dec" = Some (PArr []) →
  setupSlicer s simData maps
  = Raise (ValueError "SimDataRA and Dec should have length greater than 0.").
Proof.
  intros Hmode Hra Hdec.
  destruct (setupSlicer_unfold s simData maps)
    as (s1 & _ & _ & _ & _ & _ & Hpoints & _ & ->).
  rewrite Hmode. unfold _presliceFootprint, dict_get. simpl.
  by rewrite Hpoints, Hra, Hdec.
Qed.

(** In footprint mode the slicer [setupSlicer] returns is the one
    [_presliceFootprint] built. *)
Lemma setupSlicer_footprint_build s0 simData maps s :
  useCamera s0 = true → setupSlicer s0 simData maps = Ok s →
  ∃ s1, _presliceFootprint s1 simData = Ok s ∧
        chipsToUse s1 = chipsToUse s0 ∧ nslice s1 = nslice s0.
Proof.
  intros Hmode.
  destruct (setupSlicer_unfold s0 simData maps)
    as (s1 & _ & Hn & _ & _ & Hchips & _ & _ & ->).
  rewrite Hmode. intros Hrun. by exists (_setupLSSTCamera s1).
Qed.


(** and with the camera footprint, over any observation set, when there
    is a slice point, the slice points are in radian range, the ball query
    returns positions of indexed points and the camera names one detector
    (or none) per candidate. *)
Lemma setupSlicer_footprint_completes s simData maps ra_v dec_v
    (ras decs : list R) :
  useCamera s = true → all_or_list (chipsToUse s) →
  (∀ data leaf center r i,
     i ∈ query_ball_point (kdtree data leaf) center r → i < length data) →
  (∀ cand_ra cand_dec e cam md,
     length cand_ra = length cand_dec →
     length (_chipNameFromRaDec cand_ra cand_dec e cam md) = length cand_ra) →
  points_after_maps s maps !! "ra" = Some ra_v →
  points_after_maps s maps !! "dec" = Some dec_v →
  as_floats ra_v = Ok ras → as_floats dec_v = Ok decs →
  length ras = nslice s → length decs = nslice s → 0 < nslice s →
  (∀ v, v ∈ ras ∨ v ∈ decs → - (2 * PI) <= v <= 2 * PI)%R →
  ∃ s', setupSlicer s simData maps = Ok s'.
Proof.
  intros Hmode Hlist Hquery Hcamera Hra Hdec Hras Hdecs Hlra Hldec Hpos Hrange.
  destruct (setupSlicer_unfold s simData maps)
    as (s1 & _ & Hn & _ & _ & Hchips & Hpoints & Hrad & ->).
  rewrite Hmode.
  apply (_presliceFootprint_completes _ simData ra_v dec_v ras decs);
    simpl; rewrite ?Hpoints, ?Hn, ?Hchips; try done.
Qed.

(** C1, as the code has it: the query fails with [IndexError] when the
    slice index is at or above [nslice] or below [-nslice]; an index in
    [-nslice, 0) is not rejected, Python's negative indexing makes the
    query return what it returns at [islice + nslice]. *)
Theorem sliceSimData_index_error s0 simData maps s islice :
  setupSlicer s0 simData maps = Ok s → spatial_points s →
  ((Z.of_nat (nslice s) ≤ islice ∨ islice < - Z.of_nat (nslice s))%Z →
   _sliceSimData s islice = Raise IndexError) ∧
  ((- Z.of_nat (nslice s) ≤ islice < 0)%Z →
   ∃ res, _sliceSimData s islice = Ok res ∧
          _sliceSimData s (islice + Z.of_nat (nslice s)) = Ok res).
Proof.
  intros Hsetup Hpoints. split.
  - by apply (_sliceSimData_out_of_range s0 simData maps).
  - intros Hi.
    destruct (_sliceSimData_in_range s0 simData maps s
                (islice + Z.of_nat (nslice s))) as (res & Hres & _);
      [done|done|lia|].
    exists res. split; [|done].
    by rewrite (_sliceSimData_negative s0 simData maps).
Qed.

(** C6: for a configured slicer and a slice index in [0, nslice), the
    query returns, and binds every key of the metadata store to the
    element at [islice] when the leading dimension of the value is
    [nslice], and to the whole value otherwise (scalars have leading
    dimension 0). *)
Theorem sliceSimData_metadata s0 simData maps s islice :
  setupSlicer s0 simData maps = Ok s → spatial_points s →
  (0 ≤ islice < Z.of_nat (nslice s))%Z →
  ∃ res,
    _sliceSimData s islice = Ok res ∧
    ∀ key v, slicePoints s !! key = Some v →
      (leading_dimension v = nslice s →
       ∃ elts e, v = PArr elts ∧ elts !! Z.to_nat islice = Some e ∧
                 slicePoint res !! key = Some e) ∧
      (leading_dimension v ≠ nslice s → slicePoint res !! key = Some v).
Proof.
  intros Hsetup Hpoints Hi.
  destruct (_sliceSimData_in_range _ _ _ _ _ Hsetup Hpoints Hi)
    as (res & Hres & Hmeta).
  exists res. split; [done|]. intros key v Hkey.
  destruct (Hmeta key v Hkey) as (v' & Hv' & Hlook). split.
  - intros Hdim.
    destruct (slicePoint_entry_per_point _ islice v Hi Hdim)
      as (elts & e & -> & He & Hentry).
    exists elts, e. split; [done|]. split; [done|]. congruence.
  - intros Hdim. rewrite slicePoint_entry_shared in Hv' by done. congruence.
Qed.

(** C2, as the code has it: without the camera footprint, [setupSlicer]
    on an empty observation set fails with the [ValueError] of index
    construction, which an empty point sequence raises. With the camera
    footprint the index is built over the slice points: [setupSlicer]
    raises that error when there is no slice point, and on an empty
    observation set with slice points in [-2 pi, 2 pi] it completes with
    every lookup entry empty. *)
Theorem setupSlicer_empty_input s maps :
  (useCamera s = false →
   setupSlicer s [] maps
   = Raise (ValueError "SimDataRA and Dec should have length greater than 0.")) ∧
  (∀ leaf,
     _buildTree [] [] leaf
     = Raise (ValueError "SimDataRA and Dec should have length greater than 0.")) ∧
  (useCamera s = true →
   points_after_maps s maps !! "ra" = Some (PArr []) →
   points_after_maps s maps !! "dec" = Some (PArr []) →
   ∀ simData,
     setupSlicer s simData maps
     = Raise (ValueError "SimDataRA and Dec should have length greater than 0.")) ∧
  (useCamera s = true →
   ∀ ra_v dec_v (ras decs : list R),
     points_after_maps s maps !! "ra" = Some ra_v →
     points_after_maps s maps !! "dec" = Some dec_v →
     as_floats ra_v = Ok ras → as_floats dec_v = Ok decs →
     ras ≠ [] → length ras = length decs →
     (∀ v, v ∈ ras ∨ v ∈ decs → - (2 * PI) <= v <= 2 * PI)%R →
     ∃ s',
       setupSlicer s [] maps = Ok s' ∧
       sliceLookup s' = replicate (nslice s) [] ∧
       chipNames s' = replicate (nslice s) []).
Proof.
  split; [apply setupSlicer_tree_no_observations|].
  split; [apply _buildTree_empty|].
  split.
  - intros Hmode Hra Hdec simData.
    by apply setupSlicer_footprint_no_points.
  - intros Hmode ra_v dec_v ras decs. by apply setupSlicer_footprint_no_observations.
Qed.

End Setup.

(** ** The reference instance at work *)

Section Demo.
Existing Instance reference.
Local Open Scope R_scope.

Lemma ball_query_NoDup (data : list point) (center : point) (r : R) :
  NoDup (ball_query data center r).
Proof. apply np_where_NoDup. Qed.

Lemma demo_ra : demo_points !! "ra" = Some (PArr [PFloat 0]).
Proof. reflexivity. Qed.

Lemma demo_dec : demo_points !! "dec" = Some (PArr [PFloat 0]).
Proof. reflexivity. Qed.

Lemma zero_in_range (l : list R) (v : R) :
  Forall (λ x, x = 0) l → v ∈ l → - (2 * PI) <= v <= 2 * PI.
Proof.
  rewrite Forall_forall. intros Hl Hv%Hl. subst. pose proof PI_RGT_0. lra.
Qed.

Lemma demo_tree (leaf : nat) :
  _buildTree [0] [0] leaf = Ok (sky_points [0] [0]).
Proof.
  apply (@_buildTree_in_range reference); try done.
  all: apply any_abs_gt_2pi_false; intros v Hv;
    by apply (zero_in_range [0]); [repeat constructor|].
Qed.

Lemma demo_query (center : point) (r : R) :
  center = _treexyz 0 0 → 0 <= r →
  ball_query (sky_points [0] [0]) center r = [0%nat].
Proof.
  intros -> Hr. unfold ball_query, sky_points.
  cbn [zip zip_with fmap list_fmap fst snd].
  by rewrite dist_self, bool_decide_true.
Qed.

Lemma demo_camera (ra : list R) (e : R) (cam : unit)
    (md : ObservationMetaData) :
  half_field_chip ra [0] e cam md = [demo_chip].
Proof.
  unfold half_field_chip. cbn [fmap list_fmap].
  by rewrite bool_decide_false by lra.
Qed.

Lemma demo_pointing :
  pointing_hits (set_opsimtree demo_prepared (sky_points [0] [0]))
    [0] [0] 0 0 0 59580
  = Ok [(0%nat, demo_chip)].
Proof.
  unfold pointing_hits, _treexyz, demo_prepared.
  cbn [opsimtree rad epoch camera chipsToUse set_opsimtree _setupLSSTCamera
       set_camera set_rad demo_slicer attr mbind result_bind radius
       query_ball_point _chipNameFromRaDec reference].
  rewrite (demo_query _ _ eq_refl (_setRad_nonneg _)).
  cbn [length]. rewrite bool_decide_true by lia.
  cbn [np_take mapM lookup list_lookup mbind result_bind mret result_ret].
  by rewrite demo_camera.
Qed.

(** The footprint build on two pointings at the slice point: both land on
    the chip, in input order. *)
Lemma demo_preslice :
  _presliceFootprint demo_prepared demo_data = Ok demo_footprint_ready.
Proof.
  unfold _presliceFootprint, dict_get, demo_data.
  change (slicePoints demo_prepared) with demo_points.
  change (leafsize demo_prepared) with 100%nat.
  change (nslice demo_prepared) with 1%nat.
  rewrite demo_ra, demo_dec.
  cbn [mbind result_bind as_floats mapM as_float mret result_ret].
  rewrite demo_tree.
  cbn [mbind result_bind length seq zip zip_with for_each id fieldRA
       fieldDec demo_obs rotSkyPos observationStartMJD latLonDeg
       set_opsimtree demo_prepared _setupLSSTCamera set_camera set_rad
       demo_slicer].
  fold demo_prepared. rewrite demo_pointing.
  cbn [mbind result_bind record_hits for_each append_at replicate lookup
       list_lookup alter list_alter fst snd app].
  reflexivity.
Qed.

Lemma demo_footprint_setup :
  setupSlicer (demo_slicer true) demo_data None = Ok demo_footprint_ready.
Proof. apply demo_preslice. Qed.

Lemma demo_spatial_points : spatial_points demo_footprint_ready.
Proof.
  exists [PFloat 0], [PFloat 0].
  repeat split; try done; by repeat constructor.
Qed.

(** Without the camera footprint the index is over the two pointings, and
    the slice point matches both. *)
Lemma demo_tree_setup :
  setupSlicer (demo_slicer false) demo_data None = Ok demo_tree_ready.
Proof.
  unfold setupSlicer, demo_data.
  cbn [useCamera latLonDeg leafsize demo_slicer set_rad fmap list_fmap
       compose id fieldRA fieldDec demo_obs].
  rewrite _buildTree_in_range; try done.
  all: apply any_abs_gt_2pi_false; intros v Hv;
    by apply (zero_in_range [0; 0]); [repeat constructor|].
Qed.

Lemma demo_tree_spatial_points : spatial_points demo_tree_ready.
Proof.
  exists [PFloat 0], [PFloat 0].
  repeat split; try done; by repeat constructor.
Qed.

Lemma demo_tree_query :
  ∃ res, _sliceSimData demo_tree_ready 0 = Ok res ∧
         idxs res = [0%nat; 1%nat] ∧
         slicePoint res !! "sid" = Some (PInt 0).
Proof.
  unfold _sliceSimData, dict_get.
  cbn [useCamera slicePoints opsimtree rad nslice demo_tree_ready].
  rewrite demo_ra, demo_dec.
  cbn [mbind result_bind py_getitem as_float attr _treexyz
       query_ball_point kdtree reference].
  change (py_index [PFloat 0] 0%Z) with (Ok (PFloat 0)).
  cbn [mbind result_bind as_float].
  unfold ball_query, sky_points.
  cbn [zip zip_with fmap list_fmap fst snd _treexyz].
  rewrite dist_self, bool_decide_true by apply _setRad_nonneg.
  eexists. split; [vm_compute; reflexivity|]. by split.
Qed.

(** The reference instance honours the contracts the general theorems ask
    of the external libraries. *)
Lemma reference_contracts :
  (∀ tree center r, NoDup (query_ball_point tree center r)) ∧
  (∀ data leaf center r i,
     i ∈ query_ball_point (kdtree data leaf) center r →
     (i < length data)%nat) ∧
  (∀ cand_ra cand_dec e cam md,
     length cand_ra = length cand_dec →
     length (_chipNameFromRaDec cand_ra cand_dec e cam md) = length cand_ra).
Proof.
  split; [apply ball_query_NoDup|]. split.
  - intros data leaf center r i Hi. simpl in Hi. unfold ball_query in Hi.
    pose proof (np_where_in_bounds
                  ((λ p, bool_decide (dist p center <= r)) <$> data)) as Hb.
    rewrite Forall_forall in Hb. apply Hb in Hi.
    by rewrite length_fmap in Hi.
  - intros cand_ra cand_dec e cam md Hlen. simpl. unfold half_field_chip.
    by rewrite length_fmap.
Qed.

Lemma demo_no_observations :
  ∃ s', setupSlicer (demo_slicer true) [] None = Ok s' ∧
        sliceLookup s' = [[]] ∧ chipNames s' = [[]].
Proof.
  apply (setupSlicer_footprint_no_observations (demo_slicer true) None
           (PArr [PFloat 0]) (PArr [PFloat 0]) [0] [0]); try done.
  intros v [Hv|Hv]; by apply (zero_in_range [0]); [repeat constructor|].
Qed.

(** C1 fails as stated: on the slicers set up over [demo_data], with and
    without the camera footprint, [query(-1)] does not raise [IndexError],
    it returns the observations of the last slice point. *)
Lemma query_minus_one_counterexample :
  (setupSlicer (demo_slicer true) demo_data None = Ok demo_footprint_ready ∧
   ∃ res, _sliceSimData demo_footprint_ready (-1) = Ok res ∧
          idxs res = [0%nat; 1%nat]) ∧
  (setupSlicer (demo_slicer false) demo_data None = Ok demo_tree_ready ∧
   ∃ res, _sliceSimData demo_tree_ready (-1) = Ok res ∧
          idxs res = [0%nat; 1%nat]).
Proof.
  split.
  - split; [apply demo_footprint_setup|].
    eexists. split; [vm_compute; reflexivity | reflexivity].
  - split; [apply demo_tree_setup|].
    destruct demo_tree_query as (res & Hres & Hidxs & _).
    exists res. split; [|done].
    rewrite (_sliceSimData_negative (demo_slicer false) demo_data None);
      [done|apply demo_tree_setup|apply demo_tree_spatial_points|simpl; lia].
Qed.

(** On the one-point footprint slicer, [query(1)] raises [IndexError] and
    [query(-1)] is [query(0)]. *)
Lemma sliceSimData_index_error_witness :
  _sliceSimData demo_footprint_ready 1 = Raise IndexError ∧
  ∃ res, _sliceSimData demo_footprint_ready (-1) = Ok res ∧
         _sliceSimData demo_footprint_ready (-1 + 1) = Ok res.
Proof.
  split.
  - apply (sliceSimData_index_error (demo_slicer true) demo_data None
             demo_footprint_ready 1 demo_footprint_setup
             demo_spatial_points).
    simpl. lia.
  - apply (sliceSimData_index_error (demo_slicer true) demo_data None
             demo_footprint_ready (-1) demo_footprint_setup
             demo_spatial_points).
    simpl. lia.
Defined.

(** On the one-point footprint slicer, [query(0)] binds [ra] to the
    coordinate of slice point 0. *)
Lemma sliceSimData_metadata_witness :
  ∃ res, _sliceSimData demo_footprint_ready 0 = Ok res ∧
         slicePoint res !! "ra" = Some (PFloat 0).
Proof.
  destruct (sliceSimData_metadata (demo_slicer true) demo_data None
              demo_footprint_ready 0 demo_footprint_setup
              demo_spatial_points) as (res & Hres & Hmeta).
  { simpl. lia. }
  exists res. split; [done|].
  destruct (Hmeta "ra" (PArr [PFloat 0]) demo_ra) as [Hper _].
  destruct (Hper eq_refl) as (elts & e & [= <-] & [= <-] & Hkey).
  exact Hkey.
Defined.

(** C2 fails as stated: with the camera footprint, [setupSlicer] on an
    empty observation set raises nothing. *)
Lemma setupSlicer_footprint_empty_counterexample :
  (∃ s', setupSlicer (demo_slicer true) [] None = Ok s' ∧
         sliceLookup s' = [[]] ∧ chipNames s' = [[]]) ∧
  ¬ InvalidInputError (setupSlicer (demo_slicer true) [] None).
Proof.
  split; [apply demo_no_observations|].
  destruct demo_no_observations as (s' & -> & _). by intros [msg ?].
Qed.

(** The two modes on an empty observation set. *)
Lemma setupSlicer_empty_input_witness :
  setupSlicer (demo_slicer false) [] None
  = Raise (ValueError "SimDataRA and Dec should have length greater than 0.") ∧
  ∃ s', setupSlicer (demo_slicer true) [] None = Ok s' ∧
        sliceLookup s' = replicate 1 [] ∧ chipNames s' = replicate 1 [].
Proof.
  split.
  - by apply (proj1 (setupSlicer_empty_input (demo_slicer false) None)).
  - destruct (setupSlicer_empty_input (demo_slicer true) None)
      as (_ & _ & _ & Hfootprint).
    apply (Hfootprint eq_refl (PArr [PFloat 0]) (PArr [PFloat 0]) [0] [0]);
      try done.
    intros v [Hv|Hv]; by apply (zero_in_range [0]); [repeat constructor|].
Defined.

(** The lookup table of the demo build, claim by claim. *)
Lemma footprint_chip_on_detector_witness :
  _presliceFootprint demo_prepared demo_data = Ok demo_footprint_ready ∧
  ∃ names name,
    chipNames demo_footprint_ready !! 0%nat = Some names ∧
    names !! 1%nat = Some name ∧ name ≠ None ∧
    ∀ allowed, chipsToUse demo_footprint_ready = Chips allowed →
               ∃ chip, name = Some chip ∧ chip ∈ allowed.
Proof.
  split; [apply demo_preslice|].
  by apply (footprint_chip_on_detector demo_prepared demo_data
              demo_footprint_ready 0 1 1 [0; 1]%nat demo_preslice).
Defined.

Lemma footprint_entry_sorted_witness :
  _presliceFootprint demo_prepared demo_data = Ok demo_footprint_ready ∧
  sliceLookup demo_footprint_ready !! 0%nat = Some [0; 1]%nat ∧
  (0 ≤ 1)%nat.
Proof.
  split; [apply demo_preslice|]. split; [done|].
  by apply (footprint_entry_sorted demo_prepared demo_data
              demo_footprint_ready 0 0 1 0 1 [0; 1]%nat demo_preslice);
    [|lia| |].
Defined.

Lemma footprint_entries_same_length_witness :
  ∃ entry names,
    sliceLookup demo_footprint_ready !! 0%nat = Some entry ∧
    chipNames demo_footprint_ready !! 0%nat = Some names ∧
    length entry = length names.
Proof.
  apply (footprint_entries_same_length demo_prepared demo_data
           demo_footprint_ready 0 demo_preslice).
  simpl. lia.
Defined.

Lemma footprint_entry_distinct_in_range_witness :
  NoDup [0; 1]%nat ∧
  (∀ j1 j2 a b : nat,
     (j1 < j2)%nat → [0; 1]%nat !! j1 = Some a → [0; 1]%nat !! j2 = Some b →
     (a < b)%nat) ∧
  ∀ ind : nat, ind ∈ [0; 1]%nat → (0 ≤ ind < length demo_data)%nat.
Proof.
  by apply (footprint_entry_distinct_in_range demo_prepared demo_data
              demo_footprint_ready 0 [0; 1]%nat ball_query_NoDup
              demo_preslice).
Defined.

(** A longitude of 9 radians is rejected, the origin is indexed. *)
Lemma buildTree_range_check_witness :
  _buildTree [9] [0] 100
  = Raise (ValueError "Expecting RA and Dec values to be in radians.") ∧
  ∃ tree, _buildTree [0] [0] 100 = Ok tree.
Proof.
  split.
  - apply (buildTree_range_check [9] [0] 100). exists 9. split.
    + left. by apply list_elem_of_singleton.
    + rewrite Rabs_pos_eq by lra. pose proof PI_4. lra.
  - apply (buildTree_range_check [0] [0] 100); [|done..].
    intros v [Hv|Hv]; by apply (zero_in_range [0]); [repeat constructor|].
Defined.

End Demo.

(** ** Chord radius and great-circle separation *)

Section Separation.
Local Open Scope R_scope.







(** X2: in the exact reading of the arithmetic the chord radius lies in
    [0, 2], and a negative angular radius gives the chord radius of its
    absolute value. *)
Theorem setRad_bounded_even (r : R) :
  0 <= _setRad r <= 2 ∧ _setRad (- r) = _setRad r.
Proof.
  rewrite !_setRad_chord. split.
  - split; [apply sqrt_pos|].
    pose proof (COS_bound (radians r)) as [Hlow Hup].
    replace 2 with (sqrt (2 * 2)) at 3 by (apply sqrt_square; lra).
    apply sqrt_le_1; lra.
  - unfold radians. by rewrite Ropp_mult_distr_l_reverse, cos_neg.
Qed.

End Separation.

(** ** The query without the camera footprint *)

Section TreeQuery.
Context `{Externals}.
Implicit Types (s : slicer) (simData : list observation) (islice : Z).
Local Open Scope R_scope.

(** What [setupSlicer] has done to the slicer when it reaches the index
    construction. *)
Lemma setupSlicer_prepared s simData maps :
  ∃ s1,
    (latLonDeg s1 = latLonDeg s ∧ useCamera s1 = useCamera s ∧
     radius s1 = radius s ∧ leafsize s1 = leafsize s ∧
     chipsToUse s1 = chipsToUse s ∧ cacheSize s1 = cacheSize s ∧
     nslice s1 = nslice s) ∧
    slicePoints s1 = points_after_maps s maps ∧
    rad s1 = Some (_setRad (radius s)) ∧
    (opsimtree s1 = opsimtree s ∧ camera s1 = camera s ∧
     epoch s1 = epoch s ∧ sliceLookup s1 = sliceLookup s ∧
     chipNames s1 = chipNames s) ∧
    warned s1 = warned s ++ (if warns s maps then [cache_warning] else []) ∧
    setupSlicer s simData maps
    = if useCamera s then _presliceFootprint (_setupLSSTCamera s1) simData
      else
        tree ← _buildTree ((pointing s <$> simData).*1)
                          ((pointing s <$> simData).*2) (leafsize s);
        Ok (set_opsimtree s1 tree).
Proof.
  assert ((if latLonDeg s then radians else id) ∘ fieldRA <$> simData
          = (pointing s <$> simData).*1) as Hra
    by (by rewrite <- list_fmap_compose).
  assert ((if latLonDeg s then radians else id) ∘ fieldDec <$> simData
          = (pointing s <$> simData).*2) as Hdec
    by (by rewrite <- list_fmap_compose).
  rewrite <- Hra, <- Hdec. unfold setupSlicer, warns. destruct maps as [maps|].
  - destruct (bool_decide _ && bool_decide _).
    + eexists (set_rad (_runMaps (warn s _) maps) _). by repeat split.
    + eexists (set_rad (_runMaps s maps) _). simpl.
      rewrite app_nil_r. by repeat split.
  - eexists (set_rad s _). simpl. rewrite app_nil_r. by repeat split.
Qed.

Lemma _buildTree_Ok_inv (ra dec : list R) (leaf : nat) (tree : KDTree) :
  _buildTree ra dec leaf = Ok tree → length ra = length dec →
  tree = kdtree (sky_points ra dec) leaf ∧ ra ≠ [] ∧
  any_abs_gt_2pi ra = false ∧ any_abs_gt_2pi dec = false.
Proof.
  intros Hrun Hlen. unfold _buildTree, _treexyz_arr in Hrun.
  destruct (any_abs_gt_2pi ra) eqn:Hra; [done|].
  destruct (any_abs_gt_2pi dec) eqn:Hdec; [done|]. simpl in Hrun.
  rewrite !np_mul_same_length in Hrun by (by rewrite !length_fmap).
  simpl in Hrun. rewrite zip_xyz in Hrun.
  case_bool_decide as Hsize; [|done]. injection Hrun as <-.
  repeat split; try done. intros ->. simpl in Hsize. lia.
Qed.

Lemma sky_points_lookup {A} (f g : A → R) (l : list A) (k : nat) :
  sky_points (f <$> l) (g <$> l) !! k
  = (λ a, _treexyz (f a) (g a)) <$> l !! k.
Proof.
  unfold sky_points. revert k.
  induction l as [|a l IH]; intros [|k]; simpl; done.
Qed.

Lemma sky_points_pointing s simData (k : nat) :
  sky_points ((pointing s <$> simData).*1) ((pointing s <$> simData).*2) !! k
  = (λ o, _treexyz (pointing s o).1 (pointing s o).2) <$> simData !! k.
Proof. by rewrite <- !list_fmap_compose, sky_points_lookup. Qed.

(** The observation indices a query returns without the camera
    footprint: the ball query at the projected slice point. *)
Lemma _sliceSimData_tree_idxs s islice (tree : KDTree) (r : R) :
  useCamera s = false → spatial_points s →
  (0 ≤ islice < Z.of_nat (nslice s))%Z →
  opsimtree s = Some tree → rad s = Some r →
  ∃ res ra dec,
    _sliceSimData s islice = Ok res ∧
    slice_coordinates s (Z.to_nat islice) = Some (ra, dec) ∧
    idxs res = query_ball_point tree (_treexyz ra dec) r ∧
    dom (slicePoint res) = dom (slicePoints s).
Proof.
  intros Hmode (ras & decs & Hra & Hdec & Hlra & Hldec & Hnra & Hndec) Hi
    Htree Hrad.
  unfold _sliceSimData, slice_coordinates, dict_get.
  rewrite Hmode, Hra, Hdec. simpl.
  destruct (py_index_in_range ras islice) as (ra_i & Hra_i & ->); [lia|].
  destruct (py_index_in_range decs islice) as (dec_i & Hdec_i & ->); [lia|].
  rewrite Hra_i, Hdec_i. simpl.
  rewrite Forall_forall in Hnra, Hndec.
  pose proof (Hnra _ (list_elem_of_lookup_2 _ _ _ Hra_i)) as Hnum_ra.
  pose proof (Hndec _ (list_elem_of_lookup_2 _ _ _ Hdec_i)) as Hnum_dec.
  assert (∃ ra, as_float ra_i = Ok ra) as [ra Hra_f]
    by (destruct ra_i; try done; by eexists).
  assert (∃ dec, as_float dec_i = Ok dec) as [dec Hdec_f]
    by (destruct dec_i; try done; by eexists).
  rewrite Hra_f, Hdec_f, Htree, Hrad. simpl.
  destruct (metadata_loop (nslice s) islice (map_to_list (slicePoints s)) ∅)
    as (sp & -> & Hin & Hout).
  { apply NoDup_fst_map_to_list. }
  { intros [key v] Hitem%elem_of_map_to_list. simpl.
    destruct (decide (leading_dimension v = nslice s)) as [Hdim|Hdim].
    - destruct (slicePoint_entry_per_point _ islice v Hi Hdim)
        as (elts & e & _ & _ & ->). by eexists.
    - rewrite slicePoint_entry_shared by done. by eexists. }
  simpl. eexists _, ra, dec. split; [done|]. split; [done|]. split; [done|].
  simpl. apply set_eq. intros key. rewrite !elem_of_dom.
  destruct (slicePoints s !! key) as [v|] eqn:Hkey.
  - apply elem_of_map_to_list in Hkey.
    destruct (Hin key v Hkey) as (v' & _ & ->). split; by eexists.
  - rewrite Hout, lookup_empty; [done|].
    intros (item & -> & Hitem)%list_elem_of_fmap.
    destruct item as [key' v']. apply elem_of_map_to_list in Hitem.
    simpl in Hkey. congruence.
Qed.

(** The index of the run without the camera footprint holds the
    projections of the observations, in input order. *)
Lemma setupSlicer_tree_index s0 simData maps s :
  useCamera s0 = false → setupSlicer s0 simData maps = Ok s →
  useCamera s = false ∧ nslice s = nslice s0 ∧
  rad s = Some (_setRad (radius s0)) ∧
  opsimtree s
  = Some (kdtree (sky_points ((pointing s0 <$> simData).*1)
                             ((pointing s0 <$> simData).*2)) (leafsize s0)).
Proof.
  intros Hmode.
  destruct (setupSlicer_prepared s0 simData maps)
    as (s1 & (_ & Hcam & _ & _ & _ & _ & Hn) & _ & Hrad & _ & _ & ->).
  rewrite Hmode. intros Hrun. inv_bind Hrun as tree Htree.
  injection Hrun as <-. simpl.
  apply _buildTree_Ok_inv in Htree as (-> & _); [|by rewrite !length_fmap].
  repeat split; congruence.
Qed.

(** The observations a query returns without the camera footprint, read
    through the contract of the ball query. *)
Lemma tree_query_spec s0 simData maps s islice :
  useCamera s0 = false → setupSlicer s0 simData maps = Ok s →
  spatial_points s → (0 ≤ islice < Z.of_nat (nslice s))%Z →
  ∃ res ra dec,
    _sliceSimData s islice = Ok res ∧
    slice_coordinates s (Z.to_nat islice) = Some (ra, dec) ∧
    idxs res
    = query_ball_point
        (kdtree (sky_points ((pointing s0 <$> simData).*1)
                            ((pointing s0 <$> simData).*2)) (leafsize s0))
        (_treexyz ra dec) (_setRad (radius s0)).
Proof.
  intros Hmode Hsetup Hpoints Hi.
  destruct (setupSlicer_tree_index _ _ _ _ Hmode Hsetup)
    as (Hmode' & _ & Hrad & Htree).
  destruct (_sliceSimData_tree_idxs s islice _ _ Hmode' Hpoints Hi Htree Hrad)
    as (res & ra & dec & Hres & Hcoord & Hidxs & _).
  by exists res, ra, dec.
Qed.


(** X4: without the camera footprint, an observation at the position of
    the slice point is among the matches of that slice point, whatever
    the radius, when the ball query returns every indexed point within
    its radius. *)
Theorem tree_query_self_match s0 simData maps s islice (k : nat)
    (o : observation) :
  (∀ data leaf center r i p,
     data !! i = Some p → dist p center <= r →
     i ∈ query_ball_point (kdtree data leaf) center r) →
  useCamera s0 = false → setupSlicer s0 simData maps = Ok s →
  spatial_points s → (0 ≤ islice < Z.of_nat (nslice s))%Z →
  simData !! k = Some o →
  slice_coordinates s (Z.to_nat islice) = Some (pointing s0 o) →
  ∃ res, _sliceSimData s islice = Ok res ∧ k ∈ idxs res.
Proof.
  intros Hquery Hmode Hsetup Hpoints Hi Hk Hsame.
  destruct (tree_query_spec _ _ _ _ _ Hmode Hsetup Hpoints Hi)
    as (res & ra & dec & Hres & Hcoord & Hidxs).
  exists res. split; [done|]. rewrite Hidxs.
  rewrite Hsame in Hcoord. injection Hcoord as Hra Hdec.
  apply (Hquery _ _ _ _ _ (_treexyz ra dec)).
  - rewrite sky_points_pointing, Hk. simpl. by rewrite <- Hra, <- Hdec.
  - rewrite dist_self. apply _setRad_nonneg.
Qed.

End TreeQuery.

(** ** What the footprint lookup table holds *)

Section FootprintExact.
Context `{Externals}.
Implicit Types (s : slicer) (simData : list observation)
  (hits : list (nat * chipName)).

Lemma elem_of_zip_lookup {A B} (l : list A) (k : list B) (x : A) (y : B) :
  (x, y) ∈ zip l k ↔ ∃ j, l !! j = Some x ∧ k !! j = Some y.
Proof.
  rewrite list_elem_of_lookup. by setoid_rewrite lookup_zip_Some.
Qed.

(** Indexing two arrays with the same positions keeps their elements
    paired. *)
Lemma np_take_pairs {A B} (a : list A) (b : list B) (idx : list nat)
    (xs : list A) (ys : list B) (x : A) (y : B) :
  np_take a idx = Ok xs → np_take b idx = Ok ys →
  (x, y) ∈ zip xs ys ↔ ∃ q, q ∈ idx ∧ a !! q = Some x ∧ b !! q = Some y.
Proof.
  intros Hxs%np_take_Forall2 Hys%np_take_Forall2.
  rewrite elem_of_zip_lookup. split.
  - intros (j & Hx & Hy).
    destruct (Forall2_lookup_r _ _ _ _ _ Hxs Hx) as (q & Hq & Hax).
    destruct (Forall2_lookup_r _ _ _ _ _ Hys Hy) as (q' & Hq' & Hby).
    exists q. split; [by eapply list_elem_of_lookup_2|]. split; [done|].
    congruence.
  - intros (q & [j Hj]%list_elem_of_lookup & Hax & Hby).
    destruct (Forall2_lookup_l _ _ _ _ _ Hxs Hj) as (x' & Hx & Hax').
    destruct (Forall2_lookup_l _ _ _ _ _ Hys Hj) as (y' & Hy & Hby').
    exists j. split; congruence.
Qed.

(** Selecting with a mask computed from the second array. *)
Lemma np_take_masked_pairs {A B} (P : B → bool) (a : list A) (b : list B)
    (xs : list A) (ys : list B) (x : A) (y : B) :
  np_take a (np_where (P <$> b)) = Ok xs →
  np_take b (np_where (P <$> b)) = Ok ys →
  (x, y) ∈ zip xs ys ↔ (x, y) ∈ zip a b ∧ P y = true.
Proof.
  intros Hxs Hys. rewrite (np_take_pairs _ _ _ _ _ _ _ Hxs Hys).
  rewrite elem_of_zip_lookup. split.
  - intros (q & Hq%np_where_elem & Hax & Hby).
    rewrite list_lookup_fmap, Hby in Hq. injection Hq as Hq. eauto.
  - intros [(q & Hax & Hby) HP]. exists q. split; [|done].
    apply np_where_elem. by rewrite list_lookup_fmap, Hby, <- HP.
Qed.

(** The run of one turn of the loop over the pointings, stage by stage. *)
Lemma pointing_hits_run s (slice_ra slice_dec : list R) (ra dec rot mjd : R)
    hits :
  pointing_hits s slice_ra slice_dec ra dec rot mjd = Ok hits →
  ∃ tree r,
    opsimtree s = Some tree ∧ rad s = Some r ∧
    let hpIndices0 := query_ball_point tree (_treexyz ra dec) r in
    (hpIndices0 = [] ∧ hits = []) ∨
    ∃ e cam cand_ra cand_dec (names1 : list chipName) (hpIndices1 : list nat),
      epoch s = Some e ∧ camera s = Some cam ∧
      np_take slice_ra hpIndices0 = Ok cand_ra ∧
      np_take slice_dec hpIndices0 = Ok cand_dec ∧
      let names0 :=
        _chipNameFromRaDec cand_ra cand_dec e cam
          {| pointingRA := degrees ra; pointingDec := degrees dec;
             md_rotSkyPos := degrees rot; md_mjd := mjd |} in
      match chipsToUse s with
      | AllChips => names1 = names0 ∧ hpIndices1 = hpIndices0
      | Chips allowed =>
          let checked :=
            (λ c : chipName, match c with
                             | Some name => bool_decide (name ∈ allowed)
                             | None => false
                             end) <$> names0 in
          np_take names0 (np_where checked) = Ok names1 ∧
          np_take hpIndices0 (np_where checked) = Ok hpIndices1
      | ChipArray _ _ _ => False
      end ∧
      ∃ hpOnChip onChipNames,
        let good :=
          np_where ((λ c : chipName, bool_decide (c ≠ None)) <$> names1) in
        np_take hpIndices1 good = Ok hpOnChip ∧
        np_take names1 good = Ok onChipNames ∧
        hits = zip hpOnChip onChipNames.
Proof.
  unfold pointing_hits. simpl. intros Hrun.
  inv_bind Hrun as tree Htree. inv_bind Hrun as r Hr.
  destruct (opsimtree s) as [tree'|]; [|done]. injection Htree as ->.
  destruct (rad s) as [r'|]; [|done]. injection Hr as ->.
  exists tree, r. split; [done|]. split; [done|]. simpl.
  case_bool_decide as Hsize.
  - right.
    inv_bind Hrun as cand_ra Hcra. inv_bind Hrun as cand_dec Hcdec.
    inv_bind Hrun as e He. inv_bind Hrun as cam Hcam.
    inv_bind Hrun as filtered Hfiltered. destruct filtered as [names1 hp1].
    inv_bind Hrun as hpOnChip HhpOnChip. inv_bind Hrun as onChip HonChip.
    injection Hrun as <-.
    destruct (epoch s) as [e'|]; [|done]. injection He as ->.
    destruct (camera s) as [cam'|]; [|done]. injection Hcam as ->.
    exists e, cam, cand_ra, cand_dec, names1, hp1.
    do 4 (split; [done|]). split; [|by exists hpOnChip, onChip].
    destruct (chipsToUse s) as [|allowed|first second rest].
    + by injection Hfiltered as <- <-.
    + inv_bind Hfiltered as names' Hnames'. inv_bind Hfiltered as hp' Hhp'.
      by injection Hfiltered as <- <-.
    + done.
  - left. injection Hrun as <-. split; [|done].
    destruct (query_ball_point tree _ r); [done|]. simpl in Hsize. lia.
Qed.

(** The pairs one pointing contributes: the candidates of the ball query
    the camera puts on an accepted detector. *)
Lemma pointing_hits_exact s (slice_ra slice_dec : list R) (o : observation)
    hits (i : nat) (c : chipName) :
  pointing_hits s slice_ra slice_dec (pointing s o).1 (pointing s o).2
    (rotSkyPos o) (observationStartMJD o) = Ok hits →
  (i, c) ∈ hits ↔ on_chip s slice_ra slice_dec o i c.
Proof.
  intros (tree & r & Htree & Hr & Hstages)%pointing_hits_run.
  unfold on_chip. destruct Hstages as [[Hnone ->]|Hstages].
  { split; [by intros ?%elem_of_nil|].
    intros (tree' & r' & e & cam & cra & cdec & p & Ht & Hr' & _ & _ & Hon).
    simpl in Hon. destruct Hon as (_ & _ & Hp & _).
    assert (tree' = tree) as -> by congruence.
    assert (r' = r) as -> by congruence.
    simpl in Hnone. by rewrite Hnone in Hp. }
  destruct Hstages
    as (e & cam & cand_ra & cand_dec & names1 & hp1 & He & Hcam & Hcra
        & Hcdec & Hfilter & hpOnChip & onChip & HhpOnChip & HonChip & ->).
  simpl in *.
  rewrite (np_take_masked_pairs _ _ _ _ _ _ _ HhpOnChip HonChip).
  rewrite bool_decide_eq_true.
  assert ((i, c) ∈ zip hp1 names1 ↔
          (i, c) ∈ zip (query_ball_point tree
                          (_treexyz (pointing s o).1 (pointing s o).2) r)
                       (_chipNameFromRaDec cand_ra cand_dec e cam
                          {| pointingRA := degrees (pointing s o).1;
                             pointingDec := degrees (pointing s o).2;
                             md_rotSkyPos := degrees (rotSkyPos o);
                             md_mjd := observationStartMJD o |}) ∧
          ∀ allowed, allowed_names (chipsToUse s) = Some allowed →
                     ∃ name, c = Some name ∧ name ∈ allowed) as ->.
  { destruct (chipsToUse s) as [|allowed|first second rest]; [| |done].
    - destruct Hfilter as [-> ->]. naive_solver.
    - destruct Hfilter as [Hnames1 Hhp1].
      rewrite (np_take_masked_pairs _ _ _ _ _ _ _ Hhp1 Hnames1). split.
      + intros [Hin Hcheck]. split; [done|]. intros allowed' [= <-].
        destruct c as [name|]; [|done]. exists name. split; [done|].
        by apply bool_decide_eq_true in Hcheck.
      + intros [Hin Hallowed]. split; [done|].
        destruct (Hallowed allowed eq_refl) as (name & -> & Hname).
        by apply bool_decide_eq_true. }
  rewrite elem_of_zip_lookup. unfold chip_accepted. split.
  - intros [[(p & Hi & Hc) Hallowed] Hsome].
    exists tree, r, e, cam, cand_ra, cand_dec, p. by repeat split.
  - intros (tree' & r' & e' & cam' & cra & cdec & p & Ht & Hr' & He' & Hcam'
            & Hcra' & Hcdec' & Hi & Hc & Hsome & Hallowed).
    assert (tree' = tree) as -> by congruence.
    assert (r' = r) as -> by congruence.
    assert (e' = e) as -> by congruence.
    assert (cam' = cam) as -> by congruence.
    assert (cra = cand_ra) as -> by congruence.
    assert (cdec = cand_dec) as -> by congruence.
    split; [|done]. split; [by exists p | done].
Qed.

Lemma elem_of_zip_replicate {B} (m k k' : nat) (l : list B) (y : B) :
  length l = m → (k', y) ∈ zip (replicate m k) l ↔ k' = k ∧ y ∈ l.
Proof.
  intros Hlen. rewrite elem_of_zip_lookup, list_elem_of_lookup. split.
  - intros (j & [-> _]%lookup_replicate & Hy). eauto.
  - intros [-> [j Hj]]. exists j. split; [|done].
    apply lookup_replicate_2. rewrite <- Hlen. by eapply lookup_lt_Some.
Qed.

Lemma pairs_ok_step s (slice_ra slice_dec : list R) simData (k : nat)
    (o : observation) tables hits tables' :
  simData !! k = Some o →
  pointing_hits s slice_ra slice_dec (pointing s o).1 (pointing s o).2
    (rotSkyPos o) (observationStartMJD o) = Ok hits →
  pairs_ok s slice_ra slice_dec simData k tables →
  record_hits k tables hits = Ok tables' →
  pairs_ok s slice_ra slice_dec simData (S k) tables'.
Proof.
  intros Ho Hhits Hinv Hrun i entry' names' Hentry' Hnames'.
  destruct (record_hits_lookup _ _ _ _ Hrun) as (_ & _ & Hlook).
  destruct (Hlook i) as [H1 H2]. rewrite H1 in Hentry'. rewrite H2 in Hnames'.
  destruct (tables.1 !! i) as [entry|] eqn:Hentry; [|done].
  destruct (tables.2 !! i) as [names|] eqn:Hnames; [|done].
  simpl in Hentry', Hnames'. injection Hentry' as <-. injection Hnames' as <-.
  destruct (Hinv i entry names Hentry Hnames) as [Hlen Hpairs].
  split.
  { rewrite !length_app, length_replicate, length_fmap. lia. }
  intros k' c. rewrite zip_with_app by done. rewrite elem_of_app, Hpairs.
  rewrite elem_of_zip_replicate by (by rewrite length_fmap).
  rewrite list_elem_of_fmap. split.
  - intros [(Hlt & o' & Ho' & Hon)|[-> (hit & -> & Hhit)]].
    + split; [lia|]. by exists o'.
    + split; [lia|]. exists o. split; [done|].
      apply list_elem_of_filter in Hhit as [Hi Hhit]. destruct hit as [i' c'].
      simpl in Hi. subst i'. by apply (pointing_hits_exact _ _ _ _ _ _ _ Hhits).
  - intros (Hlt & o' & Ho' & Hon).
    destruct (decide (k' = k)) as [->|Hne].
    + right. split; [done|]. assert (o' = o) as -> by congruence.
      exists (i, c). split; [done|]. apply list_elem_of_filter.
      split; [done|]. by apply (pointing_hits_exact _ _ _ _ _ _ _ Hhits).
    + left. split; [lia|]. by exists o'.
Qed.

(** The footprint build, with its index and its table of pairs. *)
Lemma _presliceFootprint_pairs s simData s' :
  _presliceFootprint s simData = Ok s' →
  ∃ (slice_ra slice_dec : list R) (tree : KDTree),
    (dict_get (slicePoints s') "ra" ≫= as_floats) = Ok slice_ra ∧
    (dict_get (slicePoints s') "dec" ≫= as_floats) = Ok slice_dec ∧
    _buildTree slice_ra slice_dec (leafsize s) = Ok tree ∧
    opsimtree s' = Some tree ∧
    pairs_ok s' slice_ra slice_dec simData (length simData)
      (sliceLookup s', chipNames s').
Proof.
  intros Hrun. unfold _presliceFootprint in Hrun.
  inv_bind Hrun as ra_v Hra_v. inv_bind Hrun as dec_v Hdec_v.
  inv_bind Hrun as slice_ra Hslice_ra. inv_bind Hrun as slice_dec Hslice_dec.
  inv_bind Hrun as tree Htree. inv_bind Hrun as tables Hloop.
  injection Hrun as <-. exists slice_ra, slice_dec, tree. simpl.
  rewrite Hra_v, Hdec_v. simpl. do 4 (split; [done|]).
  apply for_each_invariant
    with (P := pairs_ok (set_opsimtree s tree) slice_ra slice_dec simData)
    in Hloop.
  - rewrite length_zip, length_seq, Nat.min_id in Hloop. by destruct tables.
  - intros i entry names Hentry Hnames. simpl in *.
    apply lookup_replicate in Hentry as [-> _].
    apply lookup_replicate in Hnames as [-> _].
    split; [done|]. intros k c. simpl. split; [by intros ?%elem_of_nil|lia].
  - intros k [ind o] tables1 tables2 Hrow Hinv Hbody.
    apply lookup_zip_Some in Hrow as [Hind Ho].
    apply lookup_seq in Hind as [-> _]. simpl in Hbody.
    inv_bind Hbody as hits Hhits.
    by eapply (pairs_ok_step _ _ _ _ _ o).
Qed.

(** X5: after the footprint build, the pair (observation [k], chip [c])
    stands at some position of the entries of slice point [i] exactly when
    [k] is an observation whose ball query returns [i] and for which the
    camera puts [i] on [c], a detector the slicer accepts. *)
Theorem footprint_lookup_exact s simData s' (i : nat) (entry : list nat)
    (names : list chipName) :
  _presliceFootprint s simData = Ok s' →
  sliceLookup s' !! i = Some entry → chipNames s' !! i = Some names →
  ∃ slice_ra slice_dec : list R,
    (dict_get (slicePoints s') "ra" ≫= as_floats) = Ok slice_ra ∧
    (dict_get (slicePoints s') "dec" ≫= as_floats) = Ok slice_dec ∧
    ∀ k c, (k, c) ∈ zip entry names ↔
           ∃ o, simData !! k = Some o ∧ on_chip s' slice_ra slice_dec o i c.
Proof.
  intros Hrun Hentry Hnames.
  destruct (_presliceFootprint_pairs _ _ _ Hrun)
    as (slice_ra & slice_dec & tree & Hra & Hdec & _ & _ & Hpairs).
  exists slice_ra, slice_dec. split; [done|]. split; [done|].
  destruct (Hpairs i entry names Hentry Hnames) as [_ Hiff].
  intros k c. rewrite Hiff. split; [naive_solver|].
  intros (o & Ho & Hon). split; [by eapply lookup_lt_Some | by exists o].
Qed.

End FootprintExact.

(** ** The query with the camera footprint *)

Section FootprintQuery.
Context `{Externals}.
Implicit Types (s : slicer) (simData : list observation) (islice : Z).
Local Open Scope R_scope.

(** The footprint build assigns the index and the two tables, nothing
    else. *)
Lemma _presliceFootprint_frame s simData s' :
  _presliceFootprint s simData = Ok s' →
  (latLonDeg s' = latLonDeg s ∧ useCamera s' = useCamera s ∧
   radius s' = radius s ∧ leafsize s' = leafsize s ∧
   chipsToUse s' = chipsToUse s ∧ cacheSize s' = cacheSize s ∧
   nslice s' = nslice s) ∧
  slicePoints s' = slicePoints s ∧ rad s' = rad s ∧
  camera s' = camera s ∧ epoch s' = epoch s ∧ warned s' = warned s.
Proof.
  intros Hrun. unfold _presliceFootprint in Hrun.
  inv_bind Hrun as ra_v Hra_v. inv_bind Hrun as dec_v Hdec_v.
  inv_bind Hrun as slice_ra Hslice_ra. inv_bind Hrun as slice_dec Hslice_dec.
  inv_bind Hrun as tree Htree. inv_bind Hrun as tables Hloop.
  injection Hrun as <-. simpl. by repeat split.
Qed.

Lemma mapM_Ok_Forall2 {A B} (f : A → result B) (l : list A) (k : list B) :
  mapM f l = Ok k → Forall2 (λ x y, f x = Ok y) l k.
Proof.
  revert k. induction l as [|x l IH]; intros k Hrun; simpl in Hrun.
  - injection Hrun as <-. constructor.
  - inv_bind Hrun as y Hy. inv_bind Hrun as k' Hk'. injection Hrun as <-.
    constructor; [done | by apply IH].
Qed.

Lemma as_floats_array (v : pyval) (xs : list R) :
  as_floats v = Ok xs →
  ∃ elts, v = PArr elts ∧ Forall2 (λ e x, as_float e = Ok x) elts xs.
Proof.
  destruct v as [| | | |elts]; try done. simpl. intros Hrun.
  exists elts. split; [done | by apply mapM_Ok_Forall2].
Qed.

(** The loop over the metadata store of a query inside [0, nslice). *)
Lemma metadata_of_store (n : nat) islice (store base : gmap string pyval) :
  (0 ≤ islice < Z.of_nat n)%Z →
  ∃ slicePoint,
    for_each (λ slicePoint (item : string * pyval),
                v ← slicePoint_entry n islice item.2;
                Ok (<[item.1 := v]> slicePoint)) base (map_to_list store)
    = Ok slicePoint ∧
    dom slicePoint = dom store ∪ dom base ∧
    ∀ key, store !! key = None → slicePoint !! key = base !! key.
Proof.
  intros Hi.
  destruct (metadata_loop n islice (map_to_list store) base)
    as (sp & Hrun & Hin & Hout).
  { apply NoDup_fst_map_to_list. }
  { intros [key v] Hitem%elem_of_map_to_list. simpl.
    destruct (decide (leading_dimension v = n)) as [Hdim|Hdim].
    - destruct (slicePoint_entry_per_point _ islice v Hi Hdim)
        as (elts & e & _ & _ & ->). by eexists.
    - rewrite slicePoint_entry_shared by done. by eexists. }
  assert (∀ key, store !! key = None → sp !! key = base !! key) as Hnone.
  { intros key Hkey. apply Hout.
    intros (item & -> & Hitem)%list_elem_of_fmap.
    destruct item as [key' v']. apply elem_of_map_to_list in Hitem.
    simpl in Hkey. congruence. }
  exists sp. split; [done|]. split; [|done].
  apply set_eq. intros key. rewrite elem_of_union, !elem_of_dom.
  destruct (store !! key) as [v|] eqn:Hkey.
  - apply elem_of_map_to_list in Hkey.
    destruct (Hin key v Hkey) as (v' & _ & ->). split; [left|]; by eexists.
  - rewrite (Hnone key Hkey). split; [by right|]. by intros [[? [=]]|?].
Qed.

(** X6: with the camera footprint, a query inside [0, nslice) returns the
    lookup entry of the slice point as its observation indices, adds the
    key [chipNames] to the keys of the metadata store, and binds it to the
    chip names of the entry unless the store has a key of that name. *)
Theorem footprint_query_returns_entry s0 simData maps s islice :
  useCamera s0 = true → setupSlicer s0 simData maps = Ok s →
  (0 ≤ islice < Z.of_nat (nslice s))%Z →
  ∃ res entry names,
    _sliceSimData s islice = Ok res ∧
    sliceLookup s !! Z.to_nat islice = Some entry ∧
    chipNames s !! Z.to_nat islice = Some names ∧
    idxs res = entry ∧
    dom (slicePoint res) = dom (slicePoints s) ∪ {["chipNames"]} ∧
    (slicePoints s !! "chipNames" = None →
     slicePoint res !! "chipNames" = Some (PArr (chipName_value <$> names))).
Proof.
  intros Hmode Hsetup Hi.
  destruct (setupSlicer_configured _ _ _ _ Hsetup)
    as (Hmode' & _ & _ & _ & Htables).
  rewrite Hmode in Hmode'. destruct (Htables Hmode') as [Hl1 Hl2].
  unfold _sliceSimData. rewrite Hmode'.
  destruct (py_index_in_range (sliceLookup s) islice) as (entry & Hentry & ->);
    [lia|].
  destruct (py_index_in_range (chipNames s) islice) as (names & Hnames & ->);
    [lia|].
  simpl.
  destruct (metadata_of_store (nslice s) islice (slicePoints s)
              {[ "chipNames" := PArr (chipName_value <$> names) ]} Hi)
    as (sp & -> & Hdom & Hnone).
  simpl. exists {| idxs := entry; slicePoint := sp |}, entry, names. simpl.
  do 4 (split; [done|]). split.
  - by rewrite Hdom, dom_singleton_L.
  - intros Hkey. by rewrite (Hnone _ Hkey), lookup_singleton_eq.
Qed.

(** X7: without the camera footprint, the metadata mapping of a query
    inside [0, nslice) has exactly the keys of the metadata store: no
    [chipNames] key is added. *)
Theorem tree_query_keys s0 simData maps s islice :
  useCamera s0 = false → setupSlicer s0 simData maps = Ok s →
  spatial_points s → (0 ≤ islice < Z.of_nat (nslice s))%Z →
  ∃ res, _sliceSimData s islice = Ok res ∧
         dom (slicePoint res) = dom (slicePoints s).
Proof.
  intros Hmode Hsetup Hpoints Hi.
  destruct (setupSlicer_tree_index _ _ _ _ Hmode Hsetup)
    as (Hmode' & _ & Hrad & Htree).
  destruct (_sliceSimData_tree_idxs s islice _ _ Hmode' Hpoints Hi Htree Hrad)
    as (res & ra & dec & Hres & _ & _ & Hdom).
  by exists res.
Qed.



End FootprintQuery.

(** ** What [setupSlicer] does to the slicer *)

Section SetupOutcome.
Context `{Externals}.
Implicit Types (s : slicer) (simData : list observation).
Local Open Scope R_scope.

(** X9: [setupSlicer] never changes the configuration of the slicer nor
    [nslice]; it sets [rad] to the chord radius of the configured radius,
    and leaves the slice-point metadata as the map generators returned it
    (untouched without map generators). *)
Theorem setupSlicer_keeps_configuration s0 simData maps s :
  setupSlicer s0 simData maps = Ok s →
  (latLonDeg s = latLonDeg s0 ∧ useCamera s = useCamera s0 ∧
   radius s = radius s0 ∧ leafsize s = leafsize s0 ∧
   chipsToUse s = chipsToUse s0 ∧ cacheSize s = cacheSize s0 ∧
   nslice s = nslice s0) ∧
  rad s = Some (_setRad (radius s0)) ∧
  slicePoints s = points_after_maps s0 maps ∧
  (maps = None → slicePoints s = slicePoints s0).
Proof.
  destruct (setupSlicer_prepared s0 simData maps)
    as (s1 & Hconfig & Hpoints & Hrad & _ & _ & ->).
  assert (slicePoints s1 = points_after_maps s0 maps →
          maps = None → slicePoints s1 = slicePoints s0) as Hnone
    by (by intros -> ->).
  destruct (useCamera s0).
  - intros Hrun.
    destruct (_presliceFootprint_frame _ _ _ Hrun)
      as (Hconfig' & Hpoints' & Hrad' & _).
    simpl in *. rewrite Hpoints', Hrad'.
    destruct Hconfig as (? & ? & ? & ? & ? & ? & ?).
    destruct Hconfig' as (? & ? & ? & ? & ? & ? & ?).
    repeat split; try congruence; by apply Hnone.
  - intros Hrun. inv_bind Hrun as tree Htree. injection Hrun as <-.
    simpl. repeat split; try tauto; by apply Hnone.
Qed.


Lemma any_abs_gt_2pi_pointing s simData :
  (any_abs_gt_2pi ((pointing s <$> simData).*1)
   || any_abs_gt_2pi ((pointing s <$> simData).*2) = true) ↔
  ∃ o, o ∈ simData ∧
       (Rabs (pointing s o).1 > 2 * PI ∨ Rabs (pointing s o).2 > 2 * PI).
Proof.
  rewrite orb_true_iff, !any_abs_gt_2pi_true. split.
  - intros [(v & Hv & Hgt)|(v & Hv & Hgt)].
    + apply list_elem_of_fmap in Hv as (p & -> & Hp).
      apply list_elem_of_fmap in Hp as (o & -> & Ho). eauto.
    + apply list_elem_of_fmap in Hv as (p & -> & Hp).
      apply list_elem_of_fmap in Hp as (o & -> & Ho). eauto.
  - intros (o & Ho & [Hgt|Hgt]); [left|right]; eexists; (split; [|done]).
    + apply list_elem_of_fmap. eexists. split; [done|].
      apply list_elem_of_fmap. eauto.
    + apply list_elem_of_fmap. eexists. split; [done|].
      apply list_elem_of_fmap. eauto.
Qed.

(** X11: the three outcomes of [setupSlicer] without the camera
    footprint. An observation whose longitude or latitude, in radians,
    is above 2 pi in absolute value gives the radians [ValueError];
    otherwise an empty observation set gives the length [ValueError];
    otherwise the slicer is returned, its index built over the projections
    of the observations in input order. *)
Theorem setupSlicer_tree_outcome s simData maps :
  useCamera s = false →
  let out_of_range :=
    ∃ o, o ∈ simData ∧
         (Rabs (pointing s o).1 > 2 * PI ∨ Rabs (pointing s o).2 > 2 * PI) in
  (out_of_range →
   setupSlicer s simData maps
   = Raise (ValueError "Expecting RA and Dec values to be in radians.")) ∧
  (¬ out_of_range → simData = [] →
   setupSlicer s simData maps
   = Raise (ValueError "SimDataRA and Dec should have length greater than 0.")) ∧
  (¬ out_of_range → simData ≠ [] →
   ∃ s', setupSlicer s simData maps = Ok s' ∧
         opsimtree s'
         = Some (kdtree (sky_points ((pointing s <$> simData).*1)
                                    ((pointing s <$> simData).*2))
                        (leafsize s))).
Proof.
  intros Hmode out_of_range.
  destruct (setupSlicer_prepared s simData maps)
    as (s1 & _ & _ & _ & _ & _ & ->).
  rewrite Hmode. subst out_of_range.
  rewrite <- any_abs_gt_2pi_pointing. split; [|split].
  - intros Hout. unfold _buildTree. by rewrite Hout.
  - intros Hin ->. apply not_true_is_false in Hin.
    unfold _buildTree. by rewrite Hin.
  - intros Hin Hne. apply not_true_is_false, orb_false_iff in Hin as [Hra Hdec].
    rewrite _buildTree_in_range; try done.
    + simpl. by eexists.
    + by rewrite !length_fmap.
    + by destruct simData.
Qed.

Lemma Rabs_radians (deg : R) : Rabs (radians deg) > 2 * PI ↔ Rabs deg > 360.
Proof.
  unfold radians. pose proof PI_RGT_0 as Hpi.
  rewrite Rabs_mult, (Rabs_pos_eq (PI / 180)) by (apply Rlt_le; lra).
  pose proof (Rabs_pos deg). split; intros Hgt; [|nra].
  destruct (Rle_dec (Rabs deg) 360) as [Hle|]; [|lra].
  exfalso. assert (Rabs deg * (PI / 180) <= 360 * (PI / 180)); [|lra].
  apply Rmult_le_compat_r; lra.
Qed.

(** X12: with coordinates in degrees ([latLonDeg] set) and without the
    camera footprint, [setupSlicer] raises the radians [ValueError] exactly
    when an observation has a longitude or latitude above 360 degrees in
    absolute value. *)
Theorem setupSlicer_degrees_range s simData maps :
  useCamera s = false → latLonDeg s = true →
  setupSlicer s simData maps
  = Raise (ValueError "Expecting RA and Dec values to be in radians.") ↔
  ∃ o, o ∈ simData ∧ (Rabs (fieldRA o) > 360 ∨ Rabs (fieldDec o) > 360).
Proof.
  intros Hmode Hdeg.
  destruct (setupSlicer_prepared s simData maps)
    as (s1 & _ & _ & _ & _ & _ & ->).
  rewrite Hmode.
  assert ((∃ o, o ∈ simData ∧
                (Rabs (fieldRA o) > 360 ∨ Rabs (fieldDec o) > 360)) ↔
          any_abs_gt_2pi ((pointing s <$> simData).*1)
          || any_abs_gt_2pi ((pointing s <$> simData).*2) = true) as ->.
  { rewrite any_abs_gt_2pi_pointing. unfold pointing. rewrite Hdeg. simpl.
    by setoid_rewrite Rabs_radians. }
  unfold _buildTree.
  destruct (any_abs_gt_2pi _ || any_abs_gt_2pi _) eqn:Hcheck; [done|].
  split; [|done]. unfold _treexyz_arr.
  rewrite !np_mul_same_length by (by rewrite !length_fmap). simpl.
  case_bool_decide; simpl; discriminate.
Qed.

Lemma for_each_raise_or_skip {S A} (body : S → A → result S)
    (stops : A → bool) (e : exn) (st : S) (xs : list A) :
  (∀ st x, x ∈ xs → body st x = if stops x then Raise e else Ok st) →
  for_each body st xs = if existsb stops xs then Raise e else Ok st.
Proof.
  induction xs as [|x xs IH]; intros Hbody; [done|].
  cbn [for_each existsb]. rewrite Hbody by left.
  destruct (stops x); [done|]. simpl. apply IH.
  intros st' y Hy. apply Hbody. by right.
Qed.

(** One pointing with an array allow-list: the truth value of the
    comparison is asked for as soon as there is a candidate. *)
Lemma pointing_hits_array s (slice_ra slice_dec : list R) ra dec rot mjd
    tree r :
  ¬ all_or_list (chipsToUse s) →
  opsimtree s = Some tree → rad s = Some r →
  is_Some (epoch s) → is_Some (camera s) →
  (∀ i, i ∈ query_ball_point tree (_treexyz ra dec) r →
        (i < length slice_ra)%nat) →
  length slice_ra = length slice_dec →
  pointing_hits s slice_ra slice_dec ra dec rot mjd
  = if bool_decide (0 < length (query_ball_point tree (_treexyz ra dec) r))%nat
    then Raise (ValueError ambiguous_truth_value)
    else Ok [].
Proof.
  intros Harray Htree Hr [e He] [cam Hcam] Hquery Hlen.
  unfold pointing_hits. simpl. rewrite Htree, Hr. simpl.
  set (hpIndices := query_ball_point tree _ r).
  assert (Forall (λ i, (i < length slice_ra)%nat) hpIndices) as Hbound.
  { apply Forall_forall. intros i Hi. by apply Hquery. }
  case_bool_decide; [|done].
  destruct (np_take_in_bounds slice_ra hpIndices) as [cand_ra ->]; [done|].
  destruct (np_take_in_bounds slice_dec hpIndices) as [cand_dec ->];
    [by rewrite <- Hlen|].
  rewrite He, Hcam. simpl.
  by destruct (chipsToUse s) as [|allowed|first second rest].
Qed.

(** [_presliceFootprint] with an array allow-list. *)
Lemma _presliceFootprint_array s (simData : list observation)
    ra_v dec_v (ras decs : list R) r :
  ¬ all_or_list (chipsToUse s) →
  (∀ data leaf center r i,
     i ∈ query_ball_point (kdtree data leaf) center r →
     (i < length data)%nat) →
  slicePoints s !! "ra" = Some ra_v → slicePoints s !! "dec" = Some dec_v →
  as_floats ra_v = Ok ras → as_floats dec_v = Ok decs →
  length ras = nslice s → length decs = nslice s → (0 < nslice s)%nat →
  (∀ v, v ∈ ras ∨ v ∈ decs → - (2 * PI) <= v <= 2 * PI) →
  rad s = Some r → is_Some (epoch s) → is_Some (camera s) →
  (∃ o, o ∈ simData ∧
        query_ball_point (kdtree (sky_points ras decs) (leafsize s))
          (_treexyz (pointing s o).1 (pointing s o).2) r ≠ []) →
  _presliceFootprint s simData = Raise (ValueError ambiguous_truth_value).
Proof.
  intros Harray Hquery Hra Hdec Hras Hdecs Hlra Hldec Hpos Hrange
    Hrad Hepoch Hcam (o & Ho & Hcand).
  unfold _presliceFootprint, dict_get. rewrite Hra, Hdec. simpl.
  rewrite Hras, Hdecs. simpl.
  rewrite _buildTree_in_range;
    [|apply any_abs_gt_2pi_false; auto..|congruence
     |intros ->; simpl in Hlra; lia].
  simpl.
  rewrite (for_each_raise_or_skip _
             (λ row : nat * observation,
                bool_decide
                  (0 < length
                         (query_ball_point
                            (kdtree (sky_points ras decs) (leafsize s))
                            (_treexyz (pointing s row.2).1
                                      (pointing s row.2).2) r))%nat)
             (ValueError ambiguous_truth_value)).
  - assert (existsb
              (λ row : nat * observation,
                 bool_decide
                   (0 < length
                          (query_ball_point
                             (kdtree (sky_points ras decs) (leafsize s))
                             (_treexyz (pointing s row.2).1
                                       (pointing s row.2).2) r))%nat)
              (zip (seq 0 (length simData)) simData) = true) as ->; [|done].
    apply existsb_exists.
    apply list_elem_of_lookup_1 in Ho as [k Hk].
    exists (k, o). split.
    + apply list_elem_of_In, list_elem_of_lookup. exists k.
      apply lookup_zip_with_Some. exists k, o. split; [done|].
      split; [|done]. apply lookup_seq. split; [done|].
      by apply lookup_lt_Some in Hk.
    + apply bool_decide_eq_true. simpl.
      destruct (query_ball_point _ _ r); [done|]. simpl. lia.
  - intros tables [ind o'] _.
    rewrite (pointing_hits_array _ ras decs _ _ _ _
               (kdtree (sky_points ras decs) (leafsize s)) r);
      [| done | done | done | done | done | | congruence].
    + simpl. by case_bool_decide.
    + intros i Hi%Hquery. unfold sky_points in Hi.
      rewrite length_fmap, length_zip in Hi. lia.
Qed.

(** X13: with the camera footprint the observations are not range-checked
    and an empty observation set is accepted. With an allow-list that is
    ['all'] or a Python list, [setupSlicer] returns a slicer for every
    observation set; with an allow-list that is a numpy array it raises
    [ValueError] as soon as an observation has a candidate slice point.
    There is a slice point, the slice points lie in [-2 pi, 2 pi], the
    ball query returns positions of indexed points and the camera names
    one detector or none per candidate. *)
Theorem setupSlicer_footprint_accepts_any_observations s simData maps
    ra_v dec_v (ras decs : list R) :
  useCamera s = true →
  (∀ data leaf center r i,
     i ∈ query_ball_point (kdtree data leaf) center r →
     (i < length data)%nat) →
  (∀ cand_ra cand_dec e cam md,
     length cand_ra = length cand_dec →
     length (_chipNameFromRaDec cand_ra cand_dec e cam md) = length cand_ra) →
  points_after_maps s maps !! "ra" = Some ra_v →
  points_after_maps s maps !! "dec" = Some dec_v →
  as_floats ra_v = Ok ras → as_floats dec_v = Ok decs →
  length ras = nslice s → length decs = nslice s → (0 < nslice s)%nat →
  (∀ v, v ∈ ras ∨ v ∈ decs → - (2 * PI) <= v <= 2 * PI) →
  (all_or_list (chipsToUse s) →
   ∃ s', setupSlicer s simData maps = Ok s') ∧
  (¬ all_or_list (chipsToUse s) →
   (∃ o, o ∈ simData ∧ candidates s ras decs o ≠ []) →
   setupSlicer s simData maps = Raise (ValueError ambiguous_truth_value)).
Proof.
  intros Hmode Hquery Hcamera Hra Hdec Hras Hdecs Hlra Hldec Hpos Hrange.
  split.
  - intros Hlist. by eapply setupSlicer_footprint_completes.
  - intros Harray Hcand.
    destruct (setupSlicer_prepared s simData maps)
      as (s1 & (Hdeg & _ & _ & Hleaf & Hchips & _ & Hn) & Hpoints & Hrad & _
          & _ & ->).
    rewrite Hmode.
    apply (_presliceFootprint_array _ simData ra_v dec_v ras decs
             (_setRad (radius s)));
      simpl; rewrite ?Hpoints, ?Hn, ?Hchips; try done.
    destruct Hcand as (o & Ho & Hcand). exists o. split; [done|].
    unfold candidates, pointing in *. simpl. by rewrite Hdeg, Hleaf.
Qed.

End SetupOutcome.

(** ** The reference instance and the further properties *)

Section DemoExtras.
Existing Instance reference.
Local Open Scope R_scope.

Lemma ball_query_spec (data : list point) (center : point) (r : R) (i : nat) :
  i ∈ ball_query data center r ↔ ∃ p, data !! i = Some p ∧ dist p center <= r.
Proof.
  unfold ball_query. rewrite np_where_elem, list_lookup_fmap.
  destruct (data !! i) as [p|]; simpl.
  - split.
    + intros [= Hp%bool_decide_eq_true]. eauto.
    + intros (p' & [= <-] & Hp). f_equal. by apply bool_decide_eq_true.
  - split; [done | by intros (? & ? & ?)].
Qed.


Lemma tree_query_self_match_witness :
  ∃ res, _sliceSimData demo_tree_ready 0 = Ok res ∧ 0%nat ∈ idxs res.
Proof.
  apply (tree_query_self_match (demo_slicer false) demo_data None
           demo_tree_ready 0 0 demo_obs).
  - intros data leaf center r i p Hp Hdist. apply ball_query_spec. eauto.
  - reflexivity.
  - apply demo_tree_setup.
  - apply demo_tree_spatial_points.
  - simpl. lia.
  - reflexivity.
  - reflexivity.
Defined.

Lemma footprint_lookup_exact_witness :
  ∃ slice_ra slice_dec : list R,
    (dict_get (slicePoints demo_footprint_ready) "ra" ≫= as_floats)
    = Ok slice_ra ∧
    (dict_get (slicePoints demo_footprint_ready) "dec" ≫= as_floats)
    = Ok slice_dec ∧
    ∀ k c, (k, c) ∈ zip [0; 1]%nat [demo_chip; demo_chip] ↔
           ∃ o, demo_data !! k = Some o ∧
                on_chip demo_footprint_ready slice_ra slice_dec o 0 c.
Proof.
  by apply (footprint_lookup_exact demo_prepared demo_data
              demo_footprint_ready 0 [0; 1]%nat [demo_chip; demo_chip]
              demo_preslice).
Defined.

Lemma footprint_query_returns_entry_witness :
  ∃ res entry names,
    _sliceSimData demo_footprint_ready 0 = Ok res ∧
    sliceLookup demo_footprint_ready !! Z.to_nat 0 = Some entry ∧
    chipNames demo_footprint_ready !! Z.to_nat 0 = Some names ∧
    idxs res = entry ∧
    dom (slicePoint res)
    = dom (slicePoints demo_footprint_ready) ∪ {["chipNames"]} ∧
    (slicePoints demo_footprint_ready !! "chipNames" = None →
     slicePoint res !! "chipNames" = Some (PArr (chipName_value <$> names))).
Proof.
  apply (footprint_query_returns_entry (demo_slicer true) demo_data None
           demo_footprint_ready 0 eq_refl demo_footprint_setup).
  simpl. lia.
Defined.

Lemma tree_query_keys_witness :
  ∃ res, _sliceSimData demo_tree_ready 0 = Ok res ∧
         dom (slicePoint res) = dom (slicePoints demo_tree_ready).
Proof.
  apply (tree_query_keys (demo_slicer false) demo_data None demo_tree_ready 0
           eq_refl demo_tree_setup demo_tree_spatial_points).
  simpl. lia.
Defined.


(** A slicer without map generators keeps its slice points. *)
Lemma setupSlicer_keeps_configuration_witness :
  rad demo_footprint_ready = Some (_setRad (radius (demo_slicer true))) ∧
  slicePoints demo_footprint_ready = slicePoints (demo_slicer true).
Proof.
  destruct (setupSlicer_keeps_configuration (demo_slicer true) demo_data None
              demo_footprint_ready demo_footprint_setup)
    as (_ & Hrad & _ & Hpoints).
  split; [exact Hrad | by apply Hpoints].
Defined.


Lemma stray_out_of_range : Rabs (fieldRA stray_obs) > 2 * PI.
Proof.
  simpl. rewrite Rabs_pos_eq by lra. pose proof PI_4. lra.
Qed.

(** A pointing at 9 radians makes the run without the footprint fail. *)
Lemma setupSlicer_tree_outcome_witness :
  setupSlicer (demo_slicer false) [demo_obs; stray_obs] None
  = Raise (ValueError "Expecting RA and Dec values to be in radians.").
Proof.
  apply (setupSlicer_tree_outcome (demo_slicer false) [demo_obs; stray_obs]
           None eq_refl).
  exists stray_obs. split; [apply list_elem_of_In; simpl; tauto|].
  left. apply stray_out_of_range.
Defined.

(** In degrees, 9 is well inside the range. *)
Lemma setupSlicer_degrees_range_witness :
  setupSlicer demo_degrees_slicer [stray_obs] None
  ≠ Raise (ValueError "Expecting RA and Dec values to be in radians.").
Proof.
  intros Hraise.
  apply (setupSlicer_degrees_range demo_degrees_slicer [stray_obs] None
           eq_refl eq_refl) in Hraise
    as (o & ->%list_elem_of_singleton & [Hgt|Hgt]); simpl in Hgt.
  - rewrite Rabs_pos_eq in Hgt; lra.
  - rewrite Rabs_R0 in Hgt. lra.
Defined.

(** The same pointing is accepted with the camera footprint. *)
Lemma setupSlicer_footprint_accepts_any_observations_witness :
  (∃ s', setupSlicer (demo_slicer true) [demo_obs; stray_obs] None = Ok s') ∧
  setupSlicer demo_array_slicer [stray_obs; demo_obs] None
  = Raise (ValueError ambiguous_truth_value).
Proof.
  split.
  - apply (setupSlicer_footprint_accepts_any_observations (demo_slicer true)
             [demo_obs; stray_obs] None (PArr [PFloat 0]) (PArr [PFloat 0])
             [0] [0]); try done.
    + apply reference_contracts.
    + apply reference_contracts.
    + simpl. lia.
    + intros v [Hv|Hv]; by apply (zero_in_range [0]); [repeat constructor|].
  - apply (setupSlicer_footprint_accepts_any_observations demo_array_slicer
             [stray_obs; demo_obs] None (PArr [PFloat 0]) (PArr [PFloat 0])
             [0] [0]); try done.
    + apply reference_contracts.
    + apply reference_contracts.
    + simpl. lia.
    + intros v [Hv|Hv]; by apply (zero_in_range [0]); [repeat constructor|].
    + by intros [].
    + exists demo_obs. split; [by right; left|].
      unfold candidates. cbn [query_ball_point kdtree reference].
      rewrite demo_query; [done|done|apply _setRad_nonneg].
Defined.

End DemoExtras.

(** * The database classes *)

(** ** The registry of database classes *)

Section DatabaseRegistry.
Import Database.
Import Stdlib.Strings.Ascii.

Lemma bind_Return {A B} (m : outcome A) (f : A → outcome B) b :
  m ≫= f = Return b ↔ ∃ a, m = Return a ∧ f a = Return b.
Proof.
  destruct m as [a|e]; simpl; split.
  - by exists a.
  - by intros (a' & [= <-] & ?).
  - done.
  - by intros (? & ? & ?).
Qed.

Lemma getitem_Return {A} (d : gmap string A) key a :
  getitem d key = Return a ↔ d !! key = Some a.
Proof. unfold getitem. destruct (d !! key); split; congruence. Qed.

Lemma split_dot_nonempty s : split_dot s ≠ [].
Proof.
  destruct s as [|c s]; simpl; [done|].
  destruct (Ascii.eqb c _); [done|]. by destruct (split_dot s).
Qed.

Lemma join_split_dot s : join_dot (split_dot s) = s.
Proof.
  induction s as [|c s IH]; simpl; [done|].
  destruct (Ascii.eqb_spec c "."%char) as [->|Hc].
  - pose proof (split_dot_nonempty s).
    destruct (split_dot s) as [|p ps] eqn:E; [done|]. simpl in *.
    by rewrite IH.
  - destruct (split_dot s) as [|p ps] eqn:E; [by destruct (split_dot_nonempty s)|].
    simpl in *. destruct ps; simpl in *; by rewrite <- IH.
Qed.

Lemma split_dot_snoc s : split_dot (s +:+ ".") = split_dot s ++ [EmptyString].
Proof.
  induction s as [|c s IH]; simpl; [done|].
  destruct (Ascii.eqb c _); [by rewrite IH|].
  rewrite IH. pose proof (split_dot_nonempty s).
  by destruct (split_dot s).
Qed.

Lemma string_app_assoc (s t u : string) : (s +:+ t) +:+ u = s +:+ t +:+ u.
Proof.
  induction s as [|c s IH]; [done|].
  exact (f_equal (String c) IH).
Qed.

Lemma removelast_snoc {A} (l : list A) x : removelast (l ++ [x]) = l.
Proof. induction l as [|a l IH]; simpl; [done|]. rewrite IH. by destruct l. Qed.

Lemma prefix_snoc_dot p c s :
  c ≠ "."%char →
  String.prefix (p +:+ String c EmptyString) (s +:+ ".")
  = String.prefix (p +:+ String c EmptyString) s.
Proof.
  intros Hc. revert s. induction p as [|a p IH]; intros [|b s]; simpl.
  - destruct (ascii_dec c _); congruence.
  - destruct (ascii_dec c b); [|done]. by destruct s.
  - destruct (ascii_dec a _); [|done]. destruct p; simpl; congruence.
  - destruct (ascii_dec a b); [apply IH|done].
Qed.

Lemma registry_init_Return {C} (registry : option (gmap string C))
    module name cls registry' :
  registry_init registry module name cls = Return registry' ↔
  default ∅ registry !! databasename module name = None ∧
  registry'
  = if bool_decide (databasename module name = "BaseDatabase")
    then default ∅ registry
    else <[databasename module name := cls]> (default ∅ registry).
Proof.
  unfold registry_init.
  destruct (default ∅ registry !! databasename module name) as [c|] eqn:E.
  - rewrite bool_decide_true by eauto. naive_solver.
  - rewrite bool_decide_false by (by intros [? ?]).
    destruct (decide (databasename module name = "BaseDatabase")) as [Hb|Hb].
    + rewrite bool_decide_false by (rewrite Hb; set_solver).
      rewrite bool_decide_true by done. naive_solver.
    + rewrite bool_decide_true by set_solver.
      rewrite (bool_decide_false _ Hb). naive_solver.
Qed.

(** X14: the registry key of a class is its bare name when the name of its
    module starts with [lsst.sims.maf.db], and otherwise the name of the
    module, a dot and the name of the class; the branch that appends a
    second dot is never taken. *)
Theorem databasename_module_qualified module name :
  databasename module name
  = if String.prefix "lsst.sims.maf.db" module then name
    else module +:+ "." +:+ name.
Proof.
  unfold databasename.
  pose proof (prefix_snoc_dot "lsst.sims.maf.d" "b" module) as E.
  change ("lsst.sims.maf.d" +:+ "b") with "lsst.sims.maf.db" in E.
  rewrite E by done. clear E.
  destruct (String.prefix _ module); [done|].
  rewrite split_dot_snoc, removelast_snoc, join_split_dot.
  rewrite length_app. simpl.
  pose proof (split_dot_nonempty module).
  rewrite bool_decide_true by (destruct (split_dot module); simpl; [done|lia]).
  by rewrite string_app_assoc.
Qed.

(** X15: a class that registers under a key other than [BaseDatabase] is
    returned by [getClass] at that key, the classes registered before are
    still returned at theirs, and registering the same module and name
    again raises [Exception]. *)
Theorem registry_round_trip {C} (registry : option (gmap string C))
    module name (cls : C) registry' :
  registry_init registry module name cls = Return registry' →
  databasename module name ≠ "BaseDatabase" →
  getClass registry' (databasename module name) = Return cls ∧
  (∀ key c, default ∅ registry !! key = Some c →
            getClass registry' key = Return c) ∧
  ∀ cls', registry_init (Some registry') module name cls'
          = Raises (Exception (databasename module name)).
Proof.
  intros [Hnew ->]%registry_init_Return Hb.
  rewrite (bool_decide_false _ Hb). repeat split.
  - apply getitem_Return, lookup_insert_eq.
  - intros key c Hkey. apply getitem_Return.
    rewrite lookup_insert_ne; [done|congruence].
  - intros cls'. unfold registry_init. simpl.
    rewrite lookup_insert_eq. by rewrite bool_decide_true by eauto.
Qed.

Lemma define_hierarchy_each {C} (root : string * string * C) subclasses :
  define_hierarchy root subclasses
  = each (λ registry '(module, name, cls),
            registry_init (Some registry) module name cls)
         ∅ (root :: subclasses).
Proof. by destruct root as [[module name] cls]. Qed.

Lemma hierarchy_inv {C} (classes : list (string * string * C)) :
  ∀ registry registry',
    registry !! "BaseDatabase" = None →
    each (λ registry '(module, name, cls),
            registry_init (Some registry) module name cls) registry classes
    = Return registry' →
    let keys := filter (λ key, key ≠ "BaseDatabase")
                  ((λ c, databasename c.1.1 c.1.2) <$> classes) in
    NoDup keys ∧
    (∀ key, key ∈ keys → registry !! key = None) ∧
    registry' !! "BaseDatabase" = None ∧
    (∀ c, c ∈ classes → databasename c.1.1 c.1.2 ≠ "BaseDatabase" →
          registry' !! databasename c.1.1 c.1.2 = Some c.2) ∧
    (∀ key, key ∉ keys → registry' !! key = registry !! key).
Proof.
  induction classes as [|[[module name] cls] classes IH];
    intros registry registry' Hbase Hrun.
  { injection Hrun as <-. simpl. repeat split; try done.
    - constructor.
    - intros key Hkey. by apply elem_of_nil in Hkey.
    - intros c Hc. by apply elem_of_nil in Hc. }
  cbn [each] in Hrun.
  apply bind_Return in Hrun as (registry1 & Hinit & Hrun).
  apply registry_init_Return in Hinit as [Hnew Hreg1]. simpl in Hnew, Hreg1.
  assert (registry1 !! "BaseDatabase" = None) as Hbase1.
  { rewrite Hreg1. case_bool_decide as Hb; [done|].
    by rewrite lookup_insert_ne. }
  destruct (IH registry1 registry' Hbase1 Hrun)
    as (Hnodup & Hfresh & Hbase' & Hin & Hout).
  cbn zeta. rewrite fmap_cons, filter_cons. cbn [fst snd].
  destruct (decide (databasename module name ≠ "BaseDatabase")) as [Hb|Hb].
  - rewrite (bool_decide_false _ Hb) in Hreg1.
    assert (databasename module name
            ∉ filter (λ key, key ≠ "BaseDatabase")
                ((λ c : string * string * C, databasename c.1.1 c.1.2)
                   <$> classes)) as Hnotin.
    { intros Hk. apply Hfresh in Hk.
      by rewrite Hreg1, lookup_insert_eq in Hk. }
    repeat split.
    + by constructor.
    + intros key [->|Hkey]%elem_of_cons; [done|].
      pose proof (Hfresh key Hkey) as Hk. rewrite Hreg1 in Hk.
      apply lookup_insert_None in Hk. tauto.
    + done.
    + intros c [->|Hc]%elem_of_cons Hcb; [|by apply Hin]. simpl.
      by rewrite (Hout _ Hnotin), Hreg1, lookup_insert_eq.
    + intros key Hkey. apply not_elem_of_cons in Hkey as [Hne Hkey].
      rewrite (Hout _ Hkey), Hreg1. by rewrite lookup_insert_ne.
  - apply dec_stable in Hb. rewrite (bool_decide_true _ Hb) in Hreg1.
    subst registry1. repeat split; try done.
    intros c [->|Hc]%elem_of_cons Hcb; [done|by apply Hin].
Qed.

Lemma hierarchy_total {C} (classes : list (string * string * C)) :
  ∀ registry,
    registry !! "BaseDatabase" = None →
    let keys := filter (λ key, key ≠ "BaseDatabase")
                  ((λ c, databasename c.1.1 c.1.2) <$> classes) in
    NoDup keys →
    (∀ key, key ∈ keys → registry !! key = None) →
    ∃ registry',
      each (λ registry '(module, name, cls),
              registry_init (Some registry) module name cls) registry classes
      = Return registry'.
Proof.
  induction classes as [|[[module name] cls] classes IH];
    intros registry Hbase; cbn zeta; [by eexists|].
  rewrite fmap_cons, filter_cons. cbn [fst snd each].
  intros Hnodup Hfresh.
  destruct (decide (databasename module name ≠ "BaseDatabase")) as [Hb|Hb].
  - apply NoDup_cons in Hnodup as [Hnotin Hnodup].
    edestruct (registry_init_Return (Some registry) module name cls)
      as [_ Hinit].
    rewrite Hinit; [|split; [|done]]; [|apply Hfresh; by left].
    rewrite (bool_decide_false _ Hb). simpl.
    apply IH; simpl.
    + by rewrite lookup_insert_ne.
    + done.
    + intros key Hkey. rewrite lookup_insert_ne; [|congruence].
      apply Hfresh. by right.
  - apply dec_stable in Hb.
    edestruct (registry_init_Return (Some registry) module name cls)
      as [_ Hinit].
    rewrite Hinit; [|split; [|done]]; [|by rewrite Hb].
    rewrite (bool_decide_true _ Hb). simpl. by apply IH.
Qed.

(** X16: a root class and the classes that derive from it, which share
    the registry of the root, are defined without exception exactly when
    their keys other than [BaseDatabase] are pairwise distinct; then
    [getClass] returns every such class at its key and raises [KeyError]
    at every other key, [BaseDatabase] among them, however many classes
    have that key. *)
Theorem define_hierarchy_distinct_keys {C} (root : string * string * C)
    (subclasses : list (string * string * C)) :
  let keys := filter (λ key, key ≠ "BaseDatabase")
                ((λ c, databasename c.1.1 c.1.2) <$> root :: subclasses) in
  ((∃ registry, define_hierarchy root subclasses = Return registry) ↔
   NoDup keys) ∧
  ∀ registry,
    define_hierarchy root subclasses = Return registry →
    (∀ c, c ∈ root :: subclasses →
          databasename c.1.1 c.1.2 ≠ "BaseDatabase" →
          getClass registry (databasename c.1.1 c.1.2) = Return c.2) ∧
    (∀ key, key ∉ keys → getClass registry key = Raises (KeyError key)).
Proof.
  cbn zeta. rewrite define_hierarchy_each. split; [split|].
  - intros [registry Hrun].
    by destruct (hierarchy_inv (root :: subclasses) ∅ registry) as (? & _).
  - intros Hnodup. by apply hierarchy_total.
  - intros registry Hrun.
    destruct (hierarchy_inv (root :: subclasses) ∅ registry)
      as (_ & _ & _ & Hin & Hout); [done..|]. cbn zeta in Hout. split.
    + intros c Hc Hb. by apply getitem_Return, Hin.
    + intros key Hkey. unfold getClass, getitem.
      by rewrite (Hout _ Hkey).
Qed.

End DatabaseRegistry.

(** ** Queries *)

Section DatabaseQueries.
Import Database.
Context `{Session}.

Lemma check_columns (cn : gmap string (list string)) t available cols :
  cn !! t = Some available →
  each (λ _ col,
          available ← getitem cn t;
          if bool_decide (col ∈ available) then Return ()
          else Raises (ValueError (ColumnNotAvailable col t))) () cols
  = match list_find (λ col, col ∉ available) cols with
    | Some (_, col) => Raises (ValueError (ColumnNotAvailable col t))
    | None => Return ()
    end.
Proof.
  intros Ht%getitem_Return. rewrite Ht.
  induction cols as [|col cols IH]; [done|].
  cbn [each list_find mbind outcome_bind] in *.
  case_bool_decide as Hin; cbn [mbind outcome_bind].
  - rewrite decide_False by tauto.
    rewrite IH. by destruct (list_find _ cols) as [[??]|].
  - by rewrite decide_True.
Qed.

Lemma build_loop c0 (cols0 : list string) :
  head cols0 = Some c0 →
  ∀ xs q0,
    ∃ q,
      each (λ (query : option query) col,
              if bool_decide (Some col = head cols0) then
                Return (Some (Query col))
              else
                match query with
                | Some query => Return (Some (AddColumns query col))
                | None => Raises UnboundLocalError
                end) (Some q0) xs = Return (Some q) ∧
      (c0 ∉ xs → selected q = (selected q0 ++ xs)) ∧
      (c0 ∈ xs → ∃ pre post,
                   xs = pre ++ (c0 :: post) ∧ (c0 ∉ post) ∧
                   selected q = c0 :: post).
Proof.
  intros Hhead. rewrite Hhead.
  induction xs as [|x xs IH]; intros q0.
  { exists q0. repeat split.
    - by rewrite app_nil_r.
    - intros Hin. by apply elem_of_nil in Hin. }
  cbn [each]. destruct (decide (x = c0)) as [->|Hx].
  - rewrite bool_decide_true by done. cbn [mbind outcome_bind].
    destruct (IH (Query c0)) as (q & Hq & Hnotin & Hin).
    exists q. split; [done|]. split.
    + intros Hc. by apply not_elem_of_cons in Hc as [? _].
    + intros _. destruct (decide (c0 ∈ xs)) as [Hc|Hc].
      * destruct (Hin Hc) as (pre & post & -> & Hpost & Hsel).
        by exists (c0 :: pre), post.
      * exists [], xs. repeat split; [done|]. by rewrite (Hnotin Hc).
  - rewrite bool_decide_false by congruence. cbn [mbind outcome_bind].
    destruct (IH (AddColumns q0 x)) as (q & Hq & Hnotin & Hin).
    exists q. split; [done|]. split.
    + intros Hc. apply not_elem_of_cons in Hc as [_ Hc].
      rewrite (Hnotin Hc). simpl. by rewrite <- app_assoc.
    + intros Hc. apply elem_of_cons in Hc as [Hc|Hc]; [congruence|].
      destruct (Hin Hc) as (pre & post & -> & Hpost & Hsel).
      by exists (x :: pre), post.
Qed.

Lemma getitem_Some {A} (d : gmap string A) key a :
  d !! key = Some a → getitem d key = Return a.
Proof. apply getitem_Return. Qed.

Lemma selected_clauses q table (c g : option string) (n : option nat) :
  selected
    (let query := SelectFrom q table in
     let query :=
       match c with
       | Some sqlconstraint =>
           if bool_decide (0 < String.length sqlconstraint)
           then Filter query sqlconstraint else query
       | None => query
       end in
     let query :=
       match g with
       | Some groupBy => GroupBy query groupBy
       | None => query
       end in
     match n with
     | Some numLimit => Limit query numLimit
     | None => query
     end) = selected q.
Proof.
  cbn zeta. destruct c as [c|], g as [g|], n as [n|];
    try case_bool_decide; done.
Qed.

Lemma _build_query_unknown_table self t cols c g n :
  tables self !! t = None →
  _build_query self t cols c g n = Raises (ValueError (TableNotAvailable t)).
Proof. intros Ht. unfold _build_query. by rewrite bool_decide_true. Qed.

Lemma _build_query_bad_column self t cols c g n table available i col :
  tables self !! t = Some table → columnNames self !! t = Some available →
  list_find (λ col, col ∉ available) cols = Some (i, col) →
  _build_query self t (Some cols) c g n
  = Raises (ValueError (ColumnNotAvailable col t)).
Proof.
  intros Ht Hc Hfind. unfold _build_query.
  rewrite bool_decide_false by congruence.
  rewrite (check_columns _ _ _ _ Hc), Hfind. done.
Qed.

Lemma _build_query_bad_groupBy self t cols c groupBy n table available :
  tables self !! t = Some table → columnNames self !! t = Some available →
  Forall (λ col, col ∈ available) cols → groupBy ∉ available →
  _build_query self t (Some cols) c (Some groupBy) n
  = Raises (ValueError (GroupByNotAvailable groupBy t)).
Proof.
  intros Ht Hc Hcols Hg. unfold _build_query.
  rewrite bool_decide_false by congruence.
  rewrite (check_columns _ _ _ _ Hc).
  rewrite (proj2 (list_find_None _ _)); [|by eapply Forall_impl; [done|]; tauto].
  rewrite (getitem_Some _ _ _ Hc). cbn [mbind outcome_bind].
  by rewrite (bool_decide_false _ Hg).
Qed.

Lemma _build_query_checked self t cols c g n table available :
  tables self !! t = Some table → columnNames self !! t = Some available →
  Forall (λ col, col ∈ available) cols →
  (∀ groupBy, g = Some groupBy → groupBy ∈ available) →
  match cols with
  | [] => _build_query self t (Some cols) c g n = Raises UnboundLocalError
  | c0 :: rest =>
      ∃ q, _build_query self t (Some cols) c g n = Return q ∧
           (c0 ∉ rest → selected q = cols) ∧
           (c0 ∈ rest → ∃ pre post,
                          rest = pre ++ (c0 :: post) ∧ (c0 ∉ post) ∧
                          selected q = c0 :: post)
  end.
Proof.
  intros Ht Hc Hcols Hg. unfold _build_query.
  rewrite bool_decide_false by congruence.
  rewrite (check_columns _ _ _ _ Hc).
  rewrite (proj2 (list_find_None _ _)); [|by eapply Forall_impl; [done|]; tauto].
  rewrite (getitem_Some _ _ _ Hc), (getitem_Some _ _ _ Ht).
  cbn [mbind outcome_bind].
  assert ((match g with
           | Some groupBy =>
               if bool_decide (groupBy ∈ available) then Return ()
               else Raises (ValueError (GroupByNotAvailable groupBy t))
           | None => Return ()
           end) = Return ()) as ->.
  { destruct g as [groupBy|]; [|done]. by rewrite bool_decide_true by eauto. }
  cbn [mbind outcome_bind].
  destruct cols as [|c0 rest]; [done|].
  cbn [each head]. rewrite bool_decide_true by done. cbn [mbind outcome_bind].
  destruct (build_loop c0 (c0 :: rest) eq_refl rest (Query c0))
    as (q & Hq & Hnotin & Hin).
  cbn [head] in Hq. rewrite Hq. cbn [mbind outcome_bind].
  eexists. split; [done|]. rewrite selected_clauses. split.
  - intros Hn. by rewrite (Hnotin Hn).
  - done.
Qed.

Lemma _build_query_all self t c g n table c0 rest :
  tables self !! t = Some table → columnNames self !! t = Some (c0 :: rest) →
  ∃ q, _build_query self t None c g n = Return q ∧
       (c0 ∉ rest → selected q = c0 :: rest) ∧
       (c0 ∈ rest → ∃ pre post,
                      rest = pre ++ (c0 :: post) ∧ (c0 ∉ post) ∧
                      selected q = c0 :: post).
Proof.
  intros Ht Hc. unfold _build_query.
  rewrite bool_decide_false by congruence.
  rewrite (getitem_Some _ _ _ Hc), (getitem_Some _ _ _ Ht).
  cbn [mbind outcome_bind each head].
  rewrite bool_decide_true by done. cbn [mbind outcome_bind].
  destruct (build_loop c0 (c0 :: rest) eq_refl rest (Query c0))
    as (q & Hq & Hnotin & Hin).
  cbn [head] in Hq. rewrite Hq. cbn [mbind outcome_bind].
  eexists. split; [done|]. rewrite selected_clauses. split.
  - intros Hn. by rewrite (Hnotin Hn).
  - done.
Qed.

Lemma bind_Return_r {A} (m : outcome A) : m ≫= Return = m.
Proof. by destruct m. Qed.

Lemma mapM_outcome_app {A B} (f : A → outcome B) (l1 l2 : list A) :
  mapM f (l1 ++ l2)
  = r1 ← mapM f l1; r2 ← mapM f l2; Return (r1 ++ r2).
Proof.
  induction l1 as [|a l1 IH]; cbn [mapM app].
  - cbn [mret outcome_ret mbind outcome_bind]. by destruct (mapM f l2).
  - destruct (f a) as [b|e]; cbn [mbind outcome_bind]; [|done].
    rewrite IH. destruct (mapM f l1) as [r1|e]; cbn [mbind outcome_bind]; [|done].
    by destruct (mapM f l2).
Qed.

Lemma np_dtype_Return dt : NoDup dt.*1 → np_dtype dt = Return dt.
Proof. intros Hdt. unfold np_dtype. by rewrite bool_decide_true. Qed.

Lemma np_dtype_Raises dt :
  ¬ NoDup dt.*1 → np_dtype dt = Raises (ValueError FieldOccursTwice).
Proof. intros Hdt. unfold np_dtype. by rewrite bool_decide_false. Qed.

Lemma _convert_results_eq results dt :
  _convert_results results dt
  = dt' ← np_dtype dt;
    records ← mapM (fromrecord dt') results;
    Return {| dtype := dt'; records := records |}.
Proof.
  unfold _convert_results. case_bool_decide as Hlen; [|done].
  by destruct results.
Qed.

Lemma fetch_loop_spec fuel chunksize :
  0 < chunksize →
  ∀ results cursor dt chunks,
    NoDup dt.*1 →
    (results = [] → cursor = []) →
    length results + length cursor ≤ fuel →
    match mapM (fromrecord dt) (results ++ cursor) with
    | Return recs =>
        ∃ new,
          fetch_loop fuel chunksize results cursor dt chunks
          = Return (chunks ++ new) ∧
          Forall (λ chunk, dtype chunk = dt) new ∧
          mjoin (records <$> new) = recs
    | Raises e =>
        fetch_loop fuel chunksize results cursor dt chunks = Raises e
    end.
Proof.
  intros Hk.
  induction fuel as [|fuel IH]; intros results cursor dt chunks Hdt Hnil Hlen.
  - destruct results as [|r results]; [|simpl in Hlen; lia].
    rewrite (Hnil eq_refl). exists []. by rewrite app_nil_r.
  - destruct results as [|r results].
    { rewrite (Hnil eq_refl). exists []. by rewrite app_nil_r. }
    cbn [fetch_loop]. rewrite _convert_results_eq, (np_dtype_Return _ Hdt).
    cbn [mbind outcome_bind]. rewrite mapM_outcome_app.
    destruct (mapM (fromrecord dt) (r :: results)) as [recs1|e];
      cbn [mbind outcome_bind]; [|done].
    specialize (IH (take chunksize cursor) (drop chunksize cursor) dt
                  (chunks ++ [{| dtype := dt; records := recs1 |}]) Hdt).
    rewrite take_drop in IH.
    destruct (mapM (fromrecord dt) cursor) as [recs2|e];
      cbn [mbind outcome_bind].
    + destruct IH as (new & Hrun & Hnew & Hrec).
      * intros Htake. destruct cursor; [by rewrite drop_nil|].
        by destruct chunksize; [lia|].
      * rewrite <- length_app, take_drop. simpl in Hlen. lia.
      * exists ({| dtype := dt; records := recs1 |} :: new).
        rewrite Hrun, <- app_assoc. split; [done|]. split.
        -- by constructor.
        -- rewrite fmap_cons.
           change (mjoin (?x :: ?l)) with (x ++ mjoin l). by rewrite Hrec.
    + apply IH.
      * intros Htake. destruct cursor; [by rewrite drop_nil|].
        by destruct chunksize; [lia|].
      * rewrite <- length_app, take_drop. simpl in Hlen. lia.
Qed.

Lemma chunked_eq (rows : list row) dt chunksize :
  0 < chunksize →
  (chunks ← fetch_loop (length rows) chunksize (take chunksize rows)
             (drop chunksize rows) dt [];
   match chunks with
   | [] => dt' ← np_dtype dt; Return {| dtype := dt'; records := [] |}
   | first :: chunks => Return (hstack first chunks)
   end) = _convert_results rows dt.
Proof.
  intros Hk. rewrite _convert_results_eq.
  destruct (decide (NoDup dt.*1)) as [Hdt|Hdt].
  - rewrite (np_dtype_Return _ Hdt). cbn [mbind outcome_bind].
    pose proof (fetch_loop_spec (length rows) chunksize Hk
                  (take chunksize rows) (drop chunksize rows) dt [] Hdt)
      as Hloop.
    rewrite take_drop in Hloop.
    destruct (mapM (fromrecord dt) rows) as [recs|e].
    + destruct Hloop as (new & -> & Hnew & Hrec).
      * intros Htake. destruct rows; [by rewrite drop_nil|].
        by destruct chunksize; [lia|].
      * by rewrite <- length_app, take_drop.
      * cbn [mbind outcome_bind app]. destruct new as [|first chunks].
        -- by rewrite <- Hrec.
        -- unfold hstack. apply Forall_cons in Hnew as [-> _].
           by rewrite <- Hrec.
    + rewrite Hloop; [done| |].
      * intros Htake. destruct rows; [by rewrite drop_nil|].
        by destruct chunksize; [lia|].
      * by rewrite <- length_app, take_drop.
  - rewrite (np_dtype_Raises _ Hdt). cbn [mbind outcome_bind].
    destruct rows as [|r rows].
    + rewrite take_nil. cbn [length fetch_loop mbind outcome_bind].
      done.
    + destruct chunksize as [|k]; [lia|].
      cbn [length take fetch_loop].
      rewrite _convert_results_eq, (np_dtype_Raises _ Hdt). done.
Qed.

Lemma query_columns_unchunked self t cols c g n chunksize :
  query_columns self t cols c g n chunksize
  = query_columns self t cols c g n None.
Proof.
  unfold query_columns.
  destruct (_build_query self t cols c g n) as [q|e]; [|done].
  cbn [mbind outcome_bind]. destruct cols as [cols|]; [|done].
  cbn [mbind outcome_bind].
  destruct (each _ [] cols) as [dt|e]; [|done]. cbn [mbind outcome_bind].
  destruct (execute q) as [rows|e]; [|done]. cbn [mbind outcome_bind].
  rewrite (bool_decide_true (None = None ∨ _)) by (by left).
  case_bool_decide as Hchunk; [done|].
  destruct chunksize as [[|k]|]; [naive_solver| |naive_solver].
  simpl default. apply chunked_eq. lia.
Qed.

Lemma dtype_turn self t (acc : list (string * np_type)) col :
  match column_type self t col with
  | Some dt =>
      (table ← getitem (tables self) t;
       visit_name ← getitem table col;
       dt ← getitem (dbTypeMap self) visit_name;
       Return (acc ++ [(col, dt)])) = Return (acc ++ [(col, dt)])
  | None =>
      ∃ key,
        (table ← getitem (tables self) t;
         visit_name ← getitem table col;
         dt ← getitem (dbTypeMap self) visit_name;
         Return (acc ++ [(col, dt)])) = Raises (KeyError key)
  end.
Proof.
  unfold column_type, getitem.
  destruct (tables self !! t) as [table|]; simpl; [|by eexists].
  unfold Table in *.
  destruct (table !! col) as [visit_name|]; simpl; [|by eexists].
  destruct (dbTypeMap self !! visit_name) as [dt|]; simpl; [done|by eexists].
Qed.

Lemma dtype_loop self t cols :
  ∀ acc,
    match mapM (column_type self t) cols with
    | Some dts =>
        each (λ dtype col,
                table ← getitem (tables self) t;
                visit_name ← getitem table col;
                dt ← getitem (dbTypeMap self) visit_name;
                Return (dtype ++ [(col, dt)])) acc cols
        = Return (acc ++ zip cols dts)
    | None =>
        ∃ key,
          each (λ dtype col,
                  table ← getitem (tables self) t;
                  visit_name ← getitem table col;
                  dt ← getitem (dbTypeMap self) visit_name;
                  Return (dtype ++ [(col, dt)])) acc cols
          = Raises (KeyError key)
    end.
Proof.
  induction cols as [|col cols IH]; intros acc.
  { simpl. by rewrite app_nil_r. }
  cbn [each mapM]. pose proof (dtype_turn self t acc col) as Hturn.
  destruct (column_type self t col) as [dt|]; cbn [mbind option_bind].
  - rewrite Hturn. cbn [mbind outcome_bind].
    specialize (IH (acc ++ [(col, dt)])).
    destruct (mapM (column_type self t) cols) as [dts|]; cbn [mbind option_bind mret option_ret].
    + rewrite IH. by rewrite <- app_assoc.
    + done.
  - destruct Hturn as [key ->]. by exists key.
Qed.

Lemma query_columns_Return self t cols c g n chunksize res :
  query_columns self t (Some cols) c g n chunksize = Return res ↔
  ∃ q dts rows recs,
    _build_query self t (Some cols) c g n = Return q ∧
    mapM (column_type self t) cols = Some dts ∧
    NoDup cols ∧
    execute q = Return rows ∧
    mapM (fromrecord (zip cols dts)) rows = Return recs ∧
    res = {| dtype := zip cols dts; records := recs |}.
Proof.
  rewrite query_columns_unchunked. unfold query_columns.
  destruct (_build_query self t (Some cols) c g n) as [q|e];
    cbn [mbind outcome_bind]; [|naive_solver].
  pose proof (dtype_loop self t cols []) as Hloop.
  destruct (mapM (column_type self t) cols) as [dts|] eqn:Hdts.
  2:{ destruct Hloop as [key ->]. naive_solver. }
  rewrite Hloop. cbn [mbind outcome_bind app].
  assert ((zip cols dts).*1 = cols) as Hfst.
  { apply fst_zip. apply length_mapM in Hdts. lia. }
  destruct (execute q) as [rows|e] eqn:Hexec; cbn [mbind outcome_bind].
  2:{ split; [done|].
      intros (? & ? & ? & ? & [= <-] & _ & _ & Hrows & _). congruence. }
  rewrite bool_decide_true by (by left). rewrite _convert_results_eq.
  destruct (decide (NoDup cols)) as [Hcols|Hcols].
  - rewrite np_dtype_Return by (by rewrite Hfst).
    cbn [mbind outcome_bind].
    destruct (mapM (fromrecord (zip cols dts)) rows) as [recs|e] eqn:Hrecs;
      cbn [mbind outcome_bind].
    + split.
      * intros [= <-]. by exists q, dts, rows, recs.
      * intros (? & ? & ? & ? & [= <-] & [= <-] & _ & Hrows & Hrecs' & ->).
        congruence.
    + split; [done|].
      intros (? & ? & ? & ? & [= <-] & [= <-] & _ & Hrows & Hrecs' & _).
      congruence.
  - rewrite np_dtype_Raises by (by rewrite Hfst). split; [done|].
    by intros (? & ? & ? & ? & _ & _ & ? & _).
Qed.

Lemma _build_query_Return_iff self t cols c g n table available :
  tables self !! t = Some table → columnNames self !! t = Some available →
  (∃ q, _build_query self t (Some cols) c g n = Return q) ↔
  cols ≠ [] ∧ Forall (λ col, col ∈ available) cols ∧
  ∀ groupBy, g = Some groupBy → groupBy ∈ available.
Proof.
  intros Ht Hc. split.
  - intros [q Hq].
    destruct (list_find (λ col, col ∉ available) cols) as [[i col]|] eqn:Hfind.
    { by rewrite (_build_query_bad_column _ _ _ _ _ _ _ _ _ _ Ht Hc Hfind) in Hq. }
    assert (Forall (λ col, col ∈ available) cols) as Hcols.
    { apply list_find_None in Hfind. eapply Forall_impl; [done|].
      intros col. apply dec_stable. }
    assert (∀ groupBy, g = Some groupBy → groupBy ∈ available) as Hg.
    { intros groupBy ->. destruct (decide (groupBy ∈ available)) as [|Hn]; [done|].
      by rewrite (_build_query_bad_groupBy _ _ _ _ _ _ _ _ Ht Hc Hcols Hn) in Hq. }
    repeat split; [|done..]. intros ->.
    pose proof (_build_query_checked self t [] c g n _ _ Ht Hc Hcols Hg) as Hnil.
    simpl in Hnil. by rewrite Hnil in Hq.
  - intros (Hne & Hcols & Hg).
    pose proof (_build_query_checked self t cols c g n _ _ Ht Hc Hcols Hg) as Hrun.
    destruct cols as [|c0 rest]; [done|]. destruct Hrun as (q & Hq & _).
    by exists q.
Qed.

(** X21: the result of [query_columns], an exception or a recarray, does
    not depend on [chunksize]: fetching in chunks and stacking them gives
    what fetching all rows at once gives. *)
Theorem query_columns_chunksize_irrelevant self t cols c g n chunksize :
  query_columns self t cols c g n chunksize
  = query_columns self t cols c g n None.
Proof. apply query_columns_unchunked. Qed.

(** X20: [query_columns] with [colnames=None] never returns data: where
    [_build_query] accepts the request, the loop over the column names
    raises [TypeError]. *)
Theorem query_columns_all_columns_never_returns self t c g n chunksize :
  (∀ res, query_columns self t None c g n chunksize ≠ Return res) ∧
  (∀ q, _build_query self t None c g n = Return q →
        query_columns self t None c g n chunksize = Raises TypeError).
Proof.
  unfold query_columns.
  destruct (_build_query self t None c g n) as [q|e]; cbn [mbind outcome_bind].
  - split; [done|]. by intros.
  - split; [done|]. by intros.
Qed.

(** X19: [_build_query] with [colnames=None] selects the columns of the
    table, in their order, when the first is not repeated, and accepts
    any [groupBy], a column of the table or not. *)
Theorem build_query_all_columns self t c g n table c0 rest :
  tables self !! t = Some table → columnNames self !! t = Some (c0 :: rest) →
  c0 ∉ rest →
  ∃ q, _build_query self t None c g n = Return q ∧ selected q = c0 :: rest.
Proof.
  intros Ht Hc Hn.
  destruct (_build_query_all self t c g n _ _ _ Ht Hc) as (q & Hq & Hsel & _).
  exists q. split; [done|]. by apply Hsel.
Qed.

(** X18: a query [_build_query] returns for a list of columns selects the
    columns from the last occurrence of the first column on: a list that
    repeats its first column loses what stands before the repetition, and
    a list whose first column is not repeated is selected as it is. *)
Theorem build_query_selected self t cols c g n q :
  _build_query self t (Some cols) c g n = Return q →
  ∃ c0 pre post,
    head cols = Some c0 ∧ cols = pre ++ (c0 :: post) ∧ (c0 ∉ post) ∧
    selected q = c0 :: post ∧
    (c0 ∉ tail cols → selected q = cols).
Proof.
  intros Hq.
  destruct (tables self !! t) as [table|] eqn:Ht;
    [|by rewrite (_build_query_unknown_table _ _ _ _ _ _ Ht) in Hq].
  destruct cols as [|c0 rest].
  { unfold _build_query in Hq. rewrite bool_decide_false in Hq by congruence.
    simpl in Hq. destruct g as [groupBy|]; simpl in Hq; [|done].
    destruct (getitem (columnNames self) t); simpl in Hq; [|done].
    by case_bool_decide. }
  destruct (columnNames self !! t) as [available|] eqn:Hc.
  2:{ unfold _build_query in Hq. rewrite bool_decide_false in Hq by congruence.
      assert (getitem (columnNames self) t = Raises (KeyError t)) as Hget
        by (unfold getitem; by rewrite Hc).
      by rewrite Hget in Hq. }
  destruct (proj1 (_build_query_Return_iff self t (c0 :: rest) c g n _ _ Ht Hc))
    as (_ & Hcols & Hg); [by exists q|].
  destruct (_build_query_checked self t (c0 :: rest) c g n _ _ Ht Hc Hcols Hg)
    as (q' & Hq' & Hnotin & Hin).
  assert (q' = q) as -> by congruence.
  exists c0. destruct (decide (c0 ∈ rest)) as [Hc0|Hc0].
  - destruct (Hin Hc0) as (pre & post & -> & Hpost & Hsel).
    exists (c0 :: pre), post. repeat split; done.
  - exists [], rest. repeat split; try done; by apply Hnotin.
Qed.

(** X17: the checks of [_build_query] in their order. An unknown table
    gives the table [ValueError] whatever the columns; otherwise the first
    column that is not in the table gives the column [ValueError];
    otherwise a [groupBy] that is not in the table gives the groupBy
    [ValueError]; otherwise an empty column list gives [UnboundLocalError]
    and any other list a query. *)
Theorem build_query_error_order self t cols c g n table available :
  (tables self !! t = None →
   ∀ colnames, _build_query self t colnames c g n
               = Raises (ValueError (TableNotAvailable t))) ∧
  (tables self !! t = Some table → columnNames self !! t = Some available →
   (∀ pre col post,
      cols = pre ++ (col :: post) → Forall (λ col, col ∈ available) pre →
      col ∉ available →
      _build_query self t (Some cols) c g n
      = Raises (ValueError (ColumnNotAvailable col t))) ∧
   (Forall (λ col, col ∈ available) cols →
    (∀ groupBy, g = Some groupBy → groupBy ∉ available →
       _build_query self t (Some cols) c g n
       = Raises (ValueError (GroupByNotAvailable groupBy t))) ∧
    ((∀ groupBy, g = Some groupBy → groupBy ∈ available) →
     (cols = [] →
      _build_query self t (Some cols) c g n = Raises UnboundLocalError) ∧
     (cols ≠ [] → ∃ q, _build_query self t (Some cols) c g n = Return q)))).
Proof.
  split; [|intros Ht Hc; split; [|intros Hcols; split; [|intros Hg; split]]].
  - intros Ht colnames. by apply _build_query_unknown_table.
  - intros pre col post -> Hpre Hcol.
    eapply (_build_query_bad_column _ _ _ _ _ _ _ _ (length pre));
      [done..|].
    apply list_find_Some. repeat split.
    + by apply list_lookup_middle.
    + done.
    + intros j y Hy Hj. rewrite lookup_app_l in Hy by done.
      rewrite Forall_forall in Hpre. intros Hny. apply Hny, Hpre.
      by eapply list_elem_of_lookup_2.
  - intros groupBy -> Hn. by eapply _build_query_bad_groupBy.
  - intros ->.
    by apply (_build_query_checked self t [] c g n _ _ Ht Hc Hcols Hg).
  - intros Hne. apply (_build_query_Return_iff _ _ _ _ _ _ _ _ Ht Hc). done.
Qed.

(** X22: [query_columns] returns a recarray exactly when [_build_query]
    returns a query, every column has a type in [dbTypeMap], no column is
    named twice (numpy rejects the dtype otherwise), the database answers
    the query and every row converts; the dtype then names the columns in
    the order of the request with these types, and the records are the
    converted rows in the order the database yields them. *)
Theorem query_columns_result self t cols c g n chunksize res :
  query_columns self t (Some cols) c g n chunksize = Return res ↔
  ∃ q dts rows recs,
    _build_query self t (Some cols) c g n = Return q ∧
    mapM (column_type self t) cols = Some dts ∧
    NoDup cols ∧
    execute q = Return rows ∧
    mapM (fromrecord (zip cols dts)) rows = Return recs ∧
    res = {| dtype := zip cols dts; records := recs |}.
Proof. apply query_columns_Return. Qed.

End DatabaseQueries.

(** ** The connection and [fetchMetricData] *)

Section DatabaseInit.
Import Database.
Context `{Session}.

Lemma foldl_insert_lookup {A} (f : string → A) (l : list string) :
  ∀ (m : gmap string A) key,
    foldl (λ m t, <[t := f t]> m) m l !! key
    = if decide (key ∈ l) then Some (f key) else m !! key.
Proof.
  induction l as [|t l IH]; intros m key; [done|].
  cbn [foldl]. rewrite IH.
  destruct (decide (key ∈ l)) as [Hin|Hin].
  - rewrite decide_True; [done|by right].
  - destruct (decide (key = t)) as [->|Hne].
    + rewrite lookup_insert_eq. rewrite decide_True; [done|by left].
    + rewrite lookup_insert_ne by done.
      rewrite decide_False; [done|]. by intros [?|?]%elem_of_cons.
Qed.

Lemma init_Return isfile db database driver defaultTable0 longstrings self :
  __init__ isfile db database driver defaultTable0 longstrings = Return self →
  ¬ (driver = "sqlite" ∧ isfile = false) ∧
  tableNames self = get_table_names db ++ get_view_names db ∧
  (∀ t, tables self !! t
        = if decide (t ∈ tableNames self) then Some (autoload db t)
          else None) ∧
  (∀ t, columnNames self !! t
        = if decide (t ∈ tableNames self) then Some (get_columns db t)
          else None) ∧
  dbTypeMap self
  = (if longstrings then typeOverRide ∪ shortstrings else shortstrings) ∧
  defaultTable self
  = match defaultTable0, tableNames self with
    | None, [t] => Some t
    | _, _ => defaultTable0
    end.
Proof.
  unfold __init__. intros Hinit.
  destruct (bool_decide (driver = "sqlite") && negb isfile) eqn:Hfile; [done|].
  injection Hinit as <-. cbn [tableNames tables columnNames dbTypeMap defaultTable].
  repeat split.
  - intros [-> ->]. by rewrite bool_decide_true in Hfile.
  - intros t. by rewrite foldl_insert_lookup, lookup_empty.
  - intros t. by rewrite foldl_insert_lookup, lookup_empty.
Qed.

Lemma typeOverRide_lookup key :
  typeOverRide !! key
  = if bool_decide (key ∈ ["VARCHAR"; "NVARCHAR"; "TEXT"; "CLOB"; "STRING"])
    then Some (NpStr 1024) else None.
Proof.
  case_bool_decide as Hkey.
  - repeat (apply elem_of_cons in Hkey as [->|Hkey]; [by vm_compute|]).
    by apply elem_of_nil in Hkey.
  - apply not_elem_of_list_to_map_1. exact Hkey.
Qed.

(** X23: [Database.__init__] raises [IOError] exactly for the driver
    [sqlite] with a file that does not exist; otherwise [tableNames] lists
    the tables, then the views, and [tables] and [columnNames] have
    exactly these names as keys, bound to the reflected table and to its
    column names. *)
Theorem init_reflects_database isfile db database driver defaultTable0
    longstrings :
  (__init__ isfile db database driver defaultTable0 longstrings
   = Raises (IOError database) ↔ driver = "sqlite" ∧ isfile = false) ∧
  ∀ self,
    __init__ isfile db database driver defaultTable0 longstrings
    = Return self →
    tableNames self = get_table_names db ++ get_view_names db ∧
    (∀ t, t ∈ tableNames self →
          tables self !! t = Some (autoload db t) ∧
          columnNames self !! t = Some (get_columns db t)) ∧
    (∀ t, t ∉ tableNames self →
          tables self !! t = None ∧ columnNames self !! t = None).
Proof.
  split.
  - unfold __init__. split.
    + destruct (bool_decide (driver = "sqlite") && negb isfile) eqn:Hfile;
        [|done]. intros _.
      apply andb_true_iff in Hfile as [Hd Hf].
      apply bool_decide_eq_true in Hd. by destruct isfile.
    + intros [-> ->]. by rewrite bool_decide_true.
  - intros self (_ & Hnames & Htables & Hcols & _)%init_Return.
    split; [done|]. split.
    + intros t Ht. by rewrite Htables, Hcols, !decide_True.
    + intros t Ht. by rewrite Htables, Hcols, !decide_False.
Qed.

(** X24: [longstrings] changes [dbTypeMap] at the five keys [VARCHAR],
    [NVARCHAR], [TEXT], [CLOB] and [STRING], widened to 1024 characters,
    and at no other key: [NCLOB] and [NTEXT] keep 256. *)
Theorem longstrings_widens_five_types isfile db database driver defaultTable0
    short long :
  __init__ isfile db database driver defaultTable0 false = Return short →
  __init__ isfile db database driver defaultTable0 true = Return long →
  ∀ key,
    dbTypeMap long !! key
    = if bool_decide (key ∈ ["VARCHAR"; "NVARCHAR"; "TEXT"; "CLOB"; "STRING"])
      then Some (NpStr 1024)
      else dbTypeMap short !! key.
Proof.
  intros (_ & _ & _ & _ & Hs & _)%init_Return
         (_ & _ & _ & _ & Hl & _)%init_Return key.
  rewrite Hs, Hl. rewrite lookup_union, typeOverRide_lookup.
  case_bool_decide; [|by rewrite (left_id None _)].
  by destruct (shortstrings !! key).
Qed.

(** X25: on a database built without [defaultTable], [fetchMetricData]
    without [tableName] queries the table of a database that has exactly
    one table or view, and raises the table [ValueError] for a database
    with none or several. *)
Theorem fetchMetricData_default_table isfile db database driver longstrings
    self cols c g :
  __init__ isfile db database driver None longstrings = Return self →
  (∀ t, get_table_names db ++ get_view_names db = [t] →
        fetchMetricData self cols c g None
        = fetchMetricData self cols c g (Some t)) ∧
  (length (get_table_names db ++ get_view_names db) ≠ 1 →
   fetchMetricData self cols c g None
   = Raises (ValueError (TableNotRecognized None))).
Proof.
  intros (_ & Hnames & _ & _ & _ & Hdefault)%init_Return.
  rewrite Hnames in Hdefault. unfold fetchMetricData. rewrite Hdefault. split.
  - by intros t ->.
  - intros Hlen.
    destruct (get_table_names db ++ get_view_names db) as [|t [|t' l]];
      simpl in *; done.
Qed.

Lemma column_type_is_Some self t table col :
  tables self !! t = Some table →
  is_Some (column_type self t col) ↔
  ∃ visit_name, table !! col = Some visit_name ∧
                is_Some (dbTypeMap self !! visit_name).
Proof.
  intros Ht. unfold column_type. rewrite Ht. simpl. unfold Table in *.
  destruct (table !! col) as [visit_name|]; simpl.
  - split; [by exists visit_name|]. by intros (? & [= <-] & ?).
  - split; [by intros [? ?]|]. by intros (? & ? & ?).
Qed.

(** X26: on a database built by [__init__], and when the database answers
    the query with rows that convert, [fetchMetricData] returns data for a
    list of columns of a named table exactly when the table is a table or
    view of the database, the list is not empty and names no column
    twice, its columns and the [groupBy] column, unless it is ['default'],
    are columns of the table, and every column has a type with an entry
    in [dbTypeMap]. *)
Theorem fetchMetricData_returns_iff isfile db database driver defaultTable0
    longstrings self t cols c g :
  __init__ isfile db database driver defaultTable0 longstrings = Return self →
  (∀ q dts,
     _build_query self t (Some cols) c
       (if bool_decide (g = Some "default") then None else g) None
     = Return q →
     mapM (column_type self t) cols = Some dts →
     ∃ rows recs,
       execute q = Return rows ∧
       mapM (fromrecord (zip cols dts)) rows = Return recs) →
  (∃ res, fetchMetricData self (Some cols) c g (Some t) = Return res) ↔
  t ∈ get_table_names db ++ get_view_names db ∧
  cols ≠ [] ∧ NoDup cols ∧
  Forall (λ col, col ∈ get_columns db t) cols ∧
  (∀ groupBy, g = Some groupBy → groupBy ≠ "default" →
              groupBy ∈ get_columns db t) ∧
  Forall (λ col, ∃ visit_name,
                   autoload db t !! col = Some visit_name ∧
                   is_Some (dbTypeMap self !! visit_name)) cols.
Proof.
  intros (_ & Hnames & Htables & Hcols & _)%init_Return.
  unfold fetchMetricData. rewrite <- Hnames.
  set (g' := if bool_decide (g = Some "default") then None else g).
  intros Hanswer.
  case_bool_decide as Ht; [|split; [by intros [? ?]|tauto]].
  specialize (Htables t). specialize (Hcols t).
  rewrite decide_True in Htables by done.
  rewrite decide_True in Hcols by done.
  assert ((∀ groupBy, g' = Some groupBy → groupBy ∈ get_columns db t) ↔
          (∀ groupBy, g = Some groupBy → groupBy ≠ "default" →
                      groupBy ∈ get_columns db t)) as Hg.
  { unfold g'. case_bool_decide as Hd.
    - subst g. split; [|done]. intros _ groupBy [= <-] Hne. done.
    - split.
      + intros Hall groupBy -> _. by apply Hall.
      + intros Hall groupBy ->. apply Hall; [done|]. congruence. }
  split.
  - intros [res (q & dts & rows & recs & Hq & Hdts & Hnodup & _)%query_columns_Return].
    destruct (proj1 (_build_query_Return_iff self t cols c g' None _ _
                       Htables Hcols)) as (Hne & Hc & Hgv); [by exists q|].
    split; [done|]. split; [done|]. split; [done|]. split; [done|].
    split; [by apply Hg|].
    assert (is_Some (mapM (column_type self t) cols)) as Hty by by exists dts.
    apply mapM_is_Some in Hty. eapply Forall_impl; [exact Hty|].
    intros col Hcol. by apply (column_type_is_Some _ _ _ _ Htables).
  - intros (_ & Hne & Hnodup & Hc & Hgv & Hty).
    destruct (proj2 (_build_query_Return_iff self t cols c g' None _ _
                       Htables Hcols)) as [q Hq].
    { split; [done|]. split; [done|]. by apply Hg. }
    assert (is_Some (mapM (column_type self t) cols)) as [dts Hdts].
    { apply mapM_is_Some. eapply Forall_impl; [exact Hty|].
      intros col Hcol. by apply (column_type_is_Some _ _ _ _ Htables). }
    destruct (Hanswer q dts Hq Hdts) as (rows & recs & Hrows & Hrecs).
    eexists. apply query_columns_Return. by exists q, dts, rows, recs.
Qed.

End DatabaseInit.

(** ** The small database at work *)

Section DemoDatabase.
Import Database.
Existing Instance demo_session.

Ltac evaluate := reflexivity.
Ltac not_in_list :=
  let H := fresh in
  intros H; repeat (apply elem_of_cons in H as [H|H]; [discriminate H|]);
  by apply elem_of_nil in H.

Lemma demo_init :
  __init__ true demo_engine "opsim_sqlite.db" "sqlite" None false
  = Return demo_database.
Proof. evaluate. Qed.

Lemma demo_long_init :
  __init__ true demo_engine "opsim_sqlite.db" "sqlite" None true
  = Return demo_long_database.
Proof. evaluate. Qed.

Lemma registry_round_trip_witness :
  getClass (<["Database" := 1]> ∅)
    (databasename "lsst.sims.maf.db.database" "Database") = Return 1.
Proof.
  refine (proj1 (registry_round_trip None "lsst.sims.maf.db.database"
                   "Database" 1 _ _ _)); [evaluate|vm_compute; discriminate].
Defined.

Lemma define_hierarchy_distinct_keys_witness :
  ∃ registry, define_hierarchy demo_root demo_subclasses = Return registry.
Proof.
  apply (proj1 (define_hierarchy_distinct_keys demo_root demo_subclasses)).
  replace (filter _ _)
    with ["Database"; "OpsimDatabase"; "myproject.db.Database"] by evaluate.
  repeat (apply NoDup_cons; split; [not_in_list|]). apply NoDup_nil_2.
Defined.

Lemma build_query_selected_witness :
  ∃ c0 pre post,
    head ["night"; "filter"; "night"; "obsHistID"] = Some c0 ∧
    ["night"; "filter"; "night"; "obsHistID"] = pre ++ (c0 :: post) ∧
    (c0 ∉ post) ∧
    selected demo_built_query = c0 :: post ∧
    (c0 ∉ tail ["night"; "filter"; "night"; "obsHistID"] →
     selected demo_built_query = ["night"; "filter"; "night"; "obsHistID"]).
Proof.
  apply (build_query_selected demo_database "Summary" _ None None None).
  evaluate.
Defined.

Lemma build_query_error_order_witness :
  _build_query demo_database "Summary" (Some ["night"; "seeing"; "airmass"])
    None (Some "seeing") None
  = Raises (ValueError (ColumnNotAvailable "seeing" "Summary")).
Proof.
  refine (proj1 (proj2 (build_query_error_order demo_database "Summary"
                          ["night"; "seeing"; "airmass"] None (Some "seeing")
                          None (autoload demo_engine "Summary")
                          ["obsHistID"; "night"; "filter"]) _ _)
            ["night"] "seeing" ["airmass"] _ _ _).
  - evaluate.
  - evaluate.
  - done.
  - repeat constructor.
  - not_in_list.
Defined.

Lemma build_query_all_columns_witness :
  ∃ q, _build_query demo_database "Summary" None None (Some "seeing") None
       = Return q ∧
       selected q = ["obsHistID"; "night"; "filter"].
Proof.
  apply (build_query_all_columns demo_database "Summary" None (Some "seeing")
           None (autoload demo_engine "Summary")).
  - evaluate.
  - evaluate.
  - not_in_list.
Defined.

Lemma query_columns_all_columns_never_returns_witness :
  query_columns demo_database "Summary" None None None None (Some 2)
  = Raises TypeError.
Proof.
  eapply (proj2 (query_columns_all_columns_never_returns demo_database
                   "Summary" None None None (Some 2))).
  evaluate.
Defined.

Lemma query_columns_result_witness :
  query_columns demo_database "Summary" (Some ["obsHistID"; "filter"])
    (Some "night = 1") None None (Some 1)
  = Return {| dtype := [("obsHistID", NpInt); ("filter", NpStr 256)];
              records := [[("obsHistID", 1%Z); ("filter", 0%Z)];
                          [("obsHistID", 2%Z); ("filter", 1%Z)]] |}.
Proof.
  apply (proj2 (query_columns_result demo_database "Summary"
                  ["obsHistID"; "filter"] (Some "night = 1") None None
                  (Some 1) _)).
  eexists _, _, _, _. split; [evaluate|]. split; [evaluate|].
  split; [repeat (apply NoDup_cons; split; [not_in_list|]); apply NoDup_nil_2|].
  split; [evaluate|]. split; evaluate.
Defined.

Lemma init_reflects_database_witness :
  tableNames demo_database = ["Summary"] ++ [].
Proof.
  exact (proj1 (proj2 (init_reflects_database true demo_engine
                         "opsim_sqlite.db" "sqlite" None false)
                  demo_database demo_init)).
Defined.

Lemma longstrings_widens_five_types_witness :
  dbTypeMap demo_long_database !! "NCLOB"
  = dbTypeMap demo_database !! "NCLOB".
Proof.
  exact (longstrings_widens_five_types true demo_engine "opsim_sqlite.db"
           "sqlite" None demo_database demo_long_database demo_init
           demo_long_init "NCLOB").
Defined.

Lemma fetchMetricData_default_table_witness :
  fetchMetricData demo_database (Some ["night"]) None None None
  = fetchMetricData demo_database (Some ["night"]) None None (Some "Summary").
Proof.
  exact (proj1 (fetchMetricData_default_table true demo_engine
                  "opsim_sqlite.db" "sqlite" false demo_database
                  (Some ["night"]) None None demo_init) "Summary" eq_refl).
Defined.

Lemma fetchMetricData_returns_iff_witness :
  ∃ res, fetchMetricData demo_database (Some ["obsHistID"; "night"])
           (Some "night = 1") (Some "default") (Some "Summary") = Return res.
Proof.
  refine (proj2 (fetchMetricData_returns_iff true demo_engine
                   "opsim_sqlite.db" "sqlite" None false demo_database
                   "Summary" ["obsHistID"; "night"] (Some "night = 1")
                   (Some "default") demo_init _) _).
  - intros q dts Hq Hdts. vm_compute in Hq, Hdts.
    injection Hq as <-. injection Hdts as <-.
    eexists _, _. split; evaluate.
  - split; [repeat constructor|].
    split; [done|].
    split; [repeat (apply NoDup_cons; split; [not_in_list|]);
            apply NoDup_nil_2|].
    split; [repeat constructor|].
    split; [by intros groupBy [= <-]|].
    apply Forall_cons. split.
    { eexists. split; [evaluate|]. eexists. evaluate. }
    apply Forall_cons. split; [|by apply Forall_nil].
    eexists. split; [evaluate|]. eexists. evaluate.
Defined.

End DemoDatabase.
